(** * Course timetabling: constraint model, genetic search and simulated annealing

    A shallow embedding of [genetic.py] and [simulated_annealing.py].

    - Python [int] is [Z]; Python [float] is binary64 ([PrimFloat.float]).
    - A Python [dict] is an association list in insertion order with unique
      keys; [d[k] = v] overwrites in place or appends.
    - Schedules are mutable dictionaries held by reference: the engines work on
      addresses into a heap of dictionaries, so that aliasing is visible.
    - The [random] module is an oracle: a fixed sequence of integers of which
      every call consumes the next one.
    - [int / float] converts the integer to the nearest binary64 value and
      raises [OverflowError] when there is none; products, quotients and
      comparisons of floats are the binary64 ones.
    - [math.exp] wraps the C library's [exp], which is a parameter of the
      annealing engine, and raises on the results CPython rejects.
    - Exceptions are an error result.
    - [print_best_schedule] returns the lines it writes to standard output;
      a character of a [string] stands for one code point. *)

From Stdlib Require Import ZArith Floats.
From stdpp Require Import base list strings pretty sorting.

Open Scope Z_scope.

(** ** Python built-ins *)

Module Py.

Inductive exn :=
| IndexError   (* indexing or choosing from an empty sequence *)
| KeyError     (* d[k] with k not in d *)
| ValueError   (* max() of an empty sequence, sample larger than population,
                  math domain error *)
| OverflowError     (* int too large to convert to float, math range error *)
| ZeroDivisionError (* float division by zero *)
| BadReference (* an address that was never allocated; unreachable from Python *).

Abbreviation dict K V := (list (K * V)) (only parsing).

Section Dict.
Context {K V : Type} `{EqDecision K}.

(** [d.get(k)] *)
Fixpoint get (k : K) (d : dict K V) : option V :=
  match d with
  | [] => None
  | (k', v) :: d' => if decide (k = k') then Some v else get k d'
  end.

(** [d[k] = v] *)
Fixpoint set (k : K) (v : V) (d : dict K V) : dict K V :=
  match d with
  | [] => [(k, v)]
  | (k', v') :: d' =>
      if decide (k = k') then (k', v) :: d' else (k', v') :: set k v d'
  end.

(** [d.keys()], [d.values()] *)
Definition keys (d : dict K V) : list K := d.*1.
Definition values (d : dict K V) : list V := d.*2.
End Dict.

(** [d.setdefault(k, []).append(x)] *)
Fixpoint setdefault_append {K A : Type} `{EqDecision K}
    (k : K) (x : A) (d : dict K (list A)) : dict K (list A) :=
  match d with
  | [] => [(k, [x])]
  | (k', l) :: d' =>
      if decide (k = k') then (k', l ++ [x]) :: d'
      else (k', l) :: setdefault_append k x d'
  end.

(** [len(l)] *)
Definition len {A : Type} (l : list A) : Z := Z.of_nat (length l).

(** [l.count(x)] *)
Definition count {A : Type} `{EqDecision A} (x : A) (l : list A) : Z :=
  len (filter (fun y => y = x) l).

(** [set(l)], listed by first occurrence.  Python does not fix the iteration
    order of a set; the loops below only add up over it. *)
Definition set_of {A : Type} `{EqDecision A} (l : list A) : list A :=
  remove_dups l.

(** [range(n)] only as an iteration count, and [range(0, n, 2)]. *)
Definition range_len (n : Z) : nat := Z.to_nat n.
Definition range_step2 (n : Z) : list Z :=
  (fun k : nat => 2 * Z.of_nat k) <$> seq 0 (Z.to_nat ((n + 1) / 2)).

(** Truth value of [s] where [s] is a string or [None]. *)
Definition truthy (s : option string) : option string :=
  match s with
  | Some EmptyString => None
  | _ => s
  end.

(** [float(n)], the conversion that [n / y] applies to an [int] on the left
    of a [float]: the binary64 value nearest to [n], ties to even; [None]
    where CPython raises [OverflowError] because that value is beyond the
    largest float. *)
Definition float_of_int (n : Z) : option float :=
  match SpecFloat.binary_normalize FloatOps.prec FloatOps.emax n 0 false with
  | SpecFloat.S754_infinity _ => None
  | x => Some (FloatOps.SF2Prim x)
  end.

End Py.

(** ** Problem instance *)

Definition course := string.
Definition time := string.
Definition room := string.

(** One entry of [course_details]; each key may be missing. *)
Record details := Details {
  department : option string;
  students : option Z;
  instructor : option string
}.

Record data := Data {
  course_details : Py.dict course details;
  courses : list course;
  room_capacities : Py.dict room Z;
  rooms : list room;
  times : list time;
  course_conflicts : list (list course)
}.

Abbreviation schedule := (Py.dict course (time * room)) (only parsing).

(** ** The constraint model of [genetic.py] *)

Module GeneticScore.

Definition PENALTIES : list Z := [1000; 1000; 500; 1000; 1000].
Definition PENALTY (i : nat) : Z := nth i PENALTIES 0.

Definition constraint1 (individual : schedule) : Z :=
  let assignments :=
    fold_left (fun asg '(course, (t, r)) => Py.setdefault_append (t, r) course asg)
              individual ([] : Py.dict (time * room) (list course)) in
  let conflict_count :=
    fold_left (fun cc course_list =>
                 if 1 <? Py.len course_list
                 then cc + (Py.len course_list - 1) else cc)
              (Py.values assignments) 0 in
  conflict_count * PENALTY 0.

Definition constraint2 (individual : schedule)
    (course_details : Py.dict course details)
    (room_capacities : Py.dict room Z) : Z :=
  fold_left (fun penalty '(course, (t, r)) =>
               let enrollment :=
                 match Py.get course course_details with
                 | Some d => default 0 (students d)
                 | None => 0
                 end in
               let room_cap := default 0 (Py.get r room_capacities) in
               if room_cap <? enrollment
               then penalty + (enrollment - room_cap) * PENALTY 1
               else penalty)
            individual 0.

Definition constraint3 (individual : schedule)
    (course_details : Py.dict course details) : Z :=
  let dept_courses :=
    fold_left (fun dc '(course, details) =>
                 match Py.truthy (department details) with
                 | Some dept => Py.setdefault_append dept course dc
                 | None => dc
                 end)
              course_details ([] : Py.dict string (list course)) in
  let conflict_count :=
    fold_left (fun cc '(dept, courses_in_dept) =>
                 let times_assigned :=
                   omap (fun course => fst <$> Py.get course individual)
                        courses_in_dept in
                 fold_left (fun cc t =>
                              let count := Py.count t times_assigned in
                              if 1 <? count then cc + (count - 1) else cc)
                           (Py.set_of times_assigned) cc)
              dept_courses 0 in
  conflict_count * PENALTY 2.

Definition constraint4 (individual : schedule)
    (course_details : Py.dict course details) : Z :=
  let teacher_courses :=
    fold_left (fun tc '(course, details) =>
                 match Py.truthy (instructor details) with
                 | Some teacher => Py.setdefault_append teacher course tc
                 | None => tc
                 end)
              course_details ([] : Py.dict string (list course)) in
  let conflict_count :=
    fold_left (fun cc '(teacher, courses_taught) =>
                 let times_assigned :=
                   omap (fun course => fst <$> Py.get course individual)
                        courses_taught in
                 fold_left (fun cc t =>
                              let count := Py.count t times_assigned in
                              if 1 <? count then cc + (count - 1) else cc)
                           (Py.set_of times_assigned) cc)
              teacher_courses 0 in
  conflict_count * PENALTY 3.

Definition constraint5 (individual : schedule)
    (course_conflicts : list (list course)) : Z :=
  let conflict_count :=
    fold_left (fun cc group =>
                 let times_assigned :=
                   omap (fun course => fst <$> Py.get course individual) group in
                 fold_left (fun cc t =>
                              let count := Py.count t times_assigned in
                              if 1 <? count then cc + (count - 1) else cc)
                           (Py.set_of times_assigned) cc)
              course_conflicts 0 in
  conflict_count * PENALTY 4.

Definition fitness (self : data) (individual : schedule) : Z :=
  let total_cost := 0 in
  let total_cost := total_cost + constraint1 individual in
  let total_cost :=
    total_cost + constraint2 individual (course_details self) (room_capacities self) in
  let total_cost := total_cost + constraint3 individual (course_details self) in
  let total_cost := total_cost + constraint4 individual (course_details self) in
  let total_cost := total_cost + constraint5 individual (course_conflicts self) in
  - total_cost.

End GeneticScore.

(** ** The constraint model of [simulated_annealing.py] *)

Module AnnealingScore.

Definition PENALTIES : list Z := [1000; 1000; 500; 1000; 1000].
Definition PENALTY (i : nat) : Z := nth i PENALTIES 0.

Section Self.
Variable self : data.

Definition constraint1 (individual : schedule) : Z :=
  let assignments :=
    fold_left (fun asg '(course, (t, r)) => Py.setdefault_append (t, r) course asg)
              individual ([] : Py.dict (time * room) (list course)) in
  let conflict_count :=
    fold_left (fun cc course_list =>
                 if 1 <? Py.len course_list
                 then cc + (Py.len course_list - 1) else cc)
              (Py.values assignments) 0 in
  conflict_count * PENALTY 0.

Definition constraint2 (individual : schedule) : Z :=
  fold_left (fun penalty '(course, (t, r)) =>
               let enrollment :=
                 match Py.get course (course_details self) with
                 | Some d => default 0 (students d)
                 | None => 0
                 end in
               let room_cap := default 0 (Py.get r (room_capacities self)) in
               if room_cap <? enrollment
               then penalty + (enrollment - room_cap) * PENALTY 1
               else penalty)
            individual 0.

Definition constraint3 (individual : schedule) : Z :=
  let dept_courses :=
    fold_left (fun dc '(course, details) =>
                 match Py.truthy (department details) with
                 | Some dept => Py.setdefault_append dept course dc
                 | None => dc
                 end)
              (course_details self) ([] : Py.dict string (list course)) in
  let conflict_count :=
    fold_left (fun cc '(dept, courses_in_dept) =>
                 let times_assigned :=
                   omap (fun course => fst <$> Py.get course individual)
                        courses_in_dept in
                 fold_left (fun cc t =>
                              let count := Py.count t times_assigned in
                              if 1 <? count then cc + (count - 1) else cc)
                           (Py.set_of times_assigned) cc)
              dept_courses 0 in
  conflict_count * PENALTY 2.

Definition constraint4 (individual : schedule) : Z :=
  let teacher_courses :=
    fold_left (fun tc '(course, details) =>
                 match Py.truthy (instructor details) with
                 | Some teacher => Py.setdefault_append teacher course tc
                 | None => tc
                 end)
              (course_details self) ([] : Py.dict string (list course)) in
  let conflict_count :=
    fold_left (fun cc '(teacher, courses_taught) =>
                 let times_assigned :=
                   omap (fun course => fst <$> Py.get course individual)
                        courses_taught in
                 fold_left (fun cc t =>
                              let count := Py.count t times_assigned in
                              if 1 <? count then cc + (count - 1) else cc)
                           (Py.set_of times_assigned) cc)
              teacher_courses 0 in
  conflict_count * PENALTY 3.

Definition constraint5 (individual : schedule) : Z :=
  let conflict_count :=
    fold_left (fun cc group =>
                 let times_assigned :=
                   omap (fun course => fst <$> Py.get course individual) group in
                 fold_left (fun cc t =>
                              let count := Py.count t times_assigned in
                              if 1 <? count then cc + (count - 1) else cc)
                           (Py.set_of times_assigned) cc)
              (course_conflicts self) 0 in
  conflict_count * PENALTY 4.

Definition fitness (individual : schedule) : Z :=
  let total_cost := 0 in
  let total_cost := total_cost + constraint1 individual in
  let total_cost := total_cost + constraint2 individual in
  let total_cost := total_cost + constraint3 individual in
  let total_cost := total_cost + constraint4 individual in
  let total_cost := total_cost + constraint5 individual in
  - total_cost.
End Self.

End AnnealingScore.

(** ** Effects: exceptions, the heap of schedules, the random oracle *)

Inductive result (A : Type) :=
| Ok (a : A)
| Raise (e : Py.exn).
Arguments Ok {A} a.
Arguments Raise {A} e.

Definition addr := nat.

Record world := World {
  heap : list (Py.dict course (time * room));
  oracle : nat -> Z;
  cursor : nat
}.

Definition M (A : Type) : Type := world -> result (A * world).

Definition ret {A} (a : A) : M A := fun w => Ok (a, w).

Definition bind {A B} (m : M A) (k : A -> M B) : M B :=
  fun w => match m w with
           | Ok (a, w') => k a w'
           | Raise e => Raise e
           end.

Definition raise {A} (e : Py.exn) : M A := fun _ => Raise e.

Notation "'let*' x ':=' m 'in' k" := (bind m (fun x => k))
  (at level 10, x pattern, m at level 100, k at level 200).
Notation "m ';;' k" := (bind m (fun _ => k))
  (at level 100, k at level 200, right associativity).

(** [[f(x) for x in l]] *)
Fixpoint mapM {A B} (f : A -> M B) (l : list A) : M (list B) :=
  match l with
  | [] => ret []
  | x :: l' => let* y := f x in let* ys := mapM f l' in ret (y :: ys)
  end.

(** [for x in l: acc = f(acc, x)] *)
Fixpoint foldM {A B} (f : B -> A -> M B) (acc : B) (l : list A) : M B :=
  match l with
  | [] => ret acc
  | x :: l' => let* acc' := f acc x in foldM f acc' l'
  end.

(** [for x in l: f(x)] *)
Definition for_ {A} (l : list A) (f : A -> M unit) : M unit :=
  foldM (fun _ x => f x) tt l.

(** [[m for _ in range(n)]] *)
Definition timesM {A} (n : nat) (m : M A) : M (list A) :=
  mapM (fun _ => m) (seq 0 n).

Module Heap.

(** A new dictionary object. *)
Definition alloc (d : schedule) : M addr :=
  fun w => Ok (length (heap w), World (heap w ++ [d]) (oracle w) (cursor w)).

Definition load (a : addr) : M schedule :=
  fun w => match heap w !! a with
           | Some d => Ok (d, w)
           | None => Raise Py.BadReference
           end.

Definition store (a : addr) (d : schedule) : M unit :=
  fun w => match heap w !! a with
           | Some _ => Ok (tt, World (<[a:=d]> (heap w)) (oracle w) (cursor w))
           | None => Raise Py.BadReference
           end.

(** [a[k]] *)
Definition getitem (a : addr) (k : course) : M (time * room) :=
  let* d := load a in
  match Py.get k d with
  | Some v => ret v
  | None => raise Py.KeyError
  end.

(** [a[k] = v] *)
Definition setitem (a : addr) (k : course) (v : time * room) : M unit :=
  let* d := load a in store a (Py.set k v d).

(** [a.copy()] *)
Definition copy (a : addr) : M addr :=
  let* d := load a in alloc d.

End Heap.

(** [l[i]] for a list, with Python's negative indices. *)
Definition list_getitem {A} (l : list A) (i : Z) : M A :=
  let j := if i <? 0 then i + Py.len l else i in
  if j <? 0 then raise Py.IndexError
  else match l !! Z.to_nat j with
       | Some x => ret x
       | None => raise Py.IndexError
       end.

(** [max(l)] *)
Definition py_max (l : list Z) : M Z :=
  match l with
  | [] => raise Py.ValueError
  | x :: l' => ret (fold_left Z.max l' x)
  end.

(** [max(l, key=lambda x: x[1])]: the first element with the largest key. *)
Definition py_max_by_snd {A} (l : list (A * Z)) : M (A * Z) :=
  match l with
  | [] => raise Py.ValueError
  | x :: l' => ret (fold_left (fun best y => if best.2 <? y.2 then y else best) l' x)
  end.

(** [l.index(x)] *)
Fixpoint index_from (x : Z) (l : list Z) (i : Z) : M Z :=
  match l with
  | [] => raise Py.ValueError
  | y :: l' => if decide (y = x) then ret i else index_from x l' (i + 1)
  end.
Definition py_index (l : list Z) (x : Z) : M Z := index_from x l 0.

(** [n / y] for an [int] and a [float]: the integer is converted first, then
    the divisor is tested. *)
Definition truediv (n : Z) (y : float) : M float :=
  match Py.float_of_int n with
  | None => raise Py.OverflowError
  | Some x =>
      if PrimFloat.eqb y 0 then raise Py.ZeroDivisionError
      else ret (PrimFloat.div x y)
  end.

(** The [math] module. *)
Module Math.

(** [math.exp(x)] over the C library's [exp]: a result that is not a number
    for an argument that is one raises [ValueError], an infinite result for
    a finite argument raises [OverflowError].  The C library's [errno] is
    left out: [exp] sets it on overflow, which the second test has caught,
    and on underflow, where CPython ignores it. *)
Definition exp (libm_exp : float -> float) (x : float) : M float :=
  let r := libm_exp x in
  if PrimFloat.is_nan r && negb (PrimFloat.is_nan x) then raise Py.ValueError
  else if PrimFloat.is_infinity r && PrimFloat.is_finite x
       then raise Py.OverflowError
       else ret r.

End Math.

(** The [random] module.  Every call takes the next integer of the oracle. *)
Module Random.

Definition draw : M Z :=
  fun w => Ok (oracle w (cursor w), World (heap w) (oracle w) (S (cursor w))).

Definition two53 : Z := 2 ^ 53.

(** [random.random()]: a multiple of 2^-53 in [0, 1). *)
Definition unit_float (k : Z) : float :=
  PrimFloat.div (PrimFloat.of_uint63 (Uint63.of_Z (k mod two53)))
                (PrimFloat.of_uint63 (Uint63.of_Z two53)).

Definition random : M float :=
  let* k := draw in ret (unit_float k).

(** An index below [n], for [n > 0]. *)
Definition randbelow (n : Z) : M Z :=
  let* k := draw in ret (k mod n).

(** [random.choice(seq)] *)
Definition choice {A} (seq : list A) : M A :=
  match seq with
  | [] => raise Py.IndexError
  | _ => let* i := randbelow (Py.len seq) in list_getitem seq i
  end.

(** [random.sample(population, k)]: [k] elements at distinct positions.
    Each pick moves the last element of the pool into the hole. *)
Fixpoint sample_pool {A} (pool : list A) (k : nat) : M (list A) :=
  match k with
  | O => ret []
  | S k' =>
      let* j := randbelow (Py.len pool) in
      let* x := list_getitem pool j in
      let* y := list_getitem pool (Py.len pool - 1) in
      let pool' := take (length pool - 1) (<[Z.to_nat j := y]> pool) in
      let* xs := sample_pool pool' k' in
      ret (x :: xs)
  end.

Definition sample {A} (population : list A) (k : nat) : M (list A) :=
  if Py.len population <? Z.of_nat k then raise Py.ValueError
  else sample_pool population k.

End Random.

(** ** [genetic.py]: class [GeneticAlgorithm] *)

Module GeneticAlgorithm.

(** The attributes of the engine that change during a run.
    [best_fitness = None] stands for [float('-inf')]. *)
Record state := State {
  population : list addr;
  best_individual : option addr;
  best_fitness : option Z;
  current_best_history : list Z
}.

Section Self.
Variable self : data.
Variable population_size : Z.
Variable mutation_rate : float.
Variable generations : Z.

Definition fitness (individual : addr) : M Z :=
  let* d := Heap.load individual in ret (GeneticScore.fitness self d).

Definition mutate (individual : addr) : M addr :=
  let* d := Heap.load individual in
  for_ (Py.keys d) (fun course =>
    let* u := Random.random in
    if PrimFloat.ltb u mutation_rate then
      let* t := Random.choice (times self) in
      let* r := Random.choice (rooms self) in
      Heap.setitem individual course (t, r)
    else ret tt);;
  ret individual.

Definition crossover (parent1 parent2 : addr) : M (addr * addr) :=
  let* child1 := Heap.alloc [] in
  let* child2 := Heap.alloc [] in
  for_ (courses self) (fun course =>
    let* u := Random.random in
    if PrimFloat.ltb u 0.5%float then
      let* v1 := Heap.getitem parent1 course in
      Heap.setitem child1 course v1;;
      let* v2 := Heap.getitem parent2 course in
      Heap.setitem child2 course v2
    else
      let* v2 := Heap.getitem parent2 course in
      Heap.setitem child1 course v2;;
      let* v1 := Heap.getitem parent1 course in
      Heap.setitem child2 course v1);;
  ret (child1, child2).

Definition select_population (population : list addr) (fitness : list Z)
    (num_selected : Z) : M (list addr) :=
  let tournament_size := 3%nat in
  timesM (Py.range_len num_selected)
    (let* competitors := Random.sample (zip population fitness) tournament_size in
     let* best := py_max_by_snd competitors in
     let winner := best.1 in
     ret winner).

Definition create_individual : M addr :=
  let* schedule := Heap.alloc [] in
  for_ (courses self) (fun course =>
    let* t := Random.choice (times self) in
    let* r := Random.choice (rooms self) in
    Heap.setitem schedule course (t, r));;
  ret schedule.

(** [__init__] *)
Definition init : M state :=
  let* population := timesM (Py.range_len population_size) create_individual in
  ret (State population None None []).

(** Lines 31-39 of [run]: score the population and track the best. *)
Definition evaluate (st : state) : M (list Z * state) :=
  let* fitnesses := mapM fitness (population st) in
  let* current_best := py_max fitnesses in
  let history := current_best_history st ++ [current_best] in
  let improved :=
    match best_fitness st with
    | None => true
    | Some b => b <? current_best
    end in
  if improved then
    let* i := py_index fitnesses current_best in
    let* ind := list_getitem (population st) i in
    ret (fitnesses, State (population st) (Some ind) (Some current_best) history)
  else
    ret (fitnesses, State (population st) (best_individual st) (best_fitness st) history).

(** Lines 44-53 of [run]: selection, crossover in pairs, mutation. *)
Definition breed (fitnesses : list Z) (st : state) : M state :=
  let* selected := select_population (population st) fitnesses population_size in
  let* next_generation :=
    foldM (fun next_generation i =>
             let* parent1 := list_getitem selected i in
             let* parent2 := list_getitem selected ((i + 1) mod population_size) in
             let* (child1, child2) := crossover parent1 parent2 in
             ret (next_generation ++ [child1; child2]))
          [] (Py.range_step2 population_size) in
  let* population := mapM mutate next_generation in
  ret (State population (best_individual st) (best_fitness st)
             (current_best_history st)).

(** The [for gen in range(self.generations)] loop of [run]. *)
Fixpoint run_loop (gens : nat) (st : state) : M state :=
  match gens with
  | O => ret st
  | S gens' =>
      let* (fitnesses, st) := evaluate st in
      if decide (best_fitness st = Some 0) then ret st
      else
        let* st := breed fitnesses st in
        run_loop gens' st
  end.

(** [run] returns [self.best_individual]; the model also hands back the
    attributes as they are at that moment. *)
Definition run (st : state) : M (option addr * state) :=
  let* st := run_loop (Py.range_len generations) st in
  ret (best_individual st, st).

End Self.

End GeneticAlgorithm.

(** ** [simulated_annealing.py]: class [SimulatedAnnealing] *)

Module SimulatedAnnealing.

Record state := State {
  current : addr;
  best_individual : option addr;
  best_fitness : option Z;
  fitness_history : list Z
}.

(** [1e-10] as a binary64 value. *)
Definition freeze_floor : float := 0x1.b7cdfd9d7bdbbp-34%float.

Section Self.
Variable self : data.
Variable initial_temperature : float.
Variable cooling_rate : float.
Variable max_iter : Z.

(** The C library's [exp], which [math.exp] calls. *)
Variable exp : float -> float.

Definition fitness (individual : addr) : M Z :=
  let* d := Heap.load individual in ret (AnnealingScore.fitness self d).

Definition create_individual : M addr :=
  let* schedule := Heap.alloc [] in
  for_ (courses self) (fun course =>
    let* t := Random.choice (times self) in
    let* r := Random.choice (rooms self) in
    Heap.setitem schedule course (t, r));;
  ret schedule.

(** [__init__] *)
Definition init : M state :=
  let* current := create_individual in
  ret (State current None None []).

Definition neighbor (individual : addr) : M addr :=
  let* neighbor := Heap.copy individual in
  let* course := Random.choice (courses self) in
  let* new_time := Random.choice (times self) in
  let* new_room := Random.choice (rooms self) in
  Heap.setitem neighbor course (new_time, new_room);;
  ret neighbor.

(** [delta > 0 or random.random() < math.exp(delta / temperature)]: the
    draw comes first, then the quotient, then the exponential. *)
Definition accept (delta : Z) (temperature : float) : M bool :=
  if 0 <? delta then ret true
  else
    let* u := Random.random in
    let* quotient := truediv delta temperature in
    let* probability := Math.exp exp quotient in
    ret (PrimFloat.ltb u probability).

(** The [for i in range(self.max_iter)] loop of [run]; [current],
    [current_fitness] and [temperature] are its local variables. *)
Fixpoint run_loop (iters : nat) (current : addr) (current_fitness : Z)
    (temperature : float) (st : state) : M state :=
  match iters with
  | O => ret st
  | S iters' =>
      let temperature := PrimFloat.mul temperature cooling_rate in
      if PrimFloat.leb temperature freeze_floor then ret st
      else
        let* candidate := neighbor current in
        let* candidate_fitness := fitness candidate in
        let delta := candidate_fitness - current_fitness in
        let* accept := accept delta temperature in
        let current := if accept then candidate else current in
        let current_fitness :=
          if accept then candidate_fitness else current_fitness in
        let improved :=
          match best_fitness st with
          | None => true
          | Some b => b <? current_fitness
          end in
        let st :=
          if improved then State (SimulatedAnnealing.current st) (Some current)
                     (Some current_fitness) (fitness_history st)
          else st in
        let st := State (SimulatedAnnealing.current st) (best_individual st)
                        (best_fitness st)
                        (fitness_history st ++ [current_fitness]) in
        run_loop iters' current current_fitness temperature st
  end.

Definition run (st : state) : M (option addr * state) :=
  let current := SimulatedAnnealing.current st in
  let* current_fitness := fitness current in
  let st := State (SimulatedAnnealing.current st) (Some current)
                  (Some current_fitness) (fitness_history st) in
  let temperature := initial_temperature in
  let* st := run_loop (Py.range_len max_iter) current current_fitness
                      temperature st in
  ret (best_individual st, st).

End Self.

End SimulatedAnnealing.

(** ** Sample instances *)

Module Sample.

(** Two courses of one department and one teacher, a third without
    attributes, one conflict group. *)
Definition details3 : Py.dict course details :=
  [("A", Details (Some "CS") (Some 30) (Some "X"));
   ("B", Details (Some "CS") (Some 10) (Some "X"));
   ("C", Details None None (Some ""))].

Definition uni : data :=
  Data details3 ["A"; "B"; "C"] [("R1", 20); ("R2", 40)] ["R1"; "R2"]
       ["t1"; "t2"] [["A"; "C"]].

(** One course in a room that has no entry in [room_capacities]. *)
Definition unlisted_room : data :=
  Data [("A", Details None (Some 30) None)] ["A"] [] ["R9"] ["t1"] [].

(** Two courses, one room, one time slot: they always collide. *)
Definition crowded : data :=
  Data [] ["A"; "B"] [("R1", 50)] ["R1"] ["t1"] [].

(** One course, one room, one time slot: every schedule is feasible. *)
Definition trivial : data :=
  Data [("A", Details (Some "CS") (Some 10) (Some "X"))] ["A"] [("R1", 50)]
       ["R1"] ["t1"] [].

(** A course and a time slot, but no room. *)
Definition no_rooms : data := Data [] ["A"] [] [] ["t1"] [].

(** Rooms and time slots, but nothing to schedule. *)
Definition no_courses : data := Data [] [] [("R1", 50)] ["R1"] ["t1"] [].

(** One course whose enrollment is beyond every float, a room that is too
    small for it and a room that holds it. *)
Definition huge : data :=
  Data [("A", Details None (Some (10 ^ 400)) None)] ["A"]
       [("R1", 50); ("R2", 10 ^ 400)] ["R1"; "R2"] ["t1"] [].

Definition numbers (n : nat) : Z :=
  (Z.of_nat n * Z.of_nat n * 7919 + Z.of_nat n * 104729 + 13) mod 1000003.

Definition fresh : world := World [] numbers 0.

End Sample.

(** ** Specifications of runs *)

(** Whether a specification also says that the computation returns. *)
Inductive mode := Total | Partial.

(** [triple t m w Q]: when [m] returns from [w], [Q] holds of its result and
    of the world it leaves; with [t = Total], [m] moreover does return. *)
Definition triple (t : mode) {A} (m : M A) (w : world)
    (Q : A -> world -> Prop) : Prop :=
  match m w with
  | Ok (a, w') => Q a w'
  | Raise _ => t = Partial
  end.

Abbreviation wp := (triple Total).
Abbreviation wlp := (triple Partial).

(** Every dictionary that exists in [w] is unchanged in [w']. *)
Definition preserved (w w' : world) : Prop :=
  forall a d, heap w !! a = Some d -> heap w' !! a = Some d.

(** The schedule at [a] assigns every course of the instance. *)
Definition has_courses (self : data) (w : world) (a : addr) : Prop :=
  exists d, heap w !! a = Some d /\ forall c, c ∈ courses self -> is_Some (Py.get c d).

(** The recorded best: either nothing is recorded yet, or the recorded fitness
    is the fitness of the schedule the recorded address holds now. *)
Definition best_recorded (score : schedule -> Z) (w : world)
    (best_individual : option addr) (best_fitness : option Z) : Prop :=
  match best_individual, best_fitness with
  | Some a, Some f => exists d, heap w !! a = Some d /\ score d = f
  | None, None => True
  | _, _ => False
  end.

(** What [breed] needs in order not to raise: rooms and time slots to draw
    from, three schedules to sample a tournament from, a fitness for each,
    and parents that assign every course. *)
Definition breed_ready (self : data) (fitnesses : list Z)
    (st : GeneticAlgorithm.state) (w : world) : Prop :=
  times self <> [] /\ rooms self <> []
  /\ (3 <= length (GeneticAlgorithm.population st))%nat
  /\ length fitnesses = length (GeneticAlgorithm.population st)
  /\ Forall (has_courses self w) (GeneticAlgorithm.population st).

(** What the generation loop needs in order not to raise. *)
Definition loop_ready (self : data) (population_size : Z)
    (st : GeneticAlgorithm.state) (w : world) : Prop :=
  times self <> [] /\ rooms self <> [] /\ 3 <= population_size
  /\ population_size <= Py.len (GeneticAlgorithm.population st)
  /\ Forall (has_courses self w) (GeneticAlgorithm.population st).

(** For course [c], children [e1] and [e2] hold the assignments of parents
    [d1] and [d2], either as they are or swapped. *)
Definition mixes (d1 d2 e1 e2 : schedule) (c : course) : Prop :=
  (Py.get c e1 = Py.get c d1 /\ Py.get c e2 = Py.get c d2)
  \/ (Py.get c e1 = Py.get c d2 /\ Py.get c e2 = Py.get c d1).

(** The score of the schedule at address [a]. *)
Definition fitness_at (score : schedule -> Z) (w : world) (a : addr) : Z :=
  score (default [] (heap w !! a)).

(** ** Sample states *)

Module SampleState.

(** Three copies of the only schedule of [Sample.trivial]. *)
Definition lone : schedule := [("A", ("t1", "R1"))].
Definition trivial_world : world := World [lone; lone; lone] Sample.numbers 0.
Definition trivial_state : GeneticAlgorithm.state :=
  GeneticAlgorithm.State [0; 1; 2]%nat None None [].

(** Two different schedules of [Sample.uni]. *)
Definition first : schedule :=
  [("A", ("t1", "R1")); ("B", ("t1", "R2")); ("C", ("t2", "R1"))].
Definition second : schedule :=
  [("A", ("t2", "R2")); ("B", ("t2", "R1")); ("C", ("t1", "R2"))].
Definition uni_world : world := World [first; second] Sample.numbers 0.

(** Two stand-ins for the C library's [exp]: one that makes every move that
    does not improve a coin of probability 0.25, and one that is exact at
    zero. *)
Definition coin (x : float) : float := 0.25%float.
Definition step (x : float) : float :=
  if PrimFloat.ltb x 0 then 0.25%float else 1%float.


End SampleState.

(** The value a computation returns, [None] when it raises. *)
Definition value {A} (r : result (A * world)) : option A :=
  match r with
  | Ok (a, _) => Some a
  | Raise _ => None
  end.

Ltac courses_listed :=
  let c := fresh "c" in
  let Hc := fresh "Hc" in
  intros c Hc;
  repeat (apply elem_of_cons in Hc as [->|Hc]; [eexists; reflexivity|]);
  by apply elem_of_nil in Hc.

(** ** Quantities the statements about penalties are written with *)

(** The sum of [f] over [l]. *)
Definition total {A} (f : A -> Z) (l : list A) : Z :=
  foldr (fun x s => f x + s) 0 l.

(** How many entries of [l] repeat an earlier one. *)
Definition clashes {A} `{EqDecision A} (l : list A) : Z :=
  Py.len l - Py.len (Py.set_of l).

(** The time slots of the courses of [group] that the schedule assigns, one
    per occurrence in [group]. *)
Definition scheduled_times (individual : schedule) (group : list course) : list time :=
  omap (fun course => fst <$> Py.get course individual) group.

(** [course_details.get(course, {}).get('students', 0)] *)
Definition enrollment (course_details : Py.dict course details) (c : course) : Z :=
  match Py.get c course_details with
  | Some d => default 0 (students d)
  | None => 0
  end.

(** [room_capacities.get(r, 0)] *)
Definition capacity (room_capacities : Py.dict room Z) (r : room) : Z :=
  default 0 (Py.get r room_capacities).

(** The courses of the table whose attribute [attr] is [key], in table order. *)
Definition members (attr : details -> option string) (key : string)
    (course_details : Py.dict course details) : list course :=
  (filter (fun e => Py.truthy (attr e.2) = Some key) course_details).*1.

(** The distinct values of attribute [attr] in the table. *)
Definition attribute_values (attr : details -> option string)
    (course_details : Py.dict course details) : list string :=
  Py.set_of (omap (fun e => Py.truthy (attr e.2)) course_details).

(** The grouping loop of constraints 1, 3 and 4: every item that has a key is
    appended to the list of its key. *)
Definition grouping {K A B} `{EqDecision K} (key : B -> option K) (val : B -> A)
    (l : list B) (acc : Py.dict K (list A)) : Py.dict K (list A) :=
  fold_left (fun acc b =>
               match key b with
               | Some k => Py.setdefault_append k (val b) acc
               | None => acc
               end) l acc.

(** A schedule that breaks none of the five rules. *)
Definition feasible (self : data) (individual : schedule) : Prop :=
  NoDup (Py.values individual)
  /\ (forall c t r, (c, (t, r)) ∈ individual ->
        enrollment (course_details self) c <= capacity (room_capacities self) r)
  /\ (forall dept,
        NoDup (scheduled_times individual
                 (members department dept (course_details self))))
  /\ (forall teacher,
        NoDup (scheduled_times individual
                 (members instructor teacher (course_details self))))
  /\ (forall group, group ∈ course_conflicts self ->
        NoDup (scheduled_times individual group)).

(** ** Schedules of an instance *)

(** A dictionary with every key once, whose keys are courses of the instance
    and whose values are drawn from its time slots and rooms. *)
Definition within (self : data) (d : schedule) : Prop :=
  NoDup (Py.keys d)
  /\ forall c t r, (c, (t, r)) ∈ d ->
       c ∈ courses self /\ t ∈ times self /\ r ∈ rooms self.

(** Every dictionary of the heap is one. *)
Definition within_heap (self : data) (w : world) : Prop :=
  Forall (within self) (heap w).

(** A complete schedule: moreover every course of the instance is assigned. *)
Definition valid_schedule (self : data) (d : schedule) : Prop :=
  within self d /\ forall c, c ∈ courses self -> c ∈ Py.keys d.

Definition valid_at (self : data) (w : world) (a : addr) : Prop :=
  exists d, heap w !! a = Some d /\ valid_schedule self d.

(** [max(l)], with [None] for the empty list. *)
Definition py_max_opt (l : list Z) : option Z :=
  match l with
  | [] => None
  | x :: l' => Some (fold_left Z.max l' x)
  end.

(** How many rounds of the annealing loop run to their end: the loop is left
    at the first round whose cooled temperature is at or below the floor. *)
Fixpoint steps_before_freeze (temperature cooling_rate : float) (iters : nat) : nat :=
  match iters with
  | O => O
  | S iters' =>
      let temperature := PrimFloat.mul temperature cooling_rate in
      if PrimFloat.leb temperature SimulatedAnnealing.freeze_floor then O
      else S (steps_before_freeze temperature cooling_rate iters')
  end.

(** ** What a run of the annealing engine needs in order to return *)

(** What the runs need of the C library's [exp]: for an argument that is not
    positive, the result is a number unless the argument is not one, and it
    is not infinite. *)
Definition exp_regular (exp : float -> float) : Prop :=
  forall x, PrimFloat.ltb 0 x = false ->
    (PrimFloat.is_nan (exp x) = true -> PrimFloat.is_nan x = true)
    /\ PrimFloat.is_infinity (exp x) = false.

(** The seats that are missing when every course is tried in every room. *)
Definition missing_seats (self : data) : Z :=
  total (fun c =>
           total (fun r => Z.max 0 (enrollment (course_details self) c
                                    - capacity (room_capacities self) r))
                 (rooms self))
        (courses self).

(** A bound on the cost of any schedule of the instance: one clash per course,
    the missing seats, one clash per entry of the table for departments and
    for instructors, one clash per member of a conflict group. *)
Definition cost_bound (self : data) : Z :=
  1000 * Py.len (courses self)
  + 1000 * missing_seats self
  + 500 * Py.len (course_details self)
  + 1000 * Py.len (course_details self)
  + 1000 * total Py.len (course_conflicts self).

(** Binary64 values of sign [s], or not a number; values that are not
    positive; values that are positive or not a number. *)
Definition SFsigned (s : bool) (x : SpecFloat.spec_float) : Prop :=
  match x with
  | SpecFloat.S754_zero s' | SpecFloat.S754_infinity s'
  | SpecFloat.S754_finite s' _ _ => s' = s
  | SpecFloat.S754_nan => True
  end.

Definition SFnonpos (x : SpecFloat.spec_float) : Prop :=
  match x with
  | SpecFloat.S754_zero _ | SpecFloat.S754_nan => True
  | SpecFloat.S754_infinity s | SpecFloat.S754_finite s _ _ => s = true
  end.

Definition SFabove (x : SpecFloat.spec_float) : Prop :=
  match x with
  | SpecFloat.S754_finite false _ _ | SpecFloat.S754_infinity false
  | SpecFloat.S754_nan => True
  | _ => False
  end.

(** ** [print_best_schedule], the same method in both classes *)

Module Report.



(** [s * n] *)
Fixpoint times (s : string) (n : nat) : string :=
  match n with
  | O => ""
  | S n' => s +:+ times s n'
  end.

(** [f"{s:<width}"]: padded with spaces on the right, never cut. *)
Definition ljust (width : nat) (s : string) : string :=
  s +:+ times " " (width - String.length s).

(** [str(n)] for an [int]. *)
Definition str (n : Z) : string := pretty n.

(** The f-string of the header and of every row. *)
Definition line (course instructor time room room_cap course_cap : string) : string :=
  ljust 10 course +:+ " " +:+ ljust 25 instructor +:+ " " +:+ ljust 6 time
  +:+ " " +:+ ljust 5 room +:+ " " +:+ ljust 10 room_cap +:+ " " +:+ course_cap.









(** The text of the row of an entry whose lookups succeed. *)
Definition row (self : data) (e : course * (time * room)) : string :=
  line e.1
       (default "" (Py.get e.1 (course_details self) ≫= instructor))
       e.2.1 e.2.2
       (str (capacity (room_capacities self) e.2.2))
       (str (enrollment (course_details self) e.1)).

End Report.



(** * Properties *)

(** ** The constraint model *)

Section Penalties.

Implicit Types (individual : schedule) (cc acc : Z).

Lemma clash_fold_nonneg (times_assigned l : list time) cc :
  0 <= cc ->
  0 <= fold_left (fun cc t =>
                    let count := Py.count t times_assigned in
                    if 1 <? count then cc + (count - 1) else cc) l cc.
Proof.
  revert cc. induction l as [|t l IH]; intros cc Hcc; simpl; [done|].
  apply IH. destruct (Z.ltb_spec 1 (Py.count t times_assigned)); lia.
Qed.

Lemma group_fold_nonneg {G} individual (f : G -> list course) (l : list G) cc :
  0 <= cc ->
  0 <= fold_left (fun cc g =>
                    let times_assigned :=
                      omap (fun course => fst <$> Py.get course individual) (f g) in
                    fold_left (fun cc t =>
                                 let count := Py.count t times_assigned in
                                 if 1 <? count then cc + (count - 1) else cc)
                              (Py.set_of times_assigned) cc) l cc.
Proof.
  revert cc. induction l as [|g l IH]; intros cc Hcc; simpl; [done|].
  apply IH. by apply clash_fold_nonneg.
Qed.

Lemma crowd_fold_nonneg {A} (l : list (list A)) cc :
  0 <= cc ->
  0 <= fold_left (fun cc course_list =>
                    if 1 <? Py.len course_list
                    then cc + (Py.len course_list - 1) else cc) l cc.
Proof.
  revert cc. induction l as [|x l IH]; intros cc Hcc; simpl; [done|].
  apply IH. destruct (Z.ltb_spec 1 (Py.len x)); lia.
Qed.

Lemma constraint1_nonneg individual : 0 <= GeneticScore.constraint1 individual.
Proof.
  unfold GeneticScore.constraint1. cbv zeta.
  apply Z.mul_nonneg_nonneg; [|by vm_compute].
  by apply crowd_fold_nonneg.
Qed.

Lemma capacity_fold_nonneg individual cd rc acc :
  0 <= acc ->
  0 <= fold_left (fun penalty '(course, (t, r)) =>
                    let enrollment :=
                      match Py.get course cd with
                      | Some d => default 0 (students d)
                      | None => 0
                      end in
                    let room_cap := default 0 (Py.get r rc) in
                    if room_cap <? enrollment
                    then penalty + (enrollment - room_cap) * GeneticScore.PENALTY 1
                    else penalty) individual acc.
Proof.
  revert acc. induction individual as [|[c [t r]] l IH]; intros acc Hacc; simpl; [done|].
  apply IH. change (GeneticScore.PENALTY 1) with 1000.
  match goal with |- context [?a <? ?b] => destruct (Z.ltb_spec a b) end; lia.
Qed.

Lemma constraint2_nonneg individual cd rc :
  0 <= GeneticScore.constraint2 individual cd rc.
Proof. by apply capacity_fold_nonneg. Qed.

Lemma fold_left_pointwise {A B} (f g : A -> B -> A) (l : list B) (a : A) :
  (forall a x, f a x = g a x) -> fold_left f l a = fold_left g l a.
Proof.
  intros Hfg. revert a. induction l as [|x l IH]; intros a; simpl; [done|].
  by rewrite Hfg, IH.
Qed.

Lemma keyed_group_fold_nonneg {D} individual (l : list (D * list course)) cc :
  0 <= cc ->
  0 <= fold_left (fun cc '(dept, courses_in_dept) =>
                    let times_assigned :=
                      omap (fun course => fst <$> Py.get course individual)
                           courses_in_dept in
                    fold_left (fun cc t =>
                                 let count := Py.count t times_assigned in
                                 if 1 <? count then cc + (count - 1) else cc)
                              (Py.set_of times_assigned) cc) l cc.
Proof.
  intros Hcc.
  erewrite fold_left_pointwise;
    [apply (group_fold_nonneg individual (fun g : D * list course => g.2) l cc Hcc)|].
  by intros a [d cs].
Qed.

Lemma constraint3_nonneg individual cd : 0 <= GeneticScore.constraint3 individual cd.
Proof.
  unfold GeneticScore.constraint3. cbv zeta.
  apply Z.mul_nonneg_nonneg; [|by vm_compute].
  by apply (keyed_group_fold_nonneg individual).
Qed.

Lemma constraint4_nonneg individual cd : 0 <= GeneticScore.constraint4 individual cd.
Proof.
  unfold GeneticScore.constraint4. cbv zeta.
  apply Z.mul_nonneg_nonneg; [|by vm_compute].
  by apply (keyed_group_fold_nonneg individual).
Qed.

Lemma constraint5_nonneg individual groups :
  0 <= GeneticScore.constraint5 individual groups.
Proof.
  unfold GeneticScore.constraint5. cbv zeta.
  apply Z.mul_nonneg_nonneg; [|by vm_compute].
  by apply (group_fold_nonneg individual (fun g : list course => g)).
Qed.

(** The two engines carry the same five functions. *)
Lemma annealing_constraint1 individual :
  AnnealingScore.constraint1 individual = GeneticScore.constraint1 individual.
Proof. reflexivity. Qed.

Lemma annealing_constraint2 self individual :
  AnnealingScore.constraint2 self individual
  = GeneticScore.constraint2 individual (course_details self) (room_capacities self).
Proof. reflexivity. Qed.

Lemma annealing_constraint3 self individual :
  AnnealingScore.constraint3 self individual
  = GeneticScore.constraint3 individual (course_details self).
Proof. reflexivity. Qed.

Lemma annealing_constraint4 self individual :
  AnnealingScore.constraint4 self individual
  = GeneticScore.constraint4 individual (course_details self).
Proof. reflexivity. Qed.

Lemma annealing_constraint5 self individual :
  AnnealingScore.constraint5 self individual
  = GeneticScore.constraint5 individual (course_conflicts self).
Proof. reflexivity. Qed.

Lemma genetic_fitness_sum self individual :
  GeneticScore.fitness self individual
  = - (GeneticScore.constraint1 individual
       + GeneticScore.constraint2 individual (course_details self) (room_capacities self)
       + GeneticScore.constraint3 individual (course_details self)
       + GeneticScore.constraint4 individual (course_details self)
       + GeneticScore.constraint5 individual (course_conflicts self)).
Proof. unfold GeneticScore.fitness. cbv zeta. f_equal. Qed.

Lemma annealing_fitness_sum self individual :
  AnnealingScore.fitness self individual
  = - (AnnealingScore.constraint1 individual
       + AnnealingScore.constraint2 self individual
       + AnnealingScore.constraint3 self individual
       + AnnealingScore.constraint4 self individual
       + AnnealingScore.constraint5 self individual).
Proof. unfold AnnealingScore.fitness. cbv zeta. f_equal. Qed.

Lemma fitness_nonpos self individual : GeneticScore.fitness self individual <= 0.
Proof.
  rewrite genetic_fitness_sum.
  pose proof (constraint1_nonneg individual).
  pose proof (constraint2_nonneg individual (course_details self) (room_capacities self)).
  pose proof (constraint3_nonneg individual (course_details self)).
  pose proof (constraint4_nonneg individual (course_details self)).
  pose proof (constraint5_nonneg individual (course_conflicts self)).
  lia.
Qed.

End Penalties.

(** C1: on one problem instance the two engines score every schedule alike:
    each fitness is minus the sum of its five penalty terms, the weights are
    [1000, 1000, 500, 1000, 1000] in both, and the two results are equal, for
    a schedule given as a value and for one held at an address [a]. *)
Theorem fitness_engines_agree (self : data) (individual : schedule) :
  GeneticScore.PENALTIES = [1000; 1000; 500; 1000; 1000]
  /\ AnnealingScore.PENALTIES = [1000; 1000; 500; 1000; 1000]
  /\ GeneticScore.fitness self individual
     = - (GeneticScore.constraint1 individual
          + GeneticScore.constraint2 individual (course_details self) (room_capacities self)
          + GeneticScore.constraint3 individual (course_details self)
          + GeneticScore.constraint4 individual (course_details self)
          + GeneticScore.constraint5 individual (course_conflicts self))
  /\ AnnealingScore.fitness self individual
     = - (AnnealingScore.constraint1 individual
          + AnnealingScore.constraint2 self individual
          + AnnealingScore.constraint3 self individual
          + AnnealingScore.constraint4 self individual
          + AnnealingScore.constraint5 self individual)
  /\ GeneticScore.fitness self individual = AnnealingScore.fitness self individual
  /\ forall (a : addr) (w : world),
       GeneticAlgorithm.fitness self a w = SimulatedAnnealing.fitness self a w.
Proof.
  split; [reflexivity|]. split; [reflexivity|].
  split; [apply genetic_fitness_sum|]. split; [apply annealing_fitness_sum|].
  split; reflexivity.
Qed.

(** C2: the fitness of any schedule on any instance is at most 0, and it is 0
    exactly when each of the five constraint functions returns 0; this holds
    for the scoring of both engines. *)
Theorem fitness_zero_iff_no_penalty (self : data) (individual : schedule) :
  (GeneticScore.fitness self individual <= 0
   /\ (GeneticScore.fitness self individual = 0 <->
       GeneticScore.constraint1 individual = 0
       /\ GeneticScore.constraint2 individual (course_details self) (room_capacities self) = 0
       /\ GeneticScore.constraint3 individual (course_details self) = 0
       /\ GeneticScore.constraint4 individual (course_details self) = 0
       /\ GeneticScore.constraint5 individual (course_conflicts self) = 0))
  /\ (AnnealingScore.fitness self individual <= 0
      /\ (AnnealingScore.fitness self individual = 0 <->
          AnnealingScore.constraint1 individual = 0
          /\ AnnealingScore.constraint2 self individual = 0
          /\ AnnealingScore.constraint3 self individual = 0
          /\ AnnealingScore.constraint4 self individual = 0
          /\ AnnealingScore.constraint5 self individual = 0)).
Proof.
  change (AnnealingScore.fitness self individual)
    with (GeneticScore.fitness self individual).
  change (AnnealingScore.constraint1 individual)
    with (GeneticScore.constraint1 individual).
  change (AnnealingScore.constraint2 self individual)
    with (GeneticScore.constraint2 individual (course_details self) (room_capacities self)).
  change (AnnealingScore.constraint3 self individual)
    with (GeneticScore.constraint3 individual (course_details self)).
  change (AnnealingScore.constraint4 self individual)
    with (GeneticScore.constraint4 individual (course_details self)).
  change (AnnealingScore.constraint5 self individual)
    with (GeneticScore.constraint5 individual (course_conflicts self)).
  rewrite genetic_fitness_sum.
  pose proof (constraint1_nonneg individual).
  pose proof (constraint2_nonneg individual (course_details self) (room_capacities self)).
  pose proof (constraint3_nonneg individual (course_details self)).
  pose proof (constraint4_nonneg individual (course_details self)).
  pose proof (constraint5_nonneg individual (course_conflicts self)).
  lia.
Qed.

(** ** Dictionaries *)

Section DictFacts.
Context {K V : Type} `{EqDecision K}.
Implicit Types (k : K) (v : V) (d : Py.dict K V).

Lemma get_set_eq k v d : Py.get k (Py.set k v d) = Some v.
Proof.
  induction d as [|[k' v'] d IH]; simpl.
  - by rewrite decide_True.
  - destruct (decide (k = k')) as [->|Hne]; simpl.
    + by rewrite decide_True.
    + by rewrite decide_False.
Qed.

Lemma get_set_ne k k' v d : k <> k' -> Py.get k' (Py.set k v d) = Py.get k' d.
Proof.
  intros Hne. induction d as [|[k0 v0] d IH]; simpl.
  - by rewrite decide_False.
  - destruct (decide (k = k0)) as [->|Hk]; simpl.
    + by rewrite !(decide_False (P := k' = k0)).
    + by rewrite IH.
Qed.

Lemma set_fresh k v d : Py.get k d = None -> Py.set k v d = d ++ [(k, v)].
Proof.
  induction d as [|[k' v'] d IH]; simpl; [done|].
  destruct (decide (k = k')); [done|]. intros Hd. by rewrite IH.
Qed.

Lemma keys_set k v d : is_Some (Py.get k d) -> Py.keys (Py.set k v d) = Py.keys d.
Proof.
  unfold Py.keys. induction d as [|[k' v'] d IH]; simpl.
  - by intros [? ?].
  - destruct (decide (k = k')); [done|]. intros Hd.
    rewrite !fmap_cons. f_equal. by apply IH.
Qed.

Lemma get_is_Some k d : is_Some (Py.get k d) <-> k ∈ Py.keys d.
Proof.
  unfold Py.keys. induction d as [|[k' v'] d IH]; simpl.
  - split; [by intros [? ?]|by intros ?%elem_of_nil].
  - rewrite elem_of_cons. destruct (decide (k = k')) as [->|Hne].
    + split; [by left|by eauto].
    + rewrite IH. split; [by right|]. by intros [?|?].
Qed.

Lemma keys_set_elem k k' v d : k' ∈ Py.keys (Py.set k v d) <-> k' = k \/ k' ∈ Py.keys d.
Proof.
  rewrite <-!get_is_Some. destruct (decide (k = k')) as [->|Hne].
  - rewrite get_set_eq. split; [by left|by eauto].
  - rewrite get_set_ne by done. split; [by right|]. by intros [?|?].
Qed.
End DictFacts.

Section MissingLookups.

Implicit Types (individual : schedule) (cd : Py.dict course details).

Lemma fold_left_pointwise_in {A B} (f g : A -> B -> A) (l : list B) (a : A) :
  (forall a x, x ∈ l -> f a x = g a x) -> fold_left f l a = fold_left g l a.
Proof.
  revert a. induction l as [|x l IH]; intros a Hfg; simpl; [done|].
  rewrite Hfg by apply list_elem_of_here.
  apply IH. intros a' y Hy. apply Hfg. by apply list_elem_of_further.
Qed.

Lemma omap_pointwise_in {A B} (f g : A -> option B) (l : list A) :
  (forall x, x ∈ l -> f x = g x) -> omap f l = omap g l.
Proof.
  induction l as [|x l IH]; intros Hfg; [done|].
  csimpl. rewrite Hfg by apply list_elem_of_here.
  rewrite IH; [done|]. intros y Hy. apply Hfg. by apply list_elem_of_further.
Qed.

Lemma setdefault_append_members {G A} `{EqDecision G} (P : A -> Prop)
    (g : G) (x : A) (d : Py.dict G (list A)) :
  P x -> Forall (fun e => Forall P e.2) d ->
  Forall (fun e => Forall P e.2) (Py.setdefault_append g x d).
Proof.
  intros Hx. induction 1 as [|[g' l] d Hl Hd IH]; simpl.
  - repeat constructor. done.
  - destruct (decide (g = g')); constructor; simpl in *; try done.
    apply Forall_app. split; [done|]. by repeat constructor.
Qed.

(** Every course that is grouped under an attribute is a key of the table. *)
Lemma grouped_courses_listed (attr : details -> option string) cd0 cd
    (acc : Py.dict string (list course)) :
  (forall c, c ∈ Py.keys cd -> c ∈ Py.keys cd0) ->
  Forall (fun e => Forall (fun c => c ∈ Py.keys cd0) e.2) acc ->
  Forall (fun e => Forall (fun c => c ∈ Py.keys cd0) e.2)
         (fold_left (fun dc '(course, details) =>
                       match Py.truthy (attr details) with
                       | Some key => Py.setdefault_append key course dc
                       | None => dc
                       end) cd acc).
Proof.
  revert acc. induction cd as [|[c det] cd IH]; intros acc Hsub Hacc; simpl; [done|].
  apply IH.
  - intros c' Hc'. apply Hsub. unfold Py.keys in *. simpl. by apply list_elem_of_further.
  - destruct (Py.truthy (attr det)); [|done].
    apply setdefault_append_members; [|done].
    apply Hsub. unfold Py.keys. simpl. apply list_elem_of_here.
Qed.

(** The clash count of grouped courses does not look at a course outside
    the groups. *)
Lemma clashes_ignore_unlisted {G} individual (c : course) v
    (groups : list (G * list course)) cc :
  Forall (fun e => Forall (fun c' => c' <> c) e.2) groups ->
  fold_left (fun cc '(_, members) =>
               let times_assigned :=
                 omap (fun course => fst <$> Py.get course (Py.set c v individual))
                      members in
               fold_left (fun cc t =>
                            let count := Py.count t times_assigned in
                            if 1 <? count then cc + (count - 1) else cc)
                         (Py.set_of times_assigned) cc) groups cc
  = fold_left (fun cc '(_, members) =>
                 let times_assigned :=
                   omap (fun course => fst <$> Py.get course individual) members in
                 fold_left (fun cc t =>
                              let count := Py.count t times_assigned in
                              if 1 <? count then cc + (count - 1) else cc)
                           (Py.set_of times_assigned) cc) groups cc.
Proof.
  intros Hgroups. apply fold_left_pointwise_in. intros a [g members] Hin.
  rewrite Forall_forall in Hgroups. specialize (Hgroups _ Hin). simpl in Hgroups.
  cbv zeta.
  rewrite (omap_pointwise_in
             (fun course => fst <$> Py.get course (Py.set c v individual))
             (fun course => fst <$> Py.get course individual)); [done|].
  intros x Hx. rewrite Forall_forall in Hgroups.
  rewrite get_set_ne; [done|]. intros ->. by apply (Hgroups x).
Qed.

Lemma unlisted_not_grouped (attr : details -> option string) cd (c : course) :
  Py.get c cd = None ->
  Forall (fun e => Forall (fun c' => c' <> c) e.2)
         (fold_left (fun dc '(course, details) =>
                       match Py.truthy (attr details) with
                       | Some key => Py.setdefault_append key course dc
                       | None => dc
                       end) cd ([] : Py.dict string (list course))).
Proof.
  intros Hc.
  eapply Forall_impl; [apply (grouped_courses_listed attr cd cd []); [done|constructor]|].
  intros [g l] Hl. simpl in *. eapply Forall_impl; [exact Hl|].
  intros c' Hc' ->. apply get_is_Some in Hc'. rewrite Hc in Hc'. by destruct Hc'.
Qed.

Lemma constraint3_unlisted individual cd c v :
  Py.get c cd = None ->
  GeneticScore.constraint3 (Py.set c v individual) cd
  = GeneticScore.constraint3 individual cd.
Proof.
  intros Hc. unfold GeneticScore.constraint3. cbv zeta. f_equal.
  apply clashes_ignore_unlisted. by apply (unlisted_not_grouped department).
Qed.

Lemma constraint4_unlisted individual cd c v :
  Py.get c cd = None ->
  GeneticScore.constraint4 (Py.set c v individual) cd
  = GeneticScore.constraint4 individual cd.
Proof.
  intros Hc. unfold GeneticScore.constraint4. cbv zeta. f_equal.
  apply clashes_ignore_unlisted. by apply (unlisted_not_grouped instructor).
Qed.

(** Scheduling one more course adds its own capacity term. *)
Lemma constraint2_new_course individual cd rc c t r :
  Py.get c individual = None ->
  GeneticScore.constraint2 (Py.set c (t, r) individual) cd rc
  = GeneticScore.constraint2 individual cd rc
    + (let enrollment :=
         match Py.get c cd with Some d => default 0 (students d) | None => 0 end in
       let room_cap := default 0 (Py.get r rc) in
       if room_cap <? enrollment then (enrollment - room_cap) * 1000 else 0).
Proof.
  intros Hc. rewrite set_fresh by done. unfold GeneticScore.constraint2.
  rewrite fold_left_app. simpl. change (GeneticScore.PENALTY 1) with 1000.
  match goal with |- context [?a <? ?b] => destruct (a <? b) end; lia.
Qed.

End MissingLookups.

(** C3 (as stated, refuted): a room without an entry in [room_capacities]
    gets capacity 0, so the course assigned to it is charged its whole
    enrollment: 30 students cost 30000 in both engines. *)
Lemma absent_room_is_penalised :
  Py.get "R9" (room_capacities Sample.unlisted_room) = None
  /\ GeneticScore.constraint2 [("A", ("t1", "R9"))]
       (course_details Sample.unlisted_room) (room_capacities Sample.unlisted_room)
     = 30000
  /\ AnnealingScore.constraint2 Sample.unlisted_room [("A", ("t1", "R9"))] = 30000
  /\ GeneticScore.fitness Sample.unlisted_room [("A", ("t1", "R9"))] = -30000
  /\ AnnealingScore.fitness Sample.unlisted_room [("A", ("t1", "R9"))] = -30000.
Proof. repeat split; vm_compute; reflexivity. Qed.

(** C3 (amended): scheduling a course [c] that is not yet in the schedule.
    If [c] has no entry in [course_details] it counts as enrollment 0 without
    department or instructor: constraints 3 and 4 do not change, and
    constraint 2 does not change when the capacity of its room (0 when the
    room has no entry) is not negative.  If the room has no entry in
    [room_capacities] it counts as capacity 0: constraint 2 grows by 1000
    times the enrollment of [c] when that is positive.  Both engines. *)
Theorem missing_lookup_defaults (self : data) (individual : schedule)
    (c : course) (t : time) (r : room) :
  Py.get c individual = None ->
  let enrollment :=
    match Py.get c (course_details self) with
    | Some d => default 0 (students d)
    | None => 0
    end in
  (Py.get c (course_details self) = None ->
   (0 <= default 0 (Py.get r (room_capacities self)) ->
    GeneticScore.constraint2 (Py.set c (t, r) individual)
      (course_details self) (room_capacities self)
    = GeneticScore.constraint2 individual (course_details self) (room_capacities self)
    /\ AnnealingScore.constraint2 self (Py.set c (t, r) individual)
       = AnnealingScore.constraint2 self individual)
   /\ GeneticScore.constraint3 (Py.set c (t, r) individual) (course_details self)
      = GeneticScore.constraint3 individual (course_details self)
   /\ AnnealingScore.constraint3 self (Py.set c (t, r) individual)
      = AnnealingScore.constraint3 self individual
   /\ GeneticScore.constraint4 (Py.set c (t, r) individual) (course_details self)
      = GeneticScore.constraint4 individual (course_details self)
   /\ AnnealingScore.constraint4 self (Py.set c (t, r) individual)
      = AnnealingScore.constraint4 self individual)
  /\ (Py.get r (room_capacities self) = None ->
      GeneticScore.constraint2 (Py.set c (t, r) individual)
        (course_details self) (room_capacities self)
      = GeneticScore.constraint2 individual (course_details self) (room_capacities self)
        + 1000 * Z.max 0 enrollment
      /\ AnnealingScore.constraint2 self (Py.set c (t, r) individual)
         = AnnealingScore.constraint2 self individual + 1000 * Z.max 0 enrollment).
Proof.
  intros Hnew enrollment.
  change (AnnealingScore.constraint2 self)
    with (fun i => GeneticScore.constraint2 i (course_details self) (room_capacities self)).
  change (AnnealingScore.constraint3 self)
    with (fun i => GeneticScore.constraint3 i (course_details self)).
  change (AnnealingScore.constraint4 self)
    with (fun i => GeneticScore.constraint4 i (course_details self)).
  cbv beta.
  pose proof (constraint2_new_course individual (course_details self)
                (room_capacities self) c t r Hnew) as H2.
  cbv zeta in H2. fold enrollment in H2.
  split.
  - intros Hc. split; [|by rewrite constraint3_unlisted, constraint4_unlisted].
    intros Hcap. rewrite H2. subst enrollment. rewrite Hc.
    match goal with |- context [?a <? ?b] => destruct (Z.ltb_spec a b) end; lia.
  - intros Hr. rewrite H2, Hr. simpl.
    match goal with |- context [?a <? ?b] => destruct (Z.ltb_spec a b) end; lia.
Qed.

Lemma missing_lookup_defaults_witness :
  GeneticScore.constraint3 (Py.set "A" ("t1", "R7") []) (course_details Sample.crowded)
  = GeneticScore.constraint3 [] (course_details Sample.crowded)
  /\ GeneticScore.constraint2 (Py.set "A" ("t1", "R7") [])
       (course_details Sample.crowded) (room_capacities Sample.crowded)
     = GeneticScore.constraint2 [] (course_details Sample.crowded)
         (room_capacities Sample.crowded)
       + 1000 * Z.max 0 0.
Proof.
  destruct (missing_lookup_defaults Sample.crowded [] "A" "t1" "R7" eq_refl)
    as [Hcourse Hroom].
  split.
  - apply Hcourse. reflexivity.
  - apply Hroom. reflexivity.
Defined.

(** ** Rules for runs *)

Lemma wp_ret {t A} (a : A) w (Q : A -> world -> Prop) : Q a w -> triple t (ret a) w Q.
Proof. done. Qed.

Lemma wp_bind {t A B} (m : M A) (k : A -> M B) w (Q : B -> world -> Prop) :
  triple t m w (fun a w' => triple t (k a) w' Q) -> triple t (bind m k) w Q.
Proof. unfold triple, bind. by destruct (m w) as [[a w']|e]. Qed.

Lemma wp_mono {t A} (m : M A) w (Q Q' : A -> world -> Prop) :
  triple t m w Q -> (forall a w', Q a w' -> Q' a w') -> triple t m w Q'.
Proof. unfold triple. destruct (m w) as [[a w']|e]; [|done]. auto. Qed.

Lemma wp_elim {A} (m : M A) w (Q : A -> world -> Prop) :
  wp m w Q -> exists a w', m w = Ok (a, w') /\ Q a w'.
Proof. unfold triple. destruct (m w) as [[a w']|e]; [|done]. eauto. Qed.

Lemma wlp_elim {t A} (m : M A) w a w' (Q : A -> world -> Prop) :
  triple t m w Q -> m w = Ok (a, w') -> Q a w'.
Proof. unfold triple. intros HQ Hm. by rewrite Hm in HQ. Qed.

Lemma wp_intro {t A} (m : M A) w a w' (Q : A -> world -> Prop) :
  m w = Ok (a, w') -> Q a w' -> triple t m w Q.
Proof. unfold triple. by intros ->. Qed.

Section Loops.

Context {t : mode} {A B : Type}.

Lemma wp_foldM (I : list A -> B -> world -> Prop) (f : B -> A -> M B) l acc w :
  I [] acc w ->
  (forall pre x post acc w,
      l = pre ++ x :: post -> I pre acc w ->
      triple t (f acc x) w (fun acc' w' => I (pre ++ [x]) acc' w')) ->
  triple t (foldM f acc l) w (fun acc' w' => I l acc' w').
Proof.
  intros Hinit Hstep.
  assert (forall post pre acc w, l = pre ++ post -> I pre acc w ->
            triple t (foldM f acc post) w (fun acc' w' => I l acc' w')) as Hgen.
  { induction post as [|x post IH]; intros pre acc0 w0 Hl HI; simpl.
    - rewrite app_nil_r in Hl. subst. by apply wp_ret.
    - apply wp_bind. eapply wp_mono; [by eapply Hstep|].
      intros acc1 w1 HI1. apply (IH (pre ++ [x])); [|done]. by rewrite <-app_assoc. }
  by apply (Hgen l []).
Qed.

Lemma wp_mapM (I : list A -> list B -> world -> Prop) (f : A -> M B) l w :
  I [] [] w ->
  (forall pre x post ys w,
      l = pre ++ x :: post -> I pre ys w ->
      triple t (f x) w (fun y w' => I (pre ++ [x]) (ys ++ [y]) w')) ->
  triple t (mapM f l) w (fun ys w' => I l ys w').
Proof.
  intros Hinit Hstep.
  assert (forall post pre ys w, l = pre ++ post -> I pre ys w ->
            triple t (mapM f post) w (fun zs w' => I l (ys ++ zs) w')) as Hgen.
  { induction post as [|x post IH]; intros pre ys w0 Hl HI; simpl.
    - rewrite app_nil_r in Hl. subst. apply wp_ret. by rewrite app_nil_r.
    - apply wp_bind. eapply wp_mono; [by eapply Hstep|].
      intros y w1 HI1. apply wp_bind.
      eapply wp_mono; [apply (IH (pre ++ [x]) (ys ++ [y])); [|done]|].
      { by rewrite <-app_assoc. }
      intros zs w2 HI2. apply wp_ret.
      replace (ys ++ y :: zs) with ((ys ++ [y]) ++ zs) by by rewrite <-app_assoc.
      done. }
  by apply (Hgen l [] []).
Qed.

End Loops.

Lemma wp_for_ {t A} (I : list A -> world -> Prop) (f : A -> M unit) l w :
  I [] w ->
  (forall pre x post w,
      l = pre ++ x :: post -> I pre w ->
      triple t (f x) w (fun _ w' => I (pre ++ [x]) w')) ->
  triple t (for_ l f) w (fun _ w' => I l w').
Proof.
  intros Hinit Hstep. unfold for_.
  apply (wp_foldM (fun pre (_ : unit) w => I pre w)); [done|].
  intros pre x post [] w0 Hl HI. by eapply Hstep.
Qed.

Lemma wp_timesM {t B} (I : nat -> list B -> world -> Prop) (m : M B) n w :
  I 0%nat [] w ->
  (forall i ys w, (i < n)%nat -> I i ys w ->
                  triple t m w (fun y w' => I (S i) (ys ++ [y]) w')) ->
  triple t (timesM n m) w (fun ys w' => I n ys w').
Proof.
  intros Hinit Hstep. unfold timesM.
  eapply wp_mono.
  { apply (wp_mapM (fun (pre : list nat) ys w' => I (length pre) ys w')); [done|].
    intros pre x post ys w0 Hl HI.
    assert (length pre < n)%nat as Hlt.
    { apply (f_equal length) in Hl. rewrite length_seq, length_app in Hl.
      simpl in Hl. lia. }
    eapply wp_mono; [by apply Hstep|].
    intros y w1 Hy. rewrite length_app. simpl.
    by replace (length pre + 1)%nat with (S (length pre)) by lia. }
  intros ys w1 Hys. by rewrite length_seq in Hys.
Qed.


(** ** Rules for the built-ins

    A premise [t = Total -> P] is what the call needs in order not to raise;
    what a rule hands to the continuation holds whenever the call returns. *)

Section Primitives.

Context {t : mode}.

Lemma len_pos {A} (l : list A) : l <> [] -> 0 < Py.len l.
Proof. unfold Py.len. destruct l; [done|]. simpl. lia. Qed.

Lemma wp_draw w (Q : Z -> world -> Prop) :
  (forall k w', heap w' = heap w -> Q k w') -> triple t Random.draw w Q.
Proof. intros HQ. unfold triple, Random.draw. by apply HQ. Qed.

Lemma wp_random w (Q : float -> world -> Prop) :
  (forall u w', heap w' = heap w -> Q u w') -> triple t Random.random w Q.
Proof.
  intros HQ. unfold Random.random. apply wp_bind, wp_draw.
  intros k w' Hw'. apply wp_ret. by apply HQ.
Qed.

Lemma wp_randbelow n w (Q : Z -> world -> Prop) :
  (forall i w', (0 < n -> 0 <= i < n) -> heap w' = heap w -> Q i w') ->
  triple t (Random.randbelow n) w Q.
Proof.
  intros HQ. unfold Random.randbelow. apply wp_bind, wp_draw.
  intros k w' Hw'. apply wp_ret. apply HQ; [|done].
  intros Hn. by apply Z.mod_pos_bound.
Qed.

Lemma wp_list_getitem {A} (l : list A) i w (Q : A -> world -> Prop) :
  (t = Total -> 0 <= i < Py.len l) ->
  (forall x, x ∈ l -> Q x w) ->
  triple t (list_getitem l i) w Q.
Proof.
  intros Hi HQ. unfold list_getitem. cbv zeta.
  destruct (_ <? 0) eqn:Hneg.
  - destruct t; [|done]. specialize (Hi eq_refl).
    destruct (Z.ltb_spec i 0); lia.
  - destruct (l !! _) as [x|] eqn:Hx.
    + apply wp_ret, HQ, list_elem_of_lookup. eauto.
    + destruct t; [|done]. specialize (Hi eq_refl).
      apply lookup_ge_None in Hx. unfold Py.len in Hi.
      destruct (Z.ltb_spec i 0); lia.
Qed.

Lemma wp_choice {A} (seq : list A) w (Q : A -> world -> Prop) :
  (t = Total -> seq <> []) ->
  (forall x w', x ∈ seq -> heap w' = heap w -> Q x w') ->
  triple t (Random.choice seq) w Q.
Proof.
  intros Hseq HQ. unfold Random.choice. destruct seq as [|x0 seq0].
  - destruct t; [by destruct Hseq|done].
  - apply wp_bind, wp_randbelow. intros i w' Hi Hw'.
    apply wp_list_getitem.
    + intros _. apply Hi. by apply len_pos.
    + intros x Hx. by apply HQ.
Qed.

Lemma wp_alloc d w (Q : addr -> world -> Prop) :
  (forall w', heap w' = heap w ++ [d] -> Q (length (heap w)) w') ->
  triple t (Heap.alloc d) w Q.
Proof. intros HQ. unfold triple, Heap.alloc. by apply HQ. Qed.

Lemma wp_load a w (Q : schedule -> world -> Prop) :
  (t = Total -> is_Some (heap w !! a)) ->
  (forall d, heap w !! a = Some d -> Q d w) ->
  triple t (Heap.load a) w Q.
Proof.
  intros Ha HQ. unfold triple, Heap.load. destruct (heap w !! a) as [d|].
  - by apply HQ.
  - destruct t; [|done]. by destruct Ha.
Qed.

Lemma wp_store a d w (Q : unit -> world -> Prop) :
  is_Some (heap w !! a) ->
  (forall w', heap w' = <[a:=d]> (heap w) -> Q tt w') ->
  triple t (Heap.store a d) w Q.
Proof.
  intros [d0 Ha] HQ. unfold triple, Heap.store. rewrite Ha. by apply HQ.
Qed.

Lemma wp_getitem a k w (Q : time * room -> world -> Prop) :
  (t = Total -> exists d, heap w !! a = Some d /\ is_Some (Py.get k d)) ->
  (forall d v, heap w !! a = Some d -> Py.get k d = Some v -> Q v w) ->
  triple t (Heap.getitem a k) w Q.
Proof.
  intros Ha HQ. unfold Heap.getitem. apply wp_bind, wp_load.
  { intros Ht. destruct (Ha Ht) as (d & Hd & _). eauto. }
  intros d Hd. destruct (Py.get k d) as [v|] eqn:Hv.
  - apply wp_ret. by eapply HQ.
  - destruct t; [|done]. destruct (Ha eq_refl) as (d' & Hd' & [v Hv']). congruence.
Qed.

Lemma wp_setitem a k v w (Q : unit -> world -> Prop) :
  (t = Total -> is_Some (heap w !! a)) ->
  (forall d w', heap w !! a = Some d ->
                heap w' = <[a:=Py.set k v d]> (heap w) -> Q tt w') ->
  triple t (Heap.setitem a k v) w Q.
Proof.
  intros Ha HQ. unfold Heap.setitem. apply wp_bind, wp_load; [done|].
  intros d Hd. apply wp_store; [by eauto|]. intros w' Hw'. by eapply HQ.
Qed.

Lemma wp_copy a w (Q : addr -> world -> Prop) :
  (t = Total -> is_Some (heap w !! a)) ->
  (forall d w', heap w !! a = Some d -> heap w' = heap w ++ [d] ->
                Q (length (heap w)) w') ->
  triple t (Heap.copy a) w Q.
Proof.
  intros Ha HQ. unfold Heap.copy. apply wp_bind, wp_load; [done|].
  intros d Hd. apply wp_alloc. intros w' Hw'. by eapply HQ.
Qed.

Lemma insert_last {A} (l : list A) (x y : A) : <[length l:=y]> (l ++ [x]) = l ++ [y].
Proof.
  replace (length l) with (length l + 0)%nat at 1 by lia.
  by rewrite insert_app_r.
Qed.

Lemma lookup_last {A} (l : list A) (x : A) : (l ++ [x]) !! length l = Some x.
Proof. by rewrite list_lookup_middle. Qed.

Lemma lookup_first_of_two {A} (l : list A) (x y : A) :
  (l ++ [x; y]) !! length l = Some x.
Proof. by rewrite list_lookup_middle. Qed.

Lemma lookup_second_of_two {A} (l : list A) (x y : A) :
  (l ++ [x; y]) !! S (length l) = Some y.
Proof.
  rewrite lookup_app_r by lia. replace (S (length l) - length l)%nat with 1%nat by lia.
  done.
Qed.

Lemma insert_first_of_two {A} (l : list A) (x y z : A) :
  <[length l:=z]> (l ++ [x; y]) = l ++ [z; y].
Proof.
  replace (length l) with (length l + 0)%nat at 1 by lia. by rewrite insert_app_r.
Qed.

Lemma insert_second_of_two {A} (l : list A) (x y z : A) :
  <[S (length l):=z]> (l ++ [x; y]) = l ++ [x; z].
Proof.
  replace (S (length l)) with (length l + 1)%nat by lia. by rewrite insert_app_r.
Qed.

Lemma wp_sample_pool {A} (k : nat) (pool : list A) w (Q : list A -> world -> Prop) :
  (t = Total -> (k <= length pool)%nat) ->
  (forall xs w', heap w' = heap w -> length xs = k ->
                 (forall x, x ∈ xs -> x ∈ pool) -> Q xs w') ->
  triple t (Random.sample_pool pool k) w Q.
Proof.
  revert pool w Q. induction k as [|k IH]; intros pool w Q Hk HQ; simpl.
  - apply wp_ret. apply HQ; [done|done|]. by intros x ?%elem_of_nil.
  - apply wp_bind, wp_randbelow. intros j w1 Hj Hw1.
    apply wp_bind, wp_list_getitem.
    { intros Ht. specialize (Hk Ht). apply Hj. unfold Py.len. lia. }
    intros x Hx.
    apply wp_bind, wp_list_getitem.
    { intros Ht. specialize (Hk Ht). unfold Py.len. lia. }
    intros y Hy.
    apply wp_bind. apply IH.
    { intros Ht. specialize (Hk Ht). rewrite length_take, length_insert. lia. }
    intros xs w2 Hw2 Hlen Hxs. apply wp_ret. apply HQ.
    + by rewrite Hw2.
    + simpl. by rewrite Hlen.
    + intros z Hz. apply elem_of_cons in Hz as [->|Hz]; [done|].
      apply Hxs, elem_of_take in Hz as (i & Hi & _).
      destruct (decide (Z.to_nat j = i)) as [<-|Hne].
      * destruct (decide (Z.to_nat j < length pool)%nat) as [Hlt|Hge].
        -- rewrite list_lookup_insert_eq in Hi by done. by injection Hi as <-.
        -- rewrite list_insert_ge in Hi by lia. apply list_elem_of_lookup. eauto.
      * rewrite list_lookup_insert_ne in Hi by done.
        apply list_elem_of_lookup. eauto.
Qed.

Lemma wp_sample {A} (k : nat) (population : list A) w
    (Q : list A -> world -> Prop) :
  (t = Total -> (k <= length population)%nat) ->
  (forall xs w', heap w' = heap w -> length xs = k ->
                 (forall x, x ∈ xs -> x ∈ population) -> Q xs w') ->
  triple t (Random.sample population k) w Q.
Proof.
  intros Hk HQ. unfold Random.sample.
  destruct (Z.ltb_spec (Py.len population) (Z.of_nat k)).
  - destruct t; [|done]. specialize (Hk eq_refl). unfold Py.len in *. lia.
  - by apply wp_sample_pool.
Qed.

Lemma max_by_snd_member {A} (l : list (A * Z)) (x : A * Z) :
  fold_left (fun best y => if best.2 <? y.2 then y else best) l x ∈ x :: l.
Proof.
  revert x. induction l as [|y l IH]; intros x; simpl.
  - apply list_elem_of_here.
  - specialize (IH (if x.2 <? y.2 then y else x)).
    apply elem_of_cons in IH as [->|IH].
    + destruct (x.2 <? y.2);
        [apply list_elem_of_further, list_elem_of_here|apply list_elem_of_here].
    + by do 2 apply list_elem_of_further.
Qed.

Lemma wp_max_by_snd {A} (l : list (A * Z)) w (Q : A * Z -> world -> Prop) :
  (t = Total -> l <> []) ->
  (forall x, x ∈ l -> Q x w) ->
  triple t (py_max_by_snd l) w Q.
Proof.
  intros Hl HQ. destruct l as [|x l]; simpl.
  - destruct t; [by destruct Hl|done].
  - apply wp_ret, HQ, max_by_snd_member.
Qed.

End Primitives.

(** ** Operators on schedules *)

Section Operators.

Context {t : mode}.
Variable self : data.

(** A random schedule is a new dictionary over all courses. *)
Lemma wp_create_individual w (Q : addr -> world -> Prop) :
  (t = Total -> times self <> [] /\ rooms self <> []) ->
  (forall w' d,
      heap w' = heap w ++ [d] ->
      (forall c, c ∈ courses self -> is_Some (Py.get c d)) ->
      Q (length (heap w)) w') ->
  triple t (GeneticAlgorithm.create_individual self) w Q.
Proof.
  intros Hne HQ. unfold GeneticAlgorithm.create_individual.
  apply wp_bind, wp_alloc. intros w1 Hw1.
  apply wp_bind.
  eapply wp_mono.
  { apply (wp_for_ (fun pre w' =>
             exists d, heap w' = heap w ++ [d]
                       /\ forall c, c ∈ pre -> is_Some (Py.get c d))).
    - exists []. split; [done|]. by intros c ?%elem_of_nil.
    - intros pre x post w2 Hl (d & Hw2 & Hd).
      apply wp_bind, wp_choice; [intros Ht; by apply Hne|]. intros tm w3 _ Hw3.
      apply wp_bind, wp_choice; [intros Ht; by apply Hne|]. intros r w4 _ Hw4.
      assert (heap w4 !! length (heap w) = Some d) as Hlookup.
      { rewrite Hw4, Hw3, Hw2. apply lookup_last. }
      apply wp_setitem; [by eauto|].
      intros d' w5 Hd' Hw5. pose proof (eq_trans (eq_sym Hd') Hlookup) as [= ->].
      exists (Py.set x (tm, r) d). split.
      + rewrite Hw5, Hw4, Hw3, Hw2. apply insert_last.
      + intros c Hc. apply get_is_Some, keys_set_elem.
        apply elem_of_app in Hc as [Hc|Hc].
        * right. by apply get_is_Some, Hd.
        * left. by apply list_elem_of_singleton in Hc. }
  intros [] w2 (d & Hw2 & Hd). apply wp_ret. by eapply HQ.
Qed.

(** Mutation rewrites one dictionary in place and keeps its keys. *)
Lemma wp_mutate mutation_rate a w (Q : addr -> world -> Prop) :
  (t = Total -> is_Some (heap w !! a) /\ times self <> [] /\ rooms self <> []) ->
  (forall w' d d',
      heap w !! a = Some d ->
      heap w' = <[a:=d']> (heap w) -> Py.keys d' = Py.keys d -> Q a w') ->
  triple t (GeneticAlgorithm.mutate self mutation_rate a) w Q.
Proof.
  intros Hpre HQ. unfold GeneticAlgorithm.mutate.
  apply wp_bind, wp_load; [intros Ht; by apply Hpre|]. intros d Ha.
  apply wp_bind. eapply wp_mono.
  { apply (wp_for_ (fun (pre : list course) w' =>
             exists d', heap w' = <[a:=d']> (heap w) /\ Py.keys d' = Py.keys d)).
    - exists d. split; [|done]. by rewrite list_insert_id.
    - intros pre x post w1 Hl (d1 & Hw1 & Hd1).
      apply wp_bind, wp_random. intros u w2 Hw2.
      destruct (PrimFloat.ltb u mutation_rate).
      + apply wp_bind, wp_choice; [intros Ht; by apply Hpre|]. intros tm w3 _ Hw3.
        apply wp_bind, wp_choice; [intros Ht; by apply Hpre|]. intros r w4 _ Hw4.
        assert (heap w4 !! a = Some d1) as Hlookup.
        { rewrite Hw4, Hw3, Hw2, Hw1. apply list_lookup_insert_eq.
          by eapply lookup_lt_Some. }
        apply wp_setitem; [by eauto|].
        intros d' w5 Hd' Hw5. pose proof (eq_trans (eq_sym Hd') Hlookup) as [= ->].
        exists (Py.set x (tm, r) d1). split.
        * rewrite Hw5, Hw4, Hw3, Hw2, Hw1. by rewrite list_insert_insert_eq.
        * rewrite keys_set; [done|]. apply get_is_Some. rewrite Hd1, Hl.
          apply elem_of_app. right. apply list_elem_of_here.
      + apply wp_ret. exists d1. by rewrite Hw2. }
  intros [] w1 (d1 & Hw1 & Hd1). apply wp_ret. by eapply HQ.
Qed.

(** Crossover allocates the two children and fills them course by course. *)
Lemma wp_crossover parent1 parent2 w (Q : addr * addr -> world -> Prop) :
  (t = Total ->
   has_courses self w parent1 /\ has_courses self w parent2) ->
  (forall w' e1 e2,
      heap w' = heap w ++ [e1; e2] ->
      (forall c, c ∈ courses self ->
                 is_Some (Py.get c e1) /\ is_Some (Py.get c e2)) ->
      (forall d1 d2,
          heap w !! parent1 = Some d1 -> heap w !! parent2 = Some d2 ->
          forall c, c ∈ courses self -> mixes d1 d2 e1 e2 c) ->
      Q (length (heap w), S (length (heap w))) w') ->
  triple t (GeneticAlgorithm.crossover self parent1 parent2) w Q.
Proof.
  intros Hpre HQ. unfold GeneticAlgorithm.crossover.
  apply wp_bind, wp_alloc. intros w1 Hw1.
  apply wp_bind, wp_alloc. intros w2 Hw2.
  assert (heap w2 = heap w ++ [[]; []]) as Hw2'.
  { by rewrite Hw2, Hw1, <-app_assoc. }
  assert (length (heap w1) = S (length (heap w))) as Hlen1.
  { rewrite Hw1, length_app. simpl. lia. }
  rewrite Hlen1. clear Hw1 Hw2 Hlen1.
  apply wp_bind. eapply wp_mono.
  { apply (wp_for_ (fun pre w' =>
             exists e1 e2,
               heap w' = heap w ++ [e1; e2]
               /\ (forall c, c ∈ pre ->
                             is_Some (Py.get c e1) /\ is_Some (Py.get c e2))
               /\ forall d1 d2,
                   heap w !! parent1 = Some d1 -> heap w !! parent2 = Some d2 ->
                   forall c, c ∈ pre -> mixes d1 d2 e1 e2 c)).
    - exists [], []. split; [done|].
      split; [by intros c ?%elem_of_nil|]. by intros d1 d2 _ _ c ?%elem_of_nil.
    - intros pre x post w3 Hl (e1 & e2 & Hw3 & Hsome & Hmix).
      assert (x ∈ courses self) as Hx.
      { rewrite Hl. apply elem_of_app. right. apply list_elem_of_here. }
      (* what reading a parent in a world of this shape needs and gives *)
      assert (forall w' f1 f2 p,
                 heap w' = heap w ++ [f1; f2] ->
                 (t = Total -> has_courses self w p) ->
                 t = Total ->
                 exists d, heap w' !! p = Some d /\ is_Some (Py.get x d)) as Hread.
      { intros w' f1 f2 p Hw' Hp Ht. destruct (Hp Ht) as (d & Hd & Hall).
        exists d. split; [|by apply Hall].
        rewrite Hw', lookup_app_l; [done|]. by eapply lookup_lt_Some. }
      assert (forall (a b : time * room) f1 f2,
                 Py.get x f1 = Some a -> Py.get x f2 = Some b ->
                 (forall c, c <> x -> Py.get c f1 = Py.get c e1) ->
                 (forall c, c <> x -> Py.get c f2 = Py.get c e2) ->
                 (forall d1 d2,
                     heap w !! parent1 = Some d1 -> heap w !! parent2 = Some d2 ->
                     Py.get x d1 = Some a /\ Py.get x d2 = Some b
                     \/ Py.get x d2 = Some a /\ Py.get x d1 = Some b) ->
                 (forall c, c ∈ pre ++ [x] ->
                            is_Some (Py.get c f1) /\ is_Some (Py.get c f2))
                 /\ forall d1 d2,
                     heap w !! parent1 = Some d1 -> heap w !! parent2 = Some d2 ->
                     forall c, c ∈ pre ++ [x] -> mixes d1 d2 f1 f2 c) as Hnew.
      { intros a b f1 f2 Ha Hb Hf1 Hf2 Hab. split.
        - intros c Hc. destruct (decide (c = x)) as [->|Hne].
          + rewrite Ha, Hb. by eauto.
          + rewrite Hf1, Hf2 by done. apply Hsome.
            apply elem_of_app in Hc as [Hc|Hc]; [done|].
            by apply list_elem_of_singleton in Hc.
        - intros d1 d2 Hd1 Hd2 c Hc. unfold mixes.
          destruct (decide (c = x)) as [->|Hne].
          + rewrite Ha, Hb. destruct (Hab d1 d2 Hd1 Hd2) as [[-> ->]|[-> ->]]; auto.
          + rewrite Hf1, Hf2 by done. apply (Hmix d1 d2 Hd1 Hd2).
            apply elem_of_app in Hc as [Hc|Hc]; [done|].
            by apply list_elem_of_singleton in Hc. }
      (* a parent read in a world of this shape is the parent of [w] *)
      assert (forall w' f1 f2 p d d',
                 heap w' = heap w ++ [f1; f2] ->
                 heap w' !! p = Some d' -> heap w !! p = Some d -> d' = d) as Hsame.
      { intros w' f1 f2 p d d' Hw' Hd' Hd.
        rewrite Hw', lookup_app_l in Hd' by by eapply lookup_lt_Some. congruence. }
      apply wp_bind, wp_random. intros u w4 Hw4. rewrite Hw3 in Hw4.
      destruct (PrimFloat.ltb u 0.5).
      + apply wp_bind, wp_getitem.
        { eapply Hread; [done|]. intros Ht. by apply Hpre. }
        intros p1 v1 Hp1 Hv1.
        apply wp_bind, wp_setitem.
        { intros _. rewrite Hw4, lookup_first_of_two. by eauto. }
        intros f1 w5 Hf1 Hw5.
        rewrite Hw4, lookup_first_of_two in Hf1. injection Hf1 as <-.
        rewrite Hw4, insert_first_of_two in Hw5.
        apply wp_bind, wp_getitem.
        { eapply Hread; [done|]. intros Ht. by apply Hpre. }
        intros p2 v2 Hp2 Hv2.
        apply wp_setitem.
        { intros _. rewrite Hw5, lookup_second_of_two. by eauto. }
        intros f2 w6 Hf2 Hw6.
        rewrite Hw5, lookup_second_of_two in Hf2. injection Hf2 as <-.
        rewrite Hw5, insert_second_of_two in Hw6.
        eexists _, _. split; [done|].
        apply (Hnew v1 v2); auto using get_set_eq.
        * intros c Hc. by rewrite get_set_ne.
        * intros c Hc. by rewrite get_set_ne.
        * intros d1 d2 Hd1 Hd2. left.
          rewrite <-(Hsame w4 _ _ parent1 d1 p1 Hw4 Hp1 Hd1).
          by rewrite <-(Hsame w5 _ _ parent2 d2 p2 Hw5 Hp2 Hd2).
      + apply wp_bind, wp_getitem.
        { eapply Hread; [done|]. intros Ht. by apply Hpre. }
        intros p2 v2 Hp2 Hv2.
        apply wp_bind, wp_setitem.
        { intros _. rewrite Hw4, lookup_first_of_two. by eauto. }
        intros f1 w5 Hf1 Hw5.
        rewrite Hw4, lookup_first_of_two in Hf1. injection Hf1 as <-.
        rewrite Hw4, insert_first_of_two in Hw5.
        apply wp_bind, wp_getitem.
        { eapply Hread; [done|]. intros Ht. by apply Hpre. }
        intros p1 v1 Hp1 Hv1.
        apply wp_setitem.
        { intros _. rewrite Hw5, lookup_second_of_two. by eauto. }
        intros f2 w6 Hf2 Hw6.
        rewrite Hw5, lookup_second_of_two in Hf2. injection Hf2 as <-.
        rewrite Hw5, insert_second_of_two in Hw6.
        eexists _, _. split; [done|].
        apply (Hnew v2 v1); auto using get_set_eq.
        * intros c Hc. by rewrite get_set_ne.
        * intros c Hc. by rewrite get_set_ne.
        * intros d1 d2 Hd1 Hd2. right.
          rewrite <-(Hsame w4 _ _ parent2 d2 p2 Hw4 Hp2 Hd2).
          by rewrite <-(Hsame w5 _ _ parent1 d1 p1 Hw5 Hp1 Hd1). }
  intros [] w3 (e1 & e2 & Hw3 & Hsome & Hmix). apply wp_ret. by eapply HQ.
Qed.

Lemma wp_select_population (population : list addr) (fitness : list Z)
    (num_selected : Z) w (Q : list addr -> world -> Prop) :
  (t = Total ->
   (3 <= length population)%nat /\ length fitness = length population) ->
  (forall selected w',
      heap w' = heap w ->
      length selected = Z.to_nat num_selected ->
      (forall a, a ∈ selected -> a ∈ population) ->
      Q selected w') ->
  triple t (GeneticAlgorithm.select_population population fitness num_selected) w Q.
Proof.
  intros Hpre HQ. unfold GeneticAlgorithm.select_population. cbv zeta.
  eapply wp_mono.
  { apply (wp_timesM (fun i (ys : list addr) w' =>
             heap w' = heap w /\ length ys = i
             /\ forall a, a ∈ ys -> a ∈ population)).
    - split; [done|]. split; [done|]. by intros a ?%elem_of_nil.
    - intros i ys w1 Hi (Hw1 & Hlen & Hys).
      apply wp_bind, wp_sample.
      { intros Ht. destruct (Hpre Ht) as [Hpop Hfit]. rewrite length_zip. lia. }
      intros xs w2 Hw2 Hxs Hsub.
      apply wp_bind, wp_max_by_snd.
      { intros _. by destruct xs. }
      intros best Hbest. apply wp_ret.
      split; [by rewrite Hw2|]. split.
      + rewrite length_app. simpl. lia.
      + intros a Ha. apply elem_of_app in Ha as [Ha|Ha]; [by apply Hys|].
        apply list_elem_of_singleton in Ha as ->.
        destruct best as [b f]. simpl. by eapply elem_of_zip_l, Hsub. }
  intros selected w1 (Hw1 & Hlen & Hsub). by apply HQ.
Qed.

End Operators.

(** ** Worlds *)

Section Worlds.

Lemma preserved_refl w : preserved w w.
Proof. by intros a d. Qed.

Lemma preserved_trans w1 w2 w3 : preserved w1 w2 -> preserved w2 w3 -> preserved w1 w3.
Proof. intros H12 H23 a d Ha. by apply H23, H12. Qed.

Lemma preserved_same w w' : heap w' = heap w -> preserved w w'.
Proof. intros Hw a d. by rewrite Hw. Qed.

Lemma preserved_app w w' l : heap w' = heap w ++ l -> preserved w w'.
Proof.
  intros Hw a d Ha. rewrite Hw, lookup_app_l; [done|]. by eapply lookup_lt_Some.
Qed.

Lemma preserved_length w w' : preserved w w' -> (length (heap w) <= length (heap w'))%nat.
Proof.
  intros Hp. destruct (decide (length (heap w) = 0)%nat) as [->|Hne]; [lia|].
  destruct (lookup_lt_is_Some_2 (heap w) (length (heap w) - 1)) as [d Hd]; [lia|].
  apply Hp, lookup_lt_Some in Hd. lia.
Qed.

Lemma has_courses_preserved self w w' a :
  preserved w w' -> has_courses self w a -> has_courses self w' a.
Proof. intros Hp (d & Ha & Hd). exists d. split; [by apply Hp|done]. Qed.

Lemma best_recorded_preserved score w w' bi bf :
  preserved w w' -> best_recorded score w bi bf -> best_recorded score w' bi bf.
Proof.
  intros Hp. unfold best_recorded. destruct bi as [a|], bf as [f|]; try done.
  intros (d & Ha & Hd). exists d. split; [by apply Hp|done].
Qed.

Lemma bind_ok {A B} (m : M A) (k : A -> M B) w r :
  bind m k w = Ok r -> exists a w1, m w = Ok (a, w1) /\ k a w1 = Ok r.
Proof. unfold bind. destruct (m w) as [[a w1]|e]; [|done]. eauto. Qed.

End Worlds.

(** ** Evaluation of a generation *)

Section Evaluation.

Variable self : data.

Local Abbreviation score := (GeneticScore.fitness self).

Lemma fitness_ok a w r :
  GeneticAlgorithm.fitness self a w = Ok r ->
  exists d, heap w !! a = Some d /\ r = (score d, w).
Proof.
  unfold GeneticAlgorithm.fitness, bind, Heap.load, ret.
  destruct (heap w !! a) as [d|]; [|done]. intros [= <-]. eauto.
Qed.

Lemma mapM_fitness_ok pop w fs w1 :
  mapM (GeneticAlgorithm.fitness self) pop w = Ok (fs, w1) ->
  w1 = w /\ fs = fitness_at score w <$> pop
  /\ Forall (fun a => is_Some (heap w !! a)) pop.
Proof.
  revert fs. induction pop as [|a pop IH]; intros fs; simpl.
  - intros [= <- <-]. by repeat split.
  - intros (f & w2 & Hf & Hrest)%bind_ok.
    apply fitness_ok in Hf as (d & Ha & [= -> ->]).
    apply bind_ok in Hrest as (fs' & w3 & Hfs' & [= <- <-]).
    apply IH in Hfs' as (-> & -> & Hall). split; [done|]. split.
    + f_equal. unfold fitness_at. by rewrite Ha.
    + constructor; by eauto.
Qed.

Lemma mapM_fitness_total pop w :
  Forall (fun a => is_Some (heap w !! a)) pop ->
  mapM (GeneticAlgorithm.fitness self) pop w = Ok (fitness_at score w <$> pop, w).
Proof.
  induction 1 as [|a pop [d Ha] _ IH]; simpl; [done|].
  unfold bind at 1. unfold GeneticAlgorithm.fitness at 1, bind, Heap.load.
  rewrite Ha. unfold ret at 1. unfold bind. rewrite IH.
  unfold ret, fitness_at at 2. by rewrite Ha.
Qed.

Lemma fold_max_upper (l : list Z) (x : Z) :
  fold_left Z.max l x ∈ x :: l /\ forall y, y ∈ x :: l -> y <= fold_left Z.max l x.
Proof.
  revert x. induction l as [|z l IH]; intros x; simpl.
  - split; [apply list_elem_of_here|]. intros y ->%list_elem_of_singleton. lia.
  - destruct (IH (Z.max x z)) as [Hin Hle]. split.
    + apply elem_of_cons in Hin as [Hin|Hin].
      * rewrite Hin. destruct (Z.max_spec x z) as [[_ ->]|[_ ->]].
        -- apply list_elem_of_further, list_elem_of_here.
        -- apply list_elem_of_here.
      * by do 2 apply list_elem_of_further.
    + intros y Hy.
      assert (Z.max x z <= fold_left Z.max l (Z.max x z)) as Hm
          by apply Hle, list_elem_of_here.
      apply elem_of_cons in Hy as [->|Hy]; [lia|].
      apply elem_of_cons in Hy as [->|Hy]; [lia|].
      by apply Hle, list_elem_of_further.
Qed.

Lemma index_from_ok x l i w r :
  index_from x l i w = Ok r ->
  exists j : nat, r = (i + Z.of_nat j, w) /\ l !! j = Some x.
Proof.
  revert i. induction l as [|y l IH]; intros i; simpl; [done|].
  destruct (decide (y = x)) as [->|Hne].
  - intros [= <-]. exists 0%nat. split; [f_equal; lia|done].
  - intros (j & -> & Hj)%IH. exists (S j). split; [f_equal; lia|done].
Qed.

Lemma index_from_total x l i w :
  x ∈ l -> exists r, index_from x l i w = Ok r.
Proof.
  revert i. induction l as [|y l IH]; intros i Hx; simpl.
  - by apply elem_of_nil in Hx.
  - destruct (decide (y = x)) as [->|Hne]; [by eexists|].
    apply elem_of_cons in Hx as [->|Hx]; [done|]. by apply IH.
Qed.

Lemma list_getitem_ok {A} (l : list A) (j : nat) w r :
  list_getitem l (Z.of_nat j) w = Ok r -> exists x, r = (x, w) /\ l !! j = Some x.
Proof.
  unfold list_getitem. destruct (Z.ltb_spec (Z.of_nat j) 0); [lia|]. cbv zeta.
  destruct (Z.ltb_spec (Z.of_nat j) 0); [lia|]. rewrite Nat2Z.id.
  destruct (l !! j) as [x|]; [|done]. intros [= <-]. eauto.
Qed.

(** What [evaluate] leaves when it returns: the world as it was, the same
    population, one more history entry, and a consistent best. *)
Lemma evaluate_ok st w fs st1 w1 :
  GeneticAlgorithm.evaluate self st w = Ok ((fs, st1), w1) ->
  best_recorded score w (GeneticAlgorithm.best_individual st)
                (GeneticAlgorithm.best_fitness st) ->
  w1 = w
  /\ fs = fitness_at score w <$> GeneticAlgorithm.population st
  /\ GeneticAlgorithm.population st1 = GeneticAlgorithm.population st
  /\ best_recorded score w (GeneticAlgorithm.best_individual st1)
                   (GeneticAlgorithm.best_fitness st1)
  /\ exists current_best,
      GeneticAlgorithm.current_best_history st1
      = GeneticAlgorithm.current_best_history st ++ [current_best]
      /\ current_best ∈ fs
      /\ (forall f, f ∈ fs -> f <= current_best).
Proof.
  intros Hev Hbest. unfold GeneticAlgorithm.evaluate in Hev.
  apply bind_ok in Hev as (fs0 & w2 & Hfs & Hev).
  apply mapM_fitness_ok in Hfs as (-> & -> & Hvalid).
  apply bind_ok in Hev as (cb & w3 & Hmax & Hev).
  unfold py_max in Hmax.
  destruct (fitness_at score w <$> GeneticAlgorithm.population st)
    as [|f0 fs'] eqn:Hfs; [done|].
  injection Hmax as <- <-.
  destruct (fold_max_upper fs' f0) as [Hin Hle].
  set (cb := fold_left Z.max fs' f0) in *.
  cbv zeta in Hev.
  assert (forall st1,
             GeneticAlgorithm.population st1 = GeneticAlgorithm.population st ->
             GeneticAlgorithm.current_best_history st1
             = GeneticAlgorithm.current_best_history st ++ [cb] ->
             best_recorded score w (GeneticAlgorithm.best_individual st1)
                           (GeneticAlgorithm.best_fitness st1) ->
             w = w /\ f0 :: fs' = f0 :: fs'
             /\ GeneticAlgorithm.population st1 = GeneticAlgorithm.population st
             /\ best_recorded score w (GeneticAlgorithm.best_individual st1)
                              (GeneticAlgorithm.best_fitness st1)
             /\ exists current_best,
                 GeneticAlgorithm.current_best_history st1
                 = GeneticAlgorithm.current_best_history st ++ [current_best]
                 /\ current_best ∈ f0 :: fs'
                 /\ (forall f, f ∈ f0 :: fs' -> f <= current_best)) as Hfin.
  { intros st' Hpop Hhist Hrec. repeat split; try done. by exists cb. }
  match type of Hev with (if ?b then _ else _) _ = _ => destruct b end.
  - apply bind_ok in Hev as (i & w4 & Hidx & Hev).
    apply index_from_ok in Hidx as (j & [= -> ->] & Hj).
    apply bind_ok in Hev as (ind & w5 & Hind & [= <- <- <-]).
    rewrite Z.add_0_l in Hind.
    apply list_getitem_ok in Hind as (ind' & [= <- <-] & Hind).
    apply Hfin; [done|done|]. simpl.
    rewrite <-Hfs, list_lookup_fmap, Hind in Hj. injection Hj as Hj.
    rewrite Forall_forall in Hvalid.
    destruct (Hvalid ind) as [d Hd]; [apply list_elem_of_lookup; by eauto|].
    exists d. split; [done|]. unfold fitness_at in Hj. by rewrite Hd in Hj.
  - injection Hev as <- <- <-. by apply Hfin.
Qed.

Lemma evaluate_total st w :
  GeneticAlgorithm.population st <> [] ->
  Forall (fun a => is_Some (heap w !! a)) (GeneticAlgorithm.population st) ->
  exists fs st1, GeneticAlgorithm.evaluate self st w = Ok ((fs, st1), w).
Proof.
  intros Hne Hvalid. unfold GeneticAlgorithm.evaluate.
  unfold bind at 1. rewrite (mapM_fitness_total _ _ Hvalid).
  destruct (fitness_at score w <$> GeneticAlgorithm.population st)
    as [|f0 fs'] eqn:Hfs.
  { apply fmap_nil_inv in Hfs. done. }
  unfold bind at 1. simpl py_max. unfold ret at 1. cbv zeta.
  destruct (fold_max_upper fs' f0) as [Hin _].
  set (cb := fold_left Z.max fs' f0) in *.
  match goal with |- context [if ?b then _ else _] => destruct b end.
  - destruct (index_from_total cb (f0 :: fs') 0 w Hin) as [r Hr].
    pose proof Hr as Hr'.
    apply index_from_ok in Hr' as (j & -> & Hj).
    unfold bind at 1. unfold py_index. rewrite Hr. rewrite Z.add_0_l.
    rewrite <-Hfs, list_lookup_fmap in Hj.
    destruct (GeneticAlgorithm.population st !! j) as [ind|] eqn:Hind; [|done].
    unfold bind, list_getitem.
    destruct (Z.ltb_spec (Z.of_nat j) 0); [lia|]. cbv zeta.
    destruct (Z.ltb_spec (Z.of_nat j) 0); [lia|].
    rewrite Nat2Z.id, Hind. unfold ret. by eexists _, _.
  - unfold ret. by eexists _, _.
Qed.

End Evaluation.

(** ** One generation of the genetic engine *)

Section Generation.

Context {t : mode}.
Variable self : data.
Variables (population_size : Z) (mutation_rate : float).

Local Abbreviation score := (GeneticScore.fitness self).

Lemma range_step2_bounds n i : i ∈ Py.range_step2 n -> 0 <= i < n.
Proof.
  unfold Py.range_step2. intros (k & -> & Hk)%list_elem_of_fmap.
  apply elem_of_seq in Hk as [_ Hk]. simpl in Hk.
  assert (0 < (n + 1) / 2) as Hpos by lia.
  pose proof (Z.mul_div_le (n + 1) 2 ltac:(lia)). lia.
Qed.

Lemma range_step2_length n : length (Py.range_step2 n) = Z.to_nat ((n + 1) / 2).
Proof. unfold Py.range_step2. by rewrite length_fmap, length_seq. Qed.

Lemma has_courses_valid w a : has_courses self w a -> is_Some (heap w !! a).
Proof. intros (d & Ha & _). eauto. Qed.

Lemma wp_breed fitnesses st w (Q : GeneticAlgorithm.state -> world -> Prop) :
  (t = Total -> breed_ready self fitnesses st w) ->
  (forall w' population,
      preserved w w' ->
      Forall (has_courses self w') population ->
      length population = (2 * Z.to_nat ((population_size + 1) / 2))%nat ->
      Q (GeneticAlgorithm.State population
           (GeneticAlgorithm.best_individual st)
           (GeneticAlgorithm.best_fitness st)
           (GeneticAlgorithm.current_best_history st)) w') ->
  triple t (GeneticAlgorithm.breed self population_size mutation_rate fitnesses st) w Q.
Proof.
  intros Hpre HQ. unfold GeneticAlgorithm.breed.
  apply wp_bind, wp_select_population.
  { intros Ht. destruct (Hpre Ht) as (_ & _ & Hpop & Hfit & _). done. }
  intros selected w1 Hw1 Hlen Hsub.
  assert (forall w' parent,
             preserved w w' -> parent ∈ selected -> t = Total ->
             has_courses self w' parent) as Hparent.
  { intros w' parent Hp Hsel Ht. destruct (Hpre Ht) as (_ & _ & _ & _ & Hall).
    rewrite Forall_forall in Hall.
    by apply (has_courses_preserved self w w' parent Hp), Hall, Hsub. }
  apply wp_bind. eapply wp_mono.
  { apply (wp_foldM (fun (pre : list Z) (acc : list addr) w' =>
             preserved w w'
             /\ length acc = (2 * length pre)%nat
             /\ Forall (fun a => (length (heap w) <= a)%nat
                                 /\ has_courses self w' a) acc)).
    - split; [by apply preserved_same|]. split; [done|constructor].
    - intros pre x post acc w2 Hl (Hp & Hacc & Hnew).
      assert (0 <= x < population_size) as Hx.
      { apply range_step2_bounds. rewrite Hl. apply elem_of_app. right.
        apply list_elem_of_here. }
      assert (Py.len selected = population_size) as Hsel.
      { unfold Py.len. rewrite Hlen. lia. }
      apply wp_bind, wp_list_getitem; [intros _; lia|]. intros parent1 Hp1.
      apply wp_bind, wp_list_getitem.
      { intros _. rewrite Hsel. apply Z.mod_pos_bound. lia. }
      intros parent2 Hp2.
      apply wp_bind, wp_crossover.
      { intros Ht. split; by apply Hparent. }
      intros w3 e1 e2 Hw3 Hsome _. apply wp_ret.
      assert (preserved w2 w3) as Hp23 by by eapply preserved_app.
      split; [by eapply preserved_trans|]. split.
      { rewrite !length_app. simpl. lia. }
      apply Forall_app. split.
      { eapply Forall_impl; [exact Hnew|]. intros a [Hge Ha]. split; [done|].
        by eapply has_courses_preserved. }
      pose proof (preserved_length w w2 Hp) as Hlen2.
      repeat constructor; try lia.
      + exists e1. split; [rewrite Hw3; apply lookup_first_of_two|].
        intros c Hc. by apply Hsome.
      + exists e2. split; [rewrite Hw3; apply lookup_second_of_two|].
        intros c Hc. by apply Hsome. }
  intros next_generation w2 (Hp & Hlen2 & Hnew).
  apply wp_bind. eapply wp_mono.
  { apply (wp_mapM (fun (pre ys : list addr) w' =>
             ys = pre
             /\ (forall a, (a < length (heap w))%nat -> heap w' !! a = heap w2 !! a)
             /\ Forall (fun a => (length (heap w) <= a)%nat
                                 /\ has_courses self w' a) next_generation)).
    - done.
    - intros pre x post ys w3 Hl (-> & Hkept & Hgen).
      assert (x ∈ next_generation) as Hx.
      { rewrite Hl. apply elem_of_app. right. apply list_elem_of_here. }
      pose proof Hgen as Hgen'. rewrite Forall_forall in Hgen'.
      destruct (Hgen' x Hx) as (Hge & d & Hd & Hc).
      apply wp_mutate.
      { intros Ht. destruct (Hpre Ht) as (Htimes & Hrooms & _). by eauto. }
      intros w4 d0 d' Hd0 Hw4 Hkeys. rewrite Hd in Hd0. injection Hd0 as <-.
      split; [done|]. split.
      + intros a Ha. rewrite Hw4, list_lookup_insert_ne by lia. by apply Hkept.
      + eapply Forall_impl; [exact Hgen|]. intros b (Hb & db & Hdb & Hcb).
        split; [done|]. destruct (decide (b = x)) as [->|Hne].
        * exists d'. split.
          { rewrite Hw4. apply list_lookup_insert_eq. by eapply lookup_lt_Some. }
          intros c Hcin. apply get_is_Some. rewrite Hkeys. by apply get_is_Some, Hc.
        * exists db. split; [|done]. by rewrite Hw4, list_lookup_insert_ne. }
  intros population w3 (-> & Hkept & Hgen). apply wp_ret. apply HQ.
  - intros a d Ha. rewrite Hkept by by eapply lookup_lt_Some. by apply Hp.
  - eapply Forall_impl; [exact Hgen|]. by intros a [_ Ha].
  - by rewrite Hlen2, range_step2_length.
Qed.

Lemma wp_init w (Q : GeneticAlgorithm.state -> world -> Prop) :
  (t = Total -> times self <> [] /\ rooms self <> []) ->
  (forall w' population,
      preserved w w' ->
      Forall (has_courses self w') population ->
      length population = Z.to_nat population_size ->
      Q (GeneticAlgorithm.State population None None []) w') ->
  triple t (GeneticAlgorithm.init self population_size) w Q.
Proof.
  intros Hne HQ. unfold GeneticAlgorithm.init.
  apply wp_bind. eapply wp_mono.
  { apply (wp_timesM (fun i (ys : list addr) w' =>
             preserved w w' /\ length ys = i
             /\ Forall (has_courses self w') ys)).
    - split; [apply preserved_refl|]. split; [done|constructor].
    - intros i ys w1 Hi (Hp & Hlen & Hys).
      apply wp_create_individual; [done|]. intros w2 d Hw2 Hd.
      assert (preserved w1 w2) as Hp12 by by eapply preserved_app.
      split; [by eapply preserved_trans|]. split.
      { rewrite length_app. simpl. lia. }
      apply Forall_app. split.
      + eapply Forall_impl; [exact Hys|]. intros a Ha.
        by eapply has_courses_preserved.
      + repeat constructor. exists d. split; [|done].
        rewrite Hw2. apply lookup_last. }
  intros population w1 (Hp & Hlen & Hys). apply wp_ret. by apply HQ.
Qed.

Lemma wp_run_loop gens st w :
  (t = Total -> loop_ready self population_size st w) ->
  best_recorded score w (GeneticAlgorithm.best_individual st)
                (GeneticAlgorithm.best_fitness st) ->
  triple t (GeneticAlgorithm.run_loop self population_size mutation_rate gens st) w
     (fun st' w' =>
        preserved w w'
        /\ best_recorded score w' (GeneticAlgorithm.best_individual st')
                         (GeneticAlgorithm.best_fitness st')).
Proof.
  revert st w. induction gens as [|gens IH]; intros st w Hpre Hbest; simpl.
  - apply wp_ret. split; [apply preserved_refl|done].
  - apply wp_bind.
    destruct (GeneticAlgorithm.evaluate self st w) as [[[fs st1] w1]|e] eqn:Hev.
    2:{ destruct t; [|by unfold triple; rewrite Hev].
        destruct (Hpre eq_refl) as (_ & _ & Hn & Hlen & Hall).
        destruct (evaluate_total self st w) as (fs & st1 & Hev').
        - intros Hnil. rewrite Hnil in Hlen. unfold Py.len in Hlen. simpl in Hlen. lia.
        - eapply Forall_impl; [exact Hall|]. apply has_courses_valid.
        - congruence. }
    destruct (evaluate_ok self st w fs st1 w1 Hev Hbest)
      as (-> & Hfs & Hpop1 & Hbest1 & _).
    eapply wp_intro; [exact Hev|]. cbv beta iota.
    destruct (decide (GeneticAlgorithm.best_fitness st1 = Some 0)).
    + apply wp_ret. split; [apply preserved_refl|done].
    + apply wp_bind. apply wp_breed.
      { intros Ht. destruct (Hpre Ht) as (Htimes & Hrooms & Hn & Hlen & Hall).
        unfold breed_ready. rewrite Hpop1, Hfs, length_fmap.
        unfold Py.len in Hlen. repeat split; try done. lia. }
      intros w2 population Hp Hgen Hsize.
      eapply wp_mono.
      { apply IH; simpl.
        - intros Ht. destruct (Hpre Ht) as (Htimes & Hrooms & Hn & _ & _).
          unfold loop_ready. simpl. repeat split; try done.
          unfold Py.len. rewrite Hsize.
          pose proof (Z.div_mod (population_size + 1) 2 ltac:(lia)).
          pose proof (Z.mod_pos_bound (population_size + 1) 2 ltac:(lia)). lia.
        - by eapply best_recorded_preserved. }
      intros st3 w3 [Hp3 Hbest3]. split; [by eapply preserved_trans|done].
Qed.

End Generation.

(** ** Failures and whole runs *)

Section Failures.

Lemma bind_raise {A B} (m : M A) (k : A -> M B) w e :
  m w = Raise e -> bind m k w = Raise e.
Proof. unfold bind. by intros ->. Qed.

Lemma wp_then_raise {A B} (m : M A) (k : A -> M B) w e :
  wp m w (fun a w' => k a w' = Raise e) -> bind m k w = Raise e.
Proof. unfold triple, bind. by destruct (m w) as [[a w']|e']. Qed.

Lemma create_individual_raises self w :
  courses self <> [] -> times self = [] \/ rooms self = [] ->
  GeneticAlgorithm.create_individual self w = Raise Py.IndexError.
Proof.
  intros Hc Hempty. unfold GeneticAlgorithm.create_individual.
  destruct (courses self) as [|c cs]; [done|].
  apply wp_then_raise, wp_alloc. intros w1 _.
  apply bind_raise. unfold for_. simpl. apply bind_raise.
  destruct (times self) as [|tm ts] eqn:Ht.
  - by apply bind_raise.
  - destruct Hempty as [?|Hr]; [done|]. rewrite Hr.
    apply wp_then_raise, wp_choice; [done|]. intros t' w2 _ _.
    by apply bind_raise.
Qed.

Lemma genetic_init_raises self n w :
  courses self <> [] -> times self = [] \/ rooms self = [] -> 1 <= n ->
  GeneticAlgorithm.init self n w = Raise Py.IndexError.
Proof.
  intros Hc Hempty Hn. unfold GeneticAlgorithm.init, timesM, Py.range_len.
  destruct (Z.to_nat n) as [|k] eqn:Hk; [lia|]. simpl.
  do 2 apply bind_raise. by apply create_individual_raises.
Qed.

Lemma annealing_init_raises self w :
  courses self <> [] -> times self = [] \/ rooms self = [] ->
  SimulatedAnnealing.init self w = Raise Py.IndexError.
Proof.
  intros Hc Hempty. unfold SimulatedAnnealing.init. apply bind_raise.
  by apply create_individual_raises.
Qed.

(** A freshly built genetic engine, then [run]. *)
Lemma wp_genetic_init_run {t} self n rate gens w :
  (t = Total -> times self <> [] /\ rooms self <> [] /\ 3 <= n) ->
  triple t (let* st := GeneticAlgorithm.init self n in
            GeneticAlgorithm.run self n rate gens st) w
     (fun r w' =>
        r.1 = GeneticAlgorithm.best_individual r.2
        /\ preserved w w'
        /\ best_recorded (GeneticScore.fitness self) w'
             (GeneticAlgorithm.best_individual r.2)
             (GeneticAlgorithm.best_fitness r.2)).
Proof.
  intros Hpre. apply wp_bind, wp_init.
  { intros Ht. destruct (Hpre Ht) as (Htimes & Hrooms & _). done. }
  intros w1 population Hp Hall Hlen. unfold GeneticAlgorithm.run.
  apply wp_bind. eapply wp_mono.
  { apply wp_run_loop; simpl; [|done].
    intros Ht. destruct (Hpre Ht) as (Htimes & Hrooms & Hn).
    unfold loop_ready, Py.len. simpl. repeat split; try done. lia. }
  intros st' w2 [Hp2 Hbest]. apply wp_ret. simpl.
  split; [done|]. split; [by eapply preserved_trans|done].
Qed.

End Failures.

(** ** The claims about the engines *)

Lemma unconditional {P : Prop} : Partial = Total -> P.
Proof. discriminate. Qed.

(** The size of a child generation, for any state [breed] can start from. *)
Lemma child_generation_size self n rate fitnesses st w :
  0 <= n -> breed_ready self fitnesses st w ->
  exists st' w',
    GeneticAlgorithm.breed self n rate fitnesses st w = Ok (st', w')
    /\ Py.len (GeneticAlgorithm.population st') = (if Z.odd n then n + 1 else n).
Proof.
  intros Hn Hready.
  apply wp_elim.
  apply wp_breed; [done|]. intros w' population _ _ Hlen. simpl.
  unfold Py.len. rewrite Hlen. pose proof (Zmod_odd n) as Hodd.
  pose proof (Z.div_mod n 2 ltac:(lia)).
  pose proof (Z.div_mod (n + 1) 2 ltac:(lia)).
  pose proof (Z.mod_pos_bound (n + 1) 2 ltac:(lia)).
  assert (0 <= (n + 1) / 2) by (apply Z.div_pos; lia).
  destruct (Z.odd n); lia.
Qed.

(** C4 (the code departs from it): with [population_size = 3] the constructor
    builds 3 schedules, but the pairing loop runs for [i = 0] and [i = 2] and
    appends two children each time, so the second generation is evaluated on
    4 schedules and 4 are left when [run] returns.  On [Sample.crowded] every
    schedule costs 1000, so the run does not stop early. *)
Theorem odd_population_grows :
  value ((let* st0 := GeneticAlgorithm.init Sample.crowded 3 in
          let* r := GeneticAlgorithm.run Sample.crowded 3 0.5%float 2 st0 in
          ret (Py.len (GeneticAlgorithm.population st0),
               Py.len (GeneticAlgorithm.population r.2),
               GeneticAlgorithm.current_best_history r.2)) Sample.fresh)
  = Some (3, 4, [-1000; -1000]).
Proof. vm_compute. reflexivity. Qed.

(** C8: if the evaluation of a generation leaves the best fitness at exactly
    0, the loop returns there, whatever the number of generations left: the
    state is the one evaluation left, the population is untouched, nothing was
    drawn, allocated or written (the world is the one the generation started
    in), the history has grown by this generation's entry only, the recorded
    best is a schedule of fitness 0, and [run] returns it. *)
Theorem early_stop (self : data) (population_size : Z) (mutation_rate : float)
    (gens : nat) (st : GeneticAlgorithm.state) (w : world)
    (fitnesses : list Z) (st1 : GeneticAlgorithm.state) (w1 : world) :
  best_recorded (GeneticScore.fitness self) w
    (GeneticAlgorithm.best_individual st) (GeneticAlgorithm.best_fitness st) ->
  GeneticAlgorithm.evaluate self st w = Ok ((fitnesses, st1), w1) ->
  GeneticAlgorithm.best_fitness st1 = Some 0 ->
  GeneticAlgorithm.run_loop self population_size mutation_rate (S gens) st w
  = Ok (st1, w)
  /\ w1 = w
  /\ GeneticAlgorithm.population st1 = GeneticAlgorithm.population st
  /\ length (GeneticAlgorithm.current_best_history st1)
     = S (length (GeneticAlgorithm.current_best_history st))
  /\ (exists a d,
        GeneticAlgorithm.best_individual st1 = Some a
        /\ heap w !! a = Some d /\ GeneticScore.fitness self d = 0)
  /\ forall generations, 0 < generations ->
       GeneticAlgorithm.run self population_size mutation_rate generations st w
       = Ok ((GeneticAlgorithm.best_individual st1, st1), w).
Proof.
  intros Hbest Hev Hzero.
  destruct (evaluate_ok self st w fitnesses st1 w1 Hev Hbest)
    as (-> & _ & Hpop & Hbest1 & cb & Hhist & _).
  assert (forall gens,
             GeneticAlgorithm.run_loop self population_size mutation_rate
               (S gens) st w = Ok (st1, w)) as Hloop.
  { intros g. simpl. unfold bind. rewrite Hev.
    by destruct (decide (GeneticAlgorithm.best_fitness st1 = Some 0)). }
  split; [apply Hloop|]. split; [done|]. split; [done|]. split.
  { rewrite Hhist, length_app. simpl. lia. }
  split.
  - unfold best_recorded in Hbest1. rewrite Hzero in Hbest1.
    destruct (GeneticAlgorithm.best_individual st1) as [a|]; [|done].
    destruct Hbest1 as (d & Hd & Hscore). by exists a, d.
  - intros generations Hgen. unfold GeneticAlgorithm.run, Py.range_len.
    destruct (Z.to_nat generations) as [|g] eqn:Hg; [lia|].
    unfold bind. by rewrite Hloop.
Qed.

Lemma early_stop_witness :
  GeneticAlgorithm.run Sample.trivial 3 0.5%float 5
    SampleState.trivial_state SampleState.trivial_world
  = Ok ((Some 0%nat,
         GeneticAlgorithm.State [0; 1; 2]%nat (Some 0%nat) (Some 0) [0]),
        SampleState.trivial_world).
Proof.
  refine (proj2 (proj2 (proj2 (proj2 (proj2
            (early_stop Sample.trivial 3 0.5%float 0
               SampleState.trivial_state SampleState.trivial_world
               [0; 0; 0]
               (GeneticAlgorithm.State [0; 1; 2]%nat (Some 0%nat) (Some 0) [0])
               SampleState.trivial_world I eq_refl eq_refl))))) 5 _).
  lia.
Defined.

(** C9: for two parents [d1] and [d2], whenever crossover returns, it returns
    two new schedules, the parents are unchanged, and for every course either
    the first child has the (time, room) pair of the first parent and the
    second child that of the second parent, or the other way round; with
    parents that assign every course of the instance, crossover returns. *)
Theorem crossover_complementary (self : data) (parent1 parent2 : addr)
    (w : world) (d1 d2 : schedule) :
  heap w !! parent1 = Some d1 ->
  heap w !! parent2 = Some d2 ->
  (forall child1 child2 w',
      GeneticAlgorithm.crossover self parent1 parent2 w = Ok ((child1, child2), w') ->
      exists e1 e2,
        heap w' !! child1 = Some e1
        /\ heap w' !! child2 = Some e2
        /\ child1 <> child2
        /\ heap w !! child1 = None /\ heap w !! child2 = None
        /\ heap w' !! parent1 = Some d1
        /\ heap w' !! parent2 = Some d2
        /\ forall c, c ∈ courses self ->
             (Py.get c e1 = Py.get c d1 /\ Py.get c e2 = Py.get c d2)
             \/ (Py.get c e1 = Py.get c d2 /\ Py.get c e2 = Py.get c d1))
  /\ ((forall c, c ∈ courses self -> is_Some (Py.get c d1)) ->
      (forall c, c ∈ courses self -> is_Some (Py.get c d2)) ->
      exists child1 child2 w',
        GeneticAlgorithm.crossover self parent1 parent2 w = Ok ((child1, child2), w')).
Proof.
  intros Hp1 Hp2.
  assert (forall t,
             (t = Total -> has_courses self w parent1 /\ has_courses self w parent2) ->
             triple t (GeneticAlgorithm.crossover self parent1 parent2) w
               (fun r w' =>
                  exists e1 e2,
                    heap w' !! r.1 = Some e1 /\ heap w' !! r.2 = Some e2
                    /\ r.1 <> r.2
                    /\ heap w !! r.1 = None /\ heap w !! r.2 = None
                    /\ preserved w w'
                    /\ forall c, c ∈ courses self -> mixes d1 d2 e1 e2 c)) as Hwp.
  { intros t Hpre. apply wp_crossover; [done|].
    intros w' e1 e2 Hw' _ Hmix. exists e1, e2. simpl.
    rewrite Hw'. split; [apply lookup_first_of_two|].
    split; [apply lookup_second_of_two|]. split; [lia|].
    split; [apply lookup_ge_None; lia|]. split; [apply lookup_ge_None; lia|].
    split; [by eapply preserved_app|]. by apply Hmix. }
  split.
  - intros child1 child2 w' Hrun.
    destruct (wlp_elim _ _ _ _ _ (Hwp Partial unconditional) Hrun)
      as (e1 & e2 & H1 & H2 & Hne & Hn1 & Hn2 & Hp & Hmix).
    exists e1, e2. repeat split; try done; by apply Hp.
  - intros Hd1 Hd2.
    destruct (wp_elim _ _ _ (Hwp Total ltac:(intros _; split; by eexists)))
      as ([child1 child2] & w' & Hrun & _).
    by exists child1, child2, w'.
Qed.

Lemma crossover_complementary_witness :
  exists child1 child2 w',
    GeneticAlgorithm.crossover Sample.uni 0%nat 1%nat SampleState.uni_world
    = Ok ((child1, child2), w').
Proof.
  apply (crossover_complementary Sample.uni 0%nat 1%nat
           SampleState.uni_world SampleState.first SampleState.second
           eq_refl eq_refl); courses_listed.
Defined.

(** * Further properties of the constraint model *)

Section Counting.

Context {A : Type} `{EqDecision A}.
Implicit Types (l ts : list A).

Lemma count_cons x y ts :
  Py.count x (y :: ts) = (if decide (y = x) then 1 else 0) + Py.count x ts.
Proof.
  unfold Py.count, Py.len. rewrite filter_cons.
  destruct (decide (y = x)); simpl; lia.
Qed.

Lemma count_nonneg x ts : 0 <= Py.count x ts.
Proof. unfold Py.count, Py.len. lia. Qed.

Lemma count_elem x ts : x ∈ ts -> 1 <= Py.count x ts.
Proof.
  induction 1 as [x ts|x y ts _ IH]; rewrite count_cons.
  - rewrite decide_True by done. pose proof (count_nonneg x ts). lia.
  - destruct (decide (y = x)); lia.
Qed.

Lemma total_app {B} (f : B -> Z) (l1 l2 : list B) :
  total f (l1 ++ l2) = total f l1 + total f l2.
Proof. unfold total. induction l1 as [|x l1 IH]; simpl; lia. Qed.

Lemma total_nonneg {B} (f : B -> Z) (l : list B) :
  (forall x, x ∈ l -> 0 <= f x) -> 0 <= total f l.
Proof.
  unfold total. induction l as [|x l IH]; intros Hf; simpl; [lia|].
  pose proof (Hf x (list_elem_of_here _ _)).
  assert (0 <= foldr (fun x s => f x + s) 0 l).
  { apply IH. intros y Hy. by apply Hf, list_elem_of_further. }
  lia.
Qed.

Lemma total_zero {B} (f : B -> Z) (l : list B) :
  (forall x, x ∈ l -> 0 <= f x) ->
  total f l = 0 <-> forall x, x ∈ l -> f x = 0.
Proof.
  induction l as [|x l IH]; intros Hf.
  - split; [by intros _ y ?%elem_of_nil|done].
  - change (total f (x :: l)) with (f x + total f l).
    pose proof (Hf x (list_elem_of_here _ _)).
    assert (forall y, y ∈ l -> 0 <= f y) as Hl
        by (intros y Hy; by apply Hf, list_elem_of_further).
    pose proof (total_nonneg f l Hl). specialize (IH Hl). split.
    + intros Hsum y Hy. apply elem_of_cons in Hy as [->|Hy]; [lia|].
      apply IH; [lia|done].
    + intros Hall. rewrite (Hall x) by apply list_elem_of_here.
      rewrite (proj2 IH); [done|]. intros y Hy. by apply Hall, list_elem_of_further.
Qed.

Lemma total_ext_in {B} (f g : B -> Z) (l : list B) :
  (forall x, x ∈ l -> f x = g x) -> total f l = total g l.
Proof.
  unfold total. induction l as [|x l IH]; intros Hfg; simpl; [done|].
  rewrite Hfg by apply list_elem_of_here. rewrite IH; [done|].
  intros y Hy. by apply Hfg, list_elem_of_further.
Qed.

Lemma total_le {B} (f g : B -> Z) (l : list B) :
  (forall x, x ∈ l -> f x <= g x) -> total f l <= total g l.
Proof.
  unfold total. induction l as [|x l IH]; intros Hfg; simpl; [done|].
  pose proof (Hfg x (list_elem_of_here _ _)).
  assert (foldr (fun x s => f x + s) 0 l <= foldr (fun x s => g x + s) 0 l).
  { apply IH. intros y Hy. by apply Hfg, list_elem_of_further. }
  lia.
Qed.

(** The accumulating loops of the source are sums. *)
Lemma fold_left_total {B} (f : B -> Z) (l : list B) (acc : Z) :
  fold_left (fun a x => a + f x) l acc = acc + total f l.
Proof.
  unfold total. revert acc. induction l as [|x l IH]; intros acc; simpl; [lia|].
  rewrite IH. lia.
Qed.

(** Occurrences of the values of a duplicate-free list [l] in [ts]. *)
Lemma total_count_nodup l ts :
  NoDup l ->
  total (fun x => Py.count x ts) l = Py.len (filter (fun y => y ∈ l) ts).
Proof.
  intros Hl. induction ts as [|y ts IH].
  - clear Hl. unfold total, Py.count, Py.len. simpl.
    induction l as [|x l IHl]; simpl; [done|]. by rewrite IHl.
  - rewrite filter_cons.
    assert (total (fun x => Py.count x (y :: ts)) l
            = (if decide (y ∈ l) then 1 else 0) + total (fun x => Py.count x ts) l)
      as ->.
    { clear IH. induction Hl as [|x l Hx Hl IHl].
      - by rewrite decide_False by by intros ?%elem_of_nil.
      - change (total ?f (x :: l)) with (f x + total f l). cbv beta.
        rewrite IHl, count_cons.
        destruct (decide (y = x)) as [->|Hne].
        + rewrite (decide_True (P := x ∈ x :: l)) by apply list_elem_of_here.
          rewrite (decide_False (P := x ∈ l)) by done. lia.
        + destruct (decide (y ∈ l)) as [Hy|Hy].
          * rewrite (decide_True (P := y ∈ x :: l)) by by apply list_elem_of_further.
            lia.
          * rewrite (decide_False (P := y ∈ x :: l)); [lia|].
            intros [?|?]%elem_of_cons; done. }
    rewrite IH. destruct (decide (y ∈ l)); unfold Py.len; simpl; lia.
Qed.

Lemma filter_in_set_of ts : filter (fun y => y ∈ Py.set_of ts) ts = ts.
Proof.
  unfold Py.set_of.
  assert (forall l, (forall y, y ∈ l -> y ∈ remove_dups ts) ->
                    filter (fun y => y ∈ remove_dups ts) l = l) as Hgen.
  { induction l as [|y l IH]; intros Hl; [done|].
    rewrite filter_cons, decide_True by apply Hl, list_elem_of_here.
    f_equal. apply IH. intros z Hz. by apply Hl, list_elem_of_further. }
  apply Hgen. intros y Hy. by apply elem_of_remove_dups.
Qed.

(** The inner loop of constraints 3, 4 and 5: for each distinct value, one
    less than its number of occurrences. *)
Lemma clash_loop ts cc :
  fold_left (fun cc t =>
               let count := Py.count t ts in
               if 1 <? count then cc + (count - 1) else cc) (Py.set_of ts) cc
  = cc + clashes ts.
Proof.
  rewrite (fold_left_pointwise_in _ (fun a t => a + (Py.count t ts - 1))).
  - rewrite fold_left_total.
    assert (forall l, total (fun t => Py.count t ts - 1) l
                      = total (fun t => Py.count t ts) l - Py.len l) as ->.
    { unfold total, Py.len. induction l as [|x l IH]; simpl; [done|].
      rewrite IH. lia. }
    rewrite total_count_nodup by apply NoDup_remove_dups.
    rewrite filter_in_set_of. reflexivity.
  - intros a t Ht. apply (proj1 (elem_of_remove_dups _ _)) in Ht.
    apply count_elem in Ht. cbv zeta.
    destruct (Z.ltb_spec 1 (Py.count t ts)); lia.
Qed.

Lemma set_of_sublist ts : Py.set_of ts `sublist_of` ts.
Proof.
  unfold Py.set_of. induction ts as [|x ts IH]; simpl; [done|].
  destruct (decide_rel _ _ _); by constructor.
Qed.

Lemma sublist_same_length l1 l2 :
  l1 `sublist_of` l2 -> (length l2 <= length l1)%nat -> l1 = l2.
Proof.
  induction 1 as [|x l1 l2 _ IH|x l1 l2 Hsub _]; simpl; intros Hlen.
  - done.
  - f_equal. apply IH. lia.
  - apply sublist_length in Hsub. lia.
Qed.

Lemma set_of_nodup ts : NoDup ts -> Py.set_of ts = ts.
Proof.
  unfold Py.set_of. induction 1 as [|x ts Hx _ IH]; simpl; [done|].
  destruct (decide_rel _ _ _); [done|]. by rewrite IH.
Qed.

Lemma clashes_nonneg ts : 0 <= clashes ts.
Proof.
  unfold clashes, Py.len. pose proof (sublist_length _ _ (set_of_sublist ts)). lia.
Qed.

Lemma clashes_zero ts : clashes ts = 0 <-> NoDup ts.
Proof.
  unfold clashes, Py.len. split.
  - intros Hlen.
    assert (Py.set_of ts = ts) as <-.
    { apply sublist_same_length; [apply set_of_sublist|lia]. }
    apply NoDup_remove_dups.
  - intros Hts. rewrite set_of_nodup by done. lia.
Qed.

End Counting.

Lemma total_perm {B} (f : B -> Z) (l1 l2 : list B) :
  l1 ≡ₚ l2 -> total f l1 = total f l2.
Proof.
  unfold total. induction 1 as [|x l1 l2 _ IH|x y l|l1 l2 l3 _ IH1 _ IH2]; simpl; lia.
Qed.

Lemma total_scale {B} (f : B -> Z) (k : Z) (l : list B) :
  total (fun x => f x * k) l = total f l * k.
Proof. unfold total. induction l as [|x l IH]; simpl; lia. Qed.

Section Grouping.

Context {K A B : Type} `{EqDecision K} (key : B -> option K) (val : B -> A).
Implicit Types (acc : Py.dict K (list A)) (l : list B).

Lemma get_setdefault_append k k' x acc :
  default [] (Py.get k (Py.setdefault_append k' x acc))
  = default [] (Py.get k acc) ++ (if decide (k = k') then [x] else []).
Proof.
  induction acc as [|[k0 xs] acc IH]; simpl.
  - destruct (decide (k = k')); done.
  - destruct (decide (k' = k0)) as [->|Hne]; simpl.
    + destruct (decide (k = k0)); simpl; [done|]. by rewrite app_nil_r.
    + destruct (decide (k = k0)) as [->|]; simpl; [|done].
      rewrite decide_False by done. by rewrite app_nil_r.
Qed.

Lemma keys_setdefault_append k x acc :
  Py.keys (Py.setdefault_append k x acc)
  = if decide (k ∈ Py.keys acc) then Py.keys acc else Py.keys acc ++ [k].
Proof.
  unfold Py.keys. induction acc as [|[k0 xs] acc IH]; csimpl.
  - destruct (decide (k ∈ [])) as [?%elem_of_nil|]; done.
  - destruct (decide (k = k0)) as [->|Hne]; csimpl.
    + destruct (decide (k0 ∈ k0 :: acc.*1)) as [|Hin]; [done|].
      destruct Hin. apply list_elem_of_here.
    + rewrite IH. destruct (decide (k ∈ acc.*1)) as [Hin|Hin];
        destruct (decide (k ∈ k0 :: acc.*1)) as [Hin'|Hin']; try done.
      * destruct Hin'. by apply list_elem_of_further.
      * apply elem_of_cons in Hin' as [?|?]; done.
Qed.

Lemma grouping_get l acc k :
  default [] (Py.get k (grouping key val l acc))
  = default [] (Py.get k acc) ++ (val <$> filter (fun b => key b = Some k) l).
Proof.
  unfold grouping. revert acc. induction l as [|b l IH]; intros acc; simpl.
  - by rewrite app_nil_r.
  - rewrite IH, filter_cons. destruct (key b) as [k'|] eqn:Hk.
    + rewrite get_setdefault_append.
      destruct (decide (k = k')) as [->|Hne].
      * rewrite decide_True by done. by rewrite <-app_assoc.
      * rewrite decide_False by congruence. by rewrite app_nil_r.
    + by rewrite decide_False by done.
Qed.

Lemma grouping_keys_nodup l acc :
  NoDup (Py.keys acc) -> NoDup (Py.keys (grouping key val l acc)).
Proof.
  unfold grouping. revert acc. induction l as [|b l IH]; intros acc Hacc; simpl; [done|].
  apply IH. destruct (key b) as [k|]; [|done].
  rewrite keys_setdefault_append. destruct (decide (k ∈ Py.keys acc)); [done|].
  apply NoDup_app. split_and!; [done| |apply NoDup_singleton].
  intros k' Hk' ->%list_elem_of_singleton. done.
Qed.

Lemma grouping_keys_elem l acc k :
  k ∈ Py.keys (grouping key val l acc)
  <-> k ∈ Py.keys acc \/ Some k ∈ key <$> l.
Proof.
  unfold grouping. revert acc. induction l as [|b l IH]; intros acc; simpl.
  - split; [by left|]. intros [?|?%elem_of_nil]; done.
  - rewrite IH, elem_of_cons. destruct (key b) as [k'|].
    + rewrite keys_setdefault_append. destruct (decide (k' ∈ Py.keys acc)).
      * split; [tauto|]. intros [?|[[= ->]|?]]; tauto.
      * rewrite elem_of_app, list_elem_of_singleton.
        split; [intros [[?| ->]|?]; tauto|]. intros [?|[[= ->]|?]]; tauto.
    + split; [tauto|]. intros [?|[?|?]]; [tauto|done|tauto].
Qed.

(** The keys of the grouping are the distinct keys of the items. *)
Lemma grouping_keys l :
  Py.keys (grouping key val l []) ≡ₚ Py.set_of (omap key l).
Proof.
  apply NoDup_Permutation.
  - apply grouping_keys_nodup. constructor.
  - apply NoDup_remove_dups.
  - intros k. rewrite grouping_keys_elem. unfold Py.set_of.
    rewrite elem_of_remove_dups, list_elem_of_omap, list_elem_of_fmap.
    split.
    + intros [?%elem_of_nil|(b & ? & ?)]; [done|]. by exists b.
    + intros (b & ? & ?). right. by exists b.
Qed.

(** A sum over the entries of a dictionary is a sum over its keys. *)
Lemma total_entries (h : K -> list A -> Z) acc :
  NoDup (Py.keys acc) ->
  total (fun e => h e.1 e.2) acc
  = total (fun k => h k (default [] (Py.get k acc))) (Py.keys acc).
Proof.
  unfold Py.keys. induction acc as [|[k xs] acc IH]; [done|].
  intros [Hk Hacc]%NoDup_cons. csimpl.
  change (total ?f (?x :: ?l)) with (f x + total f l). cbv beta. simpl.
  rewrite decide_True by done. simpl. f_equal.
  rewrite IH by done. apply total_ext_in. intros k' Hk'.
  rewrite decide_False; [done|]. by intros ->.
Qed.

Lemma grouping_total (h : K -> list A -> Z) l :
  total (fun e => h e.1 e.2) (grouping key val l [])
  = total (fun k => h k (val <$> filter (fun b => key b = Some k) l))
          (Py.set_of (omap key l)).
Proof.
  rewrite total_entries by (apply grouping_keys_nodup; constructor).
  rewrite (total_perm _ _ _ (grouping_keys l)).
  apply total_ext_in. intros k _. by rewrite grouping_get.
Qed.

End Grouping.

Lemma clash_total {A} `{EqDecision A} (ts : list A) :
  total (fun t => if 1 <? Py.count t ts then Py.count t ts - 1 else 0) (Py.set_of ts)
  = clashes ts.
Proof.
  rewrite <-(Z.add_0_l (total _ _)), <-fold_left_total, <-(Z.add_0_l (clashes ts)).
  rewrite <-clash_loop. apply fold_left_pointwise. intros a t. cbv zeta.
  destruct (1 <? Py.count t ts); lia.
Qed.

Lemma count_values {K V} `{EqDecision V} (v : V) (d : Py.dict K V) :
  Py.len (fst <$> filter (fun e => Some e.2 = Some v) d) = Py.count v (Py.values d).
Proof.
  unfold Py.count, Py.len, Py.values. f_equal. rewrite length_fmap.
  induction d as [|[k v'] d IH]; [done|]. csimpl. rewrite !filter_cons. simpl.
  destruct (decide (v' = v)) as [->|Hne].
  - rewrite decide_True by done. simpl. by rewrite IH.
  - rewrite decide_False by congruence. done.
Qed.

Lemma constraint1_clashes (individual : schedule) :
  GeneticScore.constraint1 individual = 1000 * clashes (Py.values individual).
Proof.
  unfold GeneticScore.constraint1. cbv zeta.
  change (GeneticScore.PENALTY 0) with 1000.
  rewrite (fold_left_pointwise _
             (fun a xs => a + (if 1 <? Py.len xs then Py.len xs - 1 else 0)))
    by (intros a xs; destruct (1 <? Py.len xs); lia).
  rewrite fold_left_total, Z.add_0_l.
  rewrite (fold_left_pointwise _
             (fun acc b => match Some b.2 with
                           | Some k => Py.setdefault_append k b.1 acc
                           | None => acc
                           end)) by (by intros a [c [t r]]).
  change (fold_left _ individual []) with
    (grouping (fun b : course * (time * room) => Some b.2) fst individual []).
  unfold Py.values at 1.
  assert (forall (h : list course -> Z) (d : Py.dict (time * room) (list course)),
             total h d.*2 = total (fun e => h e.2) d) as ->.
  { intros h d. unfold total. induction d as [|[k xs] d IH]; [done|]. csimpl.
    by rewrite IH. }
  rewrite (grouping_total _ _ (fun _ xs => if 1 <? Py.len xs then Py.len xs - 1 else 0)).
  assert (omap (fun b : course * (time * room) => Some b.2) individual
          = Py.values individual) as ->.
  { unfold Py.values. induction individual as [|[c v] d IH]; [done|]. csimpl.
    by rewrite IH. }
  rewrite (total_ext_in _ (fun v => if 1 <? Py.count v (Py.values individual)
                                    then Py.count v (Py.values individual) - 1 else 0)).
  - rewrite clash_total. lia.
  - intros v _. by rewrite count_values.
Qed.

Lemma constraint2_overflow (individual : schedule) course_details room_capacities :
  GeneticScore.constraint2 individual course_details room_capacities
  = 1000 * total (fun e => Z.max 0 (enrollment course_details e.1
                                    - capacity room_capacities e.2.2)) individual.
Proof.
  unfold GeneticScore.constraint2.
  rewrite (fold_left_pointwise _
             (fun a e => a + Z.max 0 (enrollment course_details e.1
                                      - capacity room_capacities e.2.2) * 1000)).
  - rewrite fold_left_total, total_scale. lia.
  - intros a [c [t r]]. cbv zeta. unfold enrollment, capacity. simpl.
    change (GeneticScore.PENALTY 1) with 1000.
    destruct (Z.ltb_spec (default 0 (Py.get r room_capacities))
                (match Py.get c course_details with
                 | Some d => default 0 (students d)
                 | None => 0
                 end)); lia.
Qed.

Lemma attribute_clashes (attr : details -> option string) (individual : schedule)
    (course_details : Py.dict course details) :
  fold_left (fun cc '(key, courses_of_key) =>
               let times_assigned :=
                 omap (fun course => fst <$> Py.get course individual)
                      courses_of_key in
               fold_left (fun cc t =>
                            let count := Py.count t times_assigned in
                            if 1 <? count then cc + (count - 1) else cc)
                         (Py.set_of times_assigned) cc)
            (fold_left (fun tc '(course, details) =>
                          match Py.truthy (attr details) with
                          | Some key => Py.setdefault_append key course tc
                          | None => tc
                          end)
                       course_details ([] : Py.dict string (list course))) 0
  = total (fun key => clashes (scheduled_times individual
                                 (members attr key course_details)))
          (attribute_values attr course_details).
Proof.
  rewrite (fold_left_pointwise _
             (fun a (e : string * list course) =>
                a + clashes (scheduled_times individual e.2)))
    by (intros a [k cs]; apply clash_loop).
  rewrite fold_left_total, Z.add_0_l.
  rewrite (fold_left_pointwise
             (fun tc '(course, details) =>
                match Py.truthy (attr details) with
                | Some key => Py.setdefault_append key course tc
                | None => tc
                end)
             (fun acc (b : course * details) =>
                match Py.truthy (attr b.2) with
                | Some k => Py.setdefault_append k b.1 acc
                | None => acc
                end)) by (by intros a [c d]).
  change (fold_left _ course_details []) with
    (grouping (fun b : course * details => Py.truthy (attr b.2)) fst course_details []).
  apply (grouping_total _ _ (fun _ cs => clashes (scheduled_times individual cs))).
Qed.

Lemma constraint5_clashes (individual : schedule) (course_conflicts : list (list course)) :
  GeneticScore.constraint5 individual course_conflicts
  = 1000 * total (fun group => clashes (scheduled_times individual group))
                 course_conflicts.
Proof.
  unfold GeneticScore.constraint5. cbv zeta.
  change (GeneticScore.PENALTY 4) with 1000.
  rewrite (fold_left_pointwise _
             (fun a group => a + clashes (scheduled_times individual group)))
    by (intros a g; apply clash_loop).
  rewrite fold_left_total. lia.
Qed.

Lemma annealing_fitness_genetic self individual :
  AnnealingScore.fitness self individual = GeneticScore.fitness self individual.
Proof.
  rewrite annealing_fitness_sum, genetic_fitness_sum.
  by rewrite annealing_constraint1, annealing_constraint2, annealing_constraint3,
    annealing_constraint4, annealing_constraint5.
Qed.

Lemma members_nil attr key cd :
  key ∉ attribute_values attr cd -> members attr key cd = [].
Proof.
  unfold attribute_values, members, Py.set_of. rewrite elem_of_remove_dups.
  intros Hkey. induction cd as [|e cd IH]; [done|].
  rewrite filter_cons. destruct (decide (Py.truthy (attr e.2) = Some key)) as [He|He].
  - destruct Hkey. csimpl. rewrite He. apply list_elem_of_here.
  - apply IH. intros Hin. apply Hkey. csimpl.
    destruct (Py.truthy (attr e.2)); [by apply list_elem_of_further|done].
Qed.

Lemma attribute_clashes_zero attr (individual : schedule) cd :
  total (fun key => clashes (scheduled_times individual (members attr key cd)))
        (attribute_values attr cd) = 0
  <-> forall key, NoDup (scheduled_times individual (members attr key cd)).
Proof.
  rewrite total_zero by (intros; apply clashes_nonneg). split.
  - intros Hall key. destruct (decide (key ∈ attribute_values attr cd)) as [Hin|Hin].
    + by apply clashes_zero, Hall.
    + rewrite members_nil by done. constructor.
  - intros Hall key _. by apply clashes_zero.
Qed.

Lemma constraint3_clashes (individual : schedule) cd :
  GeneticScore.constraint3 individual cd
  = 500 * total (fun dept => clashes (scheduled_times individual
                                        (members department dept cd)))
                (attribute_values department cd).
Proof.
  unfold GeneticScore.constraint3. cbv zeta.
  change (GeneticScore.PENALTY 2) with 500.
  rewrite (attribute_clashes department). lia.
Qed.

Lemma constraint4_clashes (individual : schedule) cd :
  GeneticScore.constraint4 individual cd
  = 1000 * total (fun teacher => clashes (scheduled_times individual
                                            (members instructor teacher cd)))
                 (attribute_values instructor cd).
Proof.
  unfold GeneticScore.constraint4. cbv zeta.
  change (GeneticScore.PENALTY 3) with 1000.
  rewrite (attribute_clashes instructor). lia.
Qed.

Lemma overflow_zero (individual : schedule) cd rc :
  total (fun e => Z.max 0 (enrollment cd e.1 - capacity rc e.2.2)) individual = 0
  <-> forall c t r, (c, (t, r)) ∈ individual -> enrollment cd c <= capacity rc r.
Proof.
  rewrite total_zero by (intros; lia). split.
  - intros Hall c t r Hin. specialize (Hall _ Hin). simpl in Hall. lia.
  - intros Hall [c [t r]] Hin. specialize (Hall _ _ _ Hin). simpl. lia.
Qed.

Lemma genetic_fitness_feasible self individual :
  GeneticScore.fitness self individual = 0 <-> feasible self individual.
Proof.
  rewrite genetic_fitness_sum.
  pose proof (constraint1_nonneg individual).
  pose proof (constraint2_nonneg individual (course_details self) (room_capacities self)).
  pose proof (constraint3_nonneg individual (course_details self)).
  pose proof (constraint4_nonneg individual (course_details self)).
  pose proof (constraint5_nonneg individual (course_conflicts self)).
  unfold feasible.
  rewrite <-(clashes_zero (Py.values individual)).
  rewrite <-(overflow_zero individual (course_details self) (room_capacities self)).
  rewrite <-(attribute_clashes_zero department), <-(attribute_clashes_zero instructor).
  assert ((forall group, group ∈ course_conflicts self ->
             NoDup (scheduled_times individual group))
          <-> total (fun group => clashes (scheduled_times individual group))
                    (course_conflicts self) = 0) as ->.
  { rewrite total_zero by (intros; apply clashes_nonneg).
    split; intros Hall g Hg; by apply clashes_zero, Hall. }
  rewrite constraint1_clashes, constraint2_overflow, constraint3_clashes,
    constraint4_clashes, constraint5_clashes in *.
  lia.
Qed.

(** X1.  Constraint 1 of either engine charges 1000 for every course whose
    (time, room) pair is already taken by a course earlier in the schedule:
    the number of courses minus the number of distinct pairs in use. *)
Theorem constraint1_counts_double_bookings (individual : schedule) :
  GeneticScore.constraint1 individual = 1000 * clashes (Py.values individual)
  /\ AnnealingScore.constraint1 individual = 1000 * clashes (Py.values individual).
Proof. split; exact (constraint1_clashes individual). Qed.

(** X2.  Constraint 2 of either engine is 1000 times the number of students
    without a seat, summed over the courses of the schedule; a course or a
    room missing from the tables counts as size 0. *)
Theorem constraint2_sums_missing_seats (self : data) (individual : schedule) :
  GeneticScore.constraint2 individual (course_details self) (room_capacities self)
  = 1000 * total (fun e => Z.max 0 (enrollment (course_details self) e.1
                                    - capacity (room_capacities self) e.2.2))
                 individual
  /\ AnnealingScore.constraint2 self individual
     = GeneticScore.constraint2 individual (course_details self) (room_capacities self).
Proof. split; [apply constraint2_overflow|apply annealing_constraint2]. Qed.

(** X3.  Constraint 3 of either engine is 500 times, summed over the distinct
    departments of the table, the number of scheduled courses of the department
    that repeat the time slot of another of its courses. *)
Theorem constraint3_counts_department_clashes (self : data) (individual : schedule) :
  GeneticScore.constraint3 individual (course_details self)
  = 500 * total (fun dept =>
                   clashes (scheduled_times individual
                              (members department dept (course_details self))))
                (attribute_values department (course_details self))
  /\ AnnealingScore.constraint3 self individual
     = GeneticScore.constraint3 individual (course_details self).
Proof. split; [apply constraint3_clashes|apply annealing_constraint3]. Qed.

(** X4.  Constraint 4 of either engine is 1000 times, summed over the distinct
    instructors of the table, the number of scheduled courses of the instructor
    that repeat the time slot of another of their courses. *)
Theorem constraint4_counts_instructor_clashes (self : data) (individual : schedule) :
  GeneticScore.constraint4 individual (course_details self)
  = 1000 * total (fun teacher =>
                    clashes (scheduled_times individual
                               (members instructor teacher (course_details self))))
                 (attribute_values instructor (course_details self))
  /\ AnnealingScore.constraint4 self individual
     = GeneticScore.constraint4 individual (course_details self).
Proof. split; [apply constraint4_clashes|apply annealing_constraint4]. Qed.

(** X5.  Constraint 5 of either engine is 1000 times, summed over the conflict
    groups, the number of scheduled members of the group (one per listing) that
    repeat the time slot of another member. *)
Theorem constraint5_counts_group_clashes (self : data) (individual : schedule) :
  GeneticScore.constraint5 individual (course_conflicts self)
  = 1000 * total (fun group => clashes (scheduled_times individual group))
                 (course_conflicts self)
  /\ AnnealingScore.constraint5 self individual
     = GeneticScore.constraint5 individual (course_conflicts self).
Proof. split; [apply constraint5_clashes|apply annealing_constraint5]. Qed.

(** X6.  For either engine the fitness of a schedule is 0 exactly when no two
    courses share a (time, room) pair, every course fits its room, and the
    scheduled courses of each department, of each instructor and of each
    conflict group have pairwise different time slots. *)
Theorem fitness_zero_iff_feasible (self : data) (individual : schedule) :
  (GeneticScore.fitness self individual = 0 <-> feasible self individual)
  /\ (AnnealingScore.fitness self individual = 0 <-> feasible self individual).
Proof.
  split; [|rewrite annealing_fitness_genetic]; apply genetic_fitness_feasible.
Qed.

Lemma set_of_perm {A} `{EqDecision A} (l l' : list A) :
  l ≡ₚ l' -> Py.set_of l ≡ₚ Py.set_of l'.
Proof.
  intros Hl. unfold Py.set_of.
  apply NoDup_Permutation; [apply NoDup_remove_dups..|].
  intros x. by rewrite !elem_of_remove_dups, Hl.
Qed.

Lemma clashes_perm {A} `{EqDecision A} (l l' : list A) :
  l ≡ₚ l' -> clashes l = clashes l'.
Proof.
  intros Hl. unfold clashes, Py.len.
  by rewrite (Permutation_length (set_of_perm _ _ Hl)), (Permutation_length Hl).
Qed.

(** The inner loop of constraints 3, 4 and 5 for an arbitrary iteration order
    of [set(times_assigned)]. *)
Lemma clash_loop_any_order {A} `{EqDecision A} (ts l : list A) (cc : Z) :
  NoDup l -> (forall t, t ∈ l <-> t ∈ ts) ->
  fold_left (fun cc t =>
               let count := Py.count t ts in
               if 1 <? count then cc + (count - 1) else cc) l cc
  = cc + clashes ts.
Proof.
  intros Hl Hts.
  rewrite (fold_left_pointwise _
             (fun a t => a + (if 1 <? Py.count t ts then Py.count t ts - 1 else 0)))
    by (intros a t; cbv zeta; destruct (1 <? Py.count t ts); lia).
  rewrite fold_left_total. f_equal. rewrite <-clash_total. apply total_perm.
  apply NoDup_Permutation; [done|apply NoDup_remove_dups|].
  intros t. unfold Py.set_of. by rewrite elem_of_remove_dups.
Qed.

Lemma get_Some_elem {K V} `{EqDecision K} (k : K) (v : V) (d : Py.dict K V) :
  NoDup (Py.keys d) -> Py.get k d = Some v <-> (k, v) ∈ d.
Proof.
  unfold Py.keys. induction d as [|[k' v'] d IH]; csimpl.
  - intros _. split; [done|]. by intros ?%elem_of_nil.
  - intros [Hk' Hd]%NoDup_cons. rewrite elem_of_cons.
    destruct (decide (k = k')) as [->|Hne].
    + split; [intros [= ->]; by left|].
      intros [[= ->]|Hin]; [done|]. destruct Hk'.
      apply list_elem_of_fmap. by exists (k', v).
    + rewrite IH by done. split; [by right|]. intros [[= -> ->]|?]; done.
Qed.

Lemma get_perm {K V} `{EqDecision K} (k : K) (d d' : Py.dict K V) :
  NoDup (Py.keys d) -> d ≡ₚ d' -> Py.get k d = Py.get k d'.
Proof.
  intros Hd Hperm.
  assert (NoDup (Py.keys d')) as Hd' by (unfold Py.keys in *; by rewrite <-Hperm).
  destruct (Py.get k d) as [v|] eqn:Hget.
  - symmetry. apply get_Some_elem; [done|]. rewrite <-Hperm. by apply get_Some_elem.
  - destruct (Py.get k d') as [v'|] eqn:Hget'; [|done].
    apply get_Some_elem in Hget'; [|done]. rewrite <-Hperm in Hget'.
    apply get_Some_elem in Hget'; [|done]. congruence.
Qed.

Lemma scheduled_times_ext (individual individual' : schedule) group :
  (forall c, Py.get c individual = Py.get c individual') ->
  scheduled_times individual group = scheduled_times individual' group.
Proof.
  intros Hget. unfold scheduled_times. apply omap_pointwise_in.
  intros c _. by rewrite Hget.
Qed.

Lemma attribute_total_perm attr (individual individual' : schedule) cd cd' :
  (forall c, Py.get c individual = Py.get c individual') -> cd ≡ₚ cd' ->
  total (fun key => clashes (scheduled_times individual (members attr key cd)))
        (attribute_values attr cd)
  = total (fun key => clashes (scheduled_times individual' (members attr key cd')))
          (attribute_values attr cd').
Proof.
  intros Hget Hcd.
  rewrite (total_perm _ _ (attribute_values attr cd')).
  - apply total_ext_in. intros key _.
    rewrite (scheduled_times_ext _ individual') by done.
    apply clashes_perm. unfold scheduled_times, members. by rewrite Hcd.
  - unfold attribute_values. apply set_of_perm. by rewrite Hcd.
Qed.

(** X7.  Constraint 2 can only grow when enrollments grow and capacities
    shrink. *)
Theorem constraint2_monotone (individual : schedule)
    (course_details course_details' : Py.dict course details)
    (room_capacities room_capacities' : Py.dict room Z) :
  (forall c, enrollment course_details c <= enrollment course_details' c) ->
  (forall r, capacity room_capacities' r <= capacity room_capacities r) ->
  GeneticScore.constraint2 individual course_details room_capacities
  <= GeneticScore.constraint2 individual course_details' room_capacities'.
Proof.
  intros Henr Hcap. rewrite !constraint2_overflow.
  apply Z.mul_le_mono_nonneg_l; [lia|]. apply total_le. intros [c [t r]] _. simpl.
  specialize (Henr c). specialize (Hcap r). lia.
Qed.

Lemma constraint2_monotone_witness :
  GeneticScore.constraint2 SampleState.first Sample.details3 [("R1", 20); ("R2", 40)]
  <= GeneticScore.constraint2 SampleState.first
       [("A", Details None (Some 35) None); ("B", Details None (Some 10) None)]
       [("R1", 10)].
Proof.
  apply constraint2_monotone.
  - intros c. unfold enrollment. simpl. repeat case_decide; simpl; lia.
  - intros r. unfold capacity. simpl. repeat case_decide; simpl; lia.
Defined.

(** X8.  The inner loop of constraints 3, 4 and 5 gives the same count in
    whatever order [set(times_assigned)] is iterated: the number of assigned
    times minus the number of distinct ones. *)
Theorem clash_count_any_set_order (individual : schedule) (group : list course)
    (order : list time) (cc : Z) :
  NoDup order ->
  (forall t, t ∈ order <-> t ∈ scheduled_times individual group) ->
  fold_left (fun cc t =>
               let count := Py.count t (scheduled_times individual group) in
               if 1 <? count then cc + (count - 1) else cc) order cc
  = cc + (Py.len (scheduled_times individual group)
          - Py.len (Py.set_of (scheduled_times individual group))).
Proof. apply clash_loop_any_order. Qed.

Lemma clash_count_any_set_order_witness :
  fold_left (fun cc t =>
               let count :=
                 Py.count t (scheduled_times SampleState.first ["A"; "B"; "C"]) in
               if 1 <? count then cc + (count - 1) else cc) ["t2"; "t1"] 0
  = 0 + (Py.len (scheduled_times SampleState.first ["A"; "B"; "C"])
         - Py.len (Py.set_of (scheduled_times SampleState.first ["A"; "B"; "C"]))).
Proof.
  apply clash_count_any_set_order.
  - apply (bool_decide_unpack _). vm_compute. exact I.
  - intros t. simpl. rewrite !elem_of_cons, !elem_of_nil. tauto.
Defined.

(** X9.  The fitness of either engine depends on the schedule and on the
    tables only as mappings, and on the conflict groups only as a collection:
    reordering the entries of the dictionaries or the list of groups does not
    change it. *)
Theorem fitness_order_independent (self self' : data) (individual individual' : schedule) :
  NoDup (Py.keys individual) ->
  NoDup (Py.keys (course_details self)) ->
  NoDup (Py.keys (room_capacities self)) ->
  individual ≡ₚ individual' ->
  course_details self ≡ₚ course_details self' ->
  room_capacities self ≡ₚ room_capacities self' ->
  course_conflicts self ≡ₚ course_conflicts self' ->
  GeneticScore.fitness self individual = GeneticScore.fitness self' individual'
  /\ AnnealingScore.fitness self individual = AnnealingScore.fitness self' individual'.
Proof.
  intros Hind Hcd Hrc Pind Pcd Prc Pcc.
  assert (forall c, Py.get c individual = Py.get c individual') as Hget
      by (intros c; by apply get_perm).
  assert (GeneticScore.fitness self individual
          = GeneticScore.fitness self' individual') as Hfit.
  { rewrite !genetic_fitness_sum, !constraint1_clashes, !constraint2_overflow,
      !constraint3_clashes, !constraint4_clashes, !constraint5_clashes.
    rewrite (clashes_perm (Py.values individual) (Py.values individual'))
      by (unfold Py.values; by rewrite Pind).
    rewrite (attribute_total_perm department individual individual'
               (course_details self) (course_details self')) by done.
    rewrite (attribute_total_perm instructor individual individual'
               (course_details self) (course_details self')) by done.
    rewrite (total_perm _ individual individual') by done.
    rewrite (total_ext_in
               (fun e => Z.max 0 (enrollment (course_details self) e.1
                                  - capacity (room_capacities self) e.2.2))
               (fun e => Z.max 0 (enrollment (course_details self') e.1
                                  - capacity (room_capacities self') e.2.2))).
    2:{ intros [c [t r]] _. unfold enrollment, capacity. simpl.
        by rewrite (get_perm c _ _ Hcd Pcd), (get_perm r _ _ Hrc Prc). }
    rewrite (total_perm _ (course_conflicts self) (course_conflicts self')) by done.
    rewrite (total_ext_in
               (fun group => clashes (scheduled_times individual group))
               (fun group => clashes (scheduled_times individual' group)))
      by (intros g _; by rewrite (scheduled_times_ext individual individual')).
    done. }
  split; [done|].
  etrans; [apply annealing_fitness_genetic|]. rewrite Hfit.
  symmetry. apply annealing_fitness_genetic.
Qed.

Lemma fitness_order_independent_witness :
  GeneticScore.fitness Sample.uni SampleState.first
  = GeneticScore.fitness
      (Data Sample.details3 ["A"; "B"; "C"] [("R2", 40); ("R1", 20)] ["R1"; "R2"]
            ["t1"; "t2"] [["A"; "C"]])
      [("B", ("t1", "R2")); ("A", ("t1", "R1")); ("C", ("t2", "R1"))]
  /\ AnnealingScore.fitness Sample.uni SampleState.first
     = AnnealingScore.fitness
         (Data Sample.details3 ["A"; "B"; "C"] [("R2", 40); ("R1", 20)] ["R1"; "R2"]
               ["t1"; "t2"] [["A"; "C"]])
         [("B", ("t1", "R2")); ("A", ("t1", "R1")); ("C", ("t2", "R1"))].
Proof.
  apply fitness_order_independent.
  - apply (bool_decide_unpack _). vm_compute. exact I.
  - apply (bool_decide_unpack _). vm_compute. exact I.
  - apply (bool_decide_unpack _). vm_compute. exact I.
  - apply perm_swap.
  - reflexivity.
  - apply perm_swap.
  - reflexivity.
Defined.

Lemma distinct_pairs_bound (individual : schedule) (ts : list time) (rs : list room) :
  (forall c t r, (c, (t, r)) ∈ individual -> t ∈ ts /\ r ∈ rs) ->
  Py.len (Py.set_of (Py.values individual)) <= Py.len ts * Py.len rs.
Proof.
  intros Hdom. unfold Py.len, Py.set_of.
  rewrite <-Nat2Z.inj_mul, <-length_prod. apply Nat2Z.inj_le.
  apply submseteq_length, NoDup_submseteq; [apply NoDup_remove_dups|].
  intros [t r] Hin. rewrite <-list_cprod_list_prod. apply list_elem_of_cprod. simpl.
  apply (proj1 (elem_of_remove_dups _ _)) in Hin. unfold Py.values in Hin.
  apply (proj1 (list_elem_of_fmap _ _ _)) in Hin as ([c [t' r']] & [= <- <-] & Hin).
  by apply (Hdom c).
Qed.

Lemma scheduled_twice (individual : schedule) (group : list course) (c : course) :
  is_Some (Py.get c individual) -> 2 <= Py.count c group ->
  1 <= clashes (scheduled_times individual group).
Proof.
  intros [[t r] Hget] Hcount.
  pose proof (clashes_nonneg (scheduled_times individual group)) as Hnonneg.
  destruct (decide (clashes (scheduled_times individual group) = 0)) as [Hzero|]; [|lia].
  apply clashes_zero in Hzero. exfalso.
  assert (forall g, NoDup (scheduled_times individual g) -> Py.count c g <= 1) as Hone.
  { clear Hcount Hzero Hnonneg. induction g as [|c' g IH]; [done|].
    unfold scheduled_times. csimpl. rewrite count_cons.
    destruct (decide (c' = c)) as [->|Hne].
    - rewrite Hget. simpl. intros [Ht Hg]%NoDup_cons.
      assert (Py.count c g = 0); [|lia].
      pose proof (count_nonneg c g).
      destruct (decide (Py.count c g = 0)) as [|Hpos]; [done|]. destruct Ht.
      apply list_elem_of_omap. exists c. split; [|by rewrite Hget].
      unfold Py.count, Py.len in Hpos.
      destruct (filter (fun y => y = c) g) as [|y l] eqn:Hfilter; [done|].
      assert (y ∈ filter (fun y => y = c) g) as Hy
          by (rewrite Hfilter; apply list_elem_of_here).
      apply list_elem_of_filter in Hy as [-> ?]. done.
    - intros Hnodup. rewrite Z.add_0_l. apply IH.
      destruct (fst <$> Py.get c' individual); [by apply NoDup_cons in Hnodup as [_ ?]|done]. }
  specialize (Hone _ Hzero). lia.
Qed.

(** X10.  A schedule that only uses the time slots and rooms of the instance
    cannot score better than -1000 for every course beyond the number of
    (time, room) pairs; with more courses than pairs no schedule reaches 0. *)
Theorem too_many_courses_bound (self : data) (individual : schedule) :
  (forall c t r, (c, (t, r)) ∈ individual -> t ∈ times self /\ r ∈ rooms self) ->
  GeneticScore.fitness self individual
    <= - (1000 * (Py.len individual - Py.len (times self) * Py.len (rooms self)))
  /\ AnnealingScore.fitness self individual
    <= - (1000 * (Py.len individual - Py.len (times self) * Py.len (rooms self))).
Proof.
  intros Hdom.
  assert (GeneticScore.fitness self individual
          <= - (1000 * (Py.len individual - Py.len (times self) * Py.len (rooms self)))).
  { rewrite genetic_fitness_sum, constraint1_clashes.
    pose proof (constraint2_nonneg individual (course_details self) (room_capacities self)).
    pose proof (constraint3_nonneg individual (course_details self)).
    pose proof (constraint4_nonneg individual (course_details self)).
    pose proof (constraint5_nonneg individual (course_conflicts self)).
    pose proof (distinct_pairs_bound individual _ _ Hdom).
    unfold clashes. replace (Py.len (Py.values individual)) with (Py.len individual)
      by (unfold Py.len, Py.values; by rewrite length_fmap).
    lia. }
  split; [done|]. by rewrite annealing_fitness_genetic.
Qed.

Lemma too_many_courses_bound_witness :
  GeneticScore.fitness Sample.crowded [("A", ("t1", "R1")); ("B", ("t1", "R1"))]
    <= - (1000 * (2 - 1 * 1))
  /\ AnnealingScore.fitness Sample.crowded [("A", ("t1", "R1")); ("B", ("t1", "R1"))]
    <= - (1000 * (2 - 1 * 1)).
Proof.
  apply (too_many_courses_bound Sample.crowded
           [("A", ("t1", "R1")); ("B", ("t1", "R1"))]).
  intros c t r Hin. rewrite !elem_of_cons, elem_of_nil in Hin.
  destruct Hin as [[= -> -> ->]|[[= -> -> ->]|[]]];
    split; apply list_elem_of_here.
Defined.

(** X11.  A conflict group that lists a scheduled course twice is charged
    whatever the schedule: the fitness of either engine is at most -1000. *)
Theorem repeated_group_member_is_charged (self : data) (individual : schedule)
    (group : list course) (c : course) :
  group ∈ course_conflicts self ->
  is_Some (Py.get c individual) ->
  2 <= Py.count c group ->
  GeneticScore.fitness self individual <= -1000
  /\ AnnealingScore.fitness self individual <= -1000.
Proof.
  intros Hgroup Hc Hcount.
  assert (GeneticScore.fitness self individual <= -1000).
  { rewrite genetic_fitness_sum, constraint5_clashes.
    pose proof (constraint1_nonneg individual).
    pose proof (constraint2_nonneg individual (course_details self) (room_capacities self)).
    pose proof (constraint3_nonneg individual (course_details self)).
    pose proof (constraint4_nonneg individual (course_details self)).
    pose proof (scheduled_twice individual group c Hc Hcount).
    assert (clashes (scheduled_times individual group)
            <= total (fun group => clashes (scheduled_times individual group))
                     (course_conflicts self)); [|lia].
    clear -Hgroup. induction Hgroup as [g gs|g g' gs _ IH].
    - change (total ?f (g :: gs)) with (f g + total f gs). cbv beta.
      pose proof (total_nonneg (fun group => clashes (scheduled_times individual group)) gs
                    (fun x _ => clashes_nonneg _)). lia.
    - change (total ?f (g' :: gs)) with (f g' + total f gs). cbv beta.
      pose proof (clashes_nonneg (scheduled_times individual g')). lia. }
  split; [done|]. by rewrite annealing_fitness_genetic.
Qed.

Lemma repeated_group_member_is_charged_witness :
  GeneticScore.fitness
    (Data [] ["A"] [("R1", 50)] ["R1"] ["t1"] [["A"; "A"]]) SampleState.lone <= -1000
  /\ AnnealingScore.fitness
       (Data [] ["A"] [("R1", 50)] ["R1"] ["t1"] [["A"; "A"]]) SampleState.lone <= -1000.
Proof.
  apply (repeated_group_member_is_charged
           (Data [] ["A"] [("R1", 50)] ["R1"] ["t1"] [["A"; "A"]])
           SampleState.lone ["A"; "A"] "A").
  - apply list_elem_of_here.
  - by eexists.
  - vm_compute. discriminate.
Defined.

(** * Further properties of the engines *)

Lemma triple_conj {t A} (m : M A) w (Q1 Q2 : A -> world -> Prop) :
  triple t m w Q1 -> wlp m w Q2 -> triple t m w (fun a w' => Q1 a w' /\ Q2 a w').
Proof. unfold triple. destruct (m w) as [[a w']|e]; [done|]. by intros ->. Qed.

Lemma wlp_weaken {t A} (m : M A) w (Q : A -> world -> Prop) :
  triple t m w Q -> wlp m w Q.
Proof. unfold triple. destruct (m w) as [[a w']|e]; done. Qed.

Section DictContents.

Context {K V : Type} `{EqDecision K}.
Implicit Types (k : K) (v : V) (d : Py.dict K V).

Lemma get_elem k v d : Py.get k d = Some v -> (k, v) ∈ d.
Proof.
  induction d as [|[k' v'] d IH]; simpl; [done|].
  destruct (decide (k = k')) as [->|Hne].
  - intros [= ->]. apply list_elem_of_here.
  - intros Hget. by apply list_elem_of_further, IH.
Qed.

Lemma elem_of_set k v d e : e ∈ Py.set k v d -> e = (k, v) \/ e ∈ d.
Proof.
  induction d as [|[k' v'] d IH]; simpl.
  - intros ->%list_elem_of_singleton. by left.
  - destruct (decide (k = k')) as [->|Hne].
    + intros [->|Hin]%elem_of_cons; [by left|]. right. by apply list_elem_of_further.
    + intros [->|Hin]%elem_of_cons; [right; apply list_elem_of_here|].
      destruct (IH Hin) as [?|?]; [by left|]. right. by apply list_elem_of_further.
Qed.

Lemma keys_set_nodup k v d : NoDup (Py.keys d) -> NoDup (Py.keys (Py.set k v d)).
Proof.
  intros Hd. destruct (Py.get k d) as [v'|] eqn:Hget.
  - rewrite keys_set; [done|]. by rewrite Hget.
  - rewrite set_fresh by done. unfold Py.keys in *. rewrite fmap_app.
    apply NoDup_app. split_and!; [done| |apply NoDup_singleton].
    intros k' Hk' Heq%list_elem_of_singleton. subst k'.
    apply (proj2 (get_is_Some _ _)) in Hk' as [? Hk']. simpl in Hk'. congruence.
Qed.

End DictContents.

Section Validity.

Variable self : data.

Lemma within_nil : within self [].
Proof. split; [constructor|]. by intros c t r ?%elem_of_nil. Qed.

Lemma within_set c t r d :
  within self d -> c ∈ courses self -> t ∈ times self -> r ∈ rooms self ->
  within self (Py.set c (t, r) d).
Proof.
  intros [Hkeys Hdom] Hc Ht Hr. split; [by apply keys_set_nodup|].
  intros c' t' r' [[= -> -> ->]|Hin]%elem_of_set; [done|]. by eapply Hdom.
Qed.

Lemma within_heap_same w w' : heap w' = heap w -> within_heap self w -> within_heap self w'.
Proof. unfold within_heap. by intros ->. Qed.

Lemma within_heap_app w w' ds :
  heap w' = heap w ++ ds -> within_heap self w -> Forall (within self) ds ->
  within_heap self w'.
Proof. unfold within_heap. intros -> ??. by apply Forall_app. Qed.

Lemma within_heap_lookup w a d :
  within_heap self w -> heap w !! a = Some d -> within self d.
Proof. unfold within_heap. rewrite Forall_lookup. eauto. Qed.

Lemma wlp_setitem_within a c t r w :
  within_heap self w -> c ∈ courses self -> t ∈ times self -> r ∈ rooms self ->
  wlp (Heap.setitem a c (t, r)) w (fun _ w' => within_heap self w').
Proof.
  intros Hw Hc Ht Hr. apply wp_setitem; [done|]. intros d w' Hd Hw'.
  unfold within_heap. rewrite Hw'. apply Forall_insert; [done|].
  apply within_set; try done. by eapply within_heap_lookup.
Qed.

Lemma wlp_getitem_within a c w (Q : time * room -> world -> Prop) :
  within_heap self w ->
  (forall t r, t ∈ times self -> r ∈ rooms self -> Q (t, r) w) ->
  wlp (Heap.getitem a c) w Q.
Proof.
  intros Hw HQ. apply wp_getitem; [done|]. intros d [t r] Hd Hget.
  destruct (within_heap_lookup _ _ _ Hw Hd) as [_ Hdom].
  destruct (Hdom c t r) as (_ & ? & ?); [by apply get_elem|]. by apply HQ.
Qed.

Lemma wlp_create_individual_within w :
  within_heap self w ->
  wlp (GeneticAlgorithm.create_individual self) w (fun _ w' => within_heap self w').
Proof.
  intros Hw. unfold GeneticAlgorithm.create_individual.
  apply wp_bind, wp_alloc. intros w1 Hw1.
  apply wp_bind. eapply wp_mono.
  { apply (wp_for_ (fun (pre : list course) w' => within_heap self w')).
    - eapply within_heap_app; [done..|]. apply Forall_singleton, within_nil.
    - intros pre x post w2 Hl Hw2.
      assert (x ∈ courses self) as Hx.
      { rewrite Hl. apply elem_of_app. right. apply list_elem_of_here. }
      apply wp_bind, wp_choice; [done|]. intros tm w3 Htm Hw3.
      apply wp_bind, wp_choice; [done|]. intros r w4 Hr Hw4.
      apply wlp_setitem_within; try done.
      eapply within_heap_same; [done|]. by eapply within_heap_same. }
  intros [] w2 Hw2. by apply wp_ret.
Qed.

Lemma wlp_mutate_within mutation_rate a w :
  within_heap self w ->
  wlp (GeneticAlgorithm.mutate self mutation_rate a) w
      (fun _ w' => within_heap self w').
Proof.
  intros Hw. unfold GeneticAlgorithm.mutate.
  apply wp_bind, wp_load; [done|]. intros d Ha.
  destruct (within_heap_lookup _ _ _ Hw Ha) as [_ Hdom].
  apply wp_bind. eapply wp_mono.
  { apply (wp_for_ (fun (pre : list course) w' => within_heap self w')); [done|].
    intros pre x post w1 Hl Hw1.
    assert (x ∈ courses self) as Hx.
    { assert (x ∈ Py.keys d) as Hin.
      { rewrite Hl. apply elem_of_app. right. apply list_elem_of_here. }
      apply get_is_Some in Hin as [[tm r] Hget].
      destruct (Hdom x tm r) as (? & _); [by apply get_elem|done]. }
    apply wp_bind, wp_random. intros u w2 Hw2.
    destruct (PrimFloat.ltb u mutation_rate).
    - apply wp_bind, wp_choice; [done|]. intros tm w3 Htm Hw3.
      apply wp_bind, wp_choice; [done|]. intros r w4 Hr Hw4.
      apply wlp_setitem_within; try done.
      eapply within_heap_same; [done|]. eapply within_heap_same; [done|].
      by eapply within_heap_same.
    - apply wp_ret. by eapply within_heap_same. }
  intros [] w1 Hw1. by apply wp_ret.
Qed.

Lemma wlp_crossover_within parent1 parent2 w :
  within_heap self w ->
  wlp (GeneticAlgorithm.crossover self parent1 parent2) w
      (fun _ w' => within_heap self w').
Proof.
  intros Hw. unfold GeneticAlgorithm.crossover.
  apply wp_bind, wp_alloc. intros w1 Hw1.
  apply wp_bind, wp_alloc. intros w2 Hw2.
  assert (within_heap self w2) as Hin2.
  { eapply within_heap_app; [done| |apply Forall_singleton, within_nil].
    eapply within_heap_app; [done..|]. apply Forall_singleton, within_nil. }
  apply wp_bind. eapply wp_mono.
  { apply (wp_for_ (fun (pre : list course) w' => within_heap self w')); [done|].
    intros pre x post w3 Hl Hw3.
    assert (x ∈ courses self) as Hx.
    { rewrite Hl. apply elem_of_app. right. apply list_elem_of_here. }
    apply wp_bind, wp_random. intros u w4 Hw4.
    assert (within_heap self w4) as Hin4 by by eapply within_heap_same.
    destruct (PrimFloat.ltb u 0.5).
    - apply wp_bind, wlp_getitem_within; [done|]. intros t1 r1 Ht1 Hr1.
      apply wp_bind. eapply wp_mono; [by apply wlp_setitem_within|].
      intros [] w5 Hin5. cbv beta.
      apply wp_bind, wlp_getitem_within; [done|]. intros t2 r2 Ht2 Hr2.
      by apply wlp_setitem_within.
    - apply wp_bind, wlp_getitem_within; [done|]. intros t2 r2 Ht2 Hr2.
      apply wp_bind. eapply wp_mono; [by apply wlp_setitem_within|].
      intros [] w5 Hin5. cbv beta.
      apply wp_bind, wlp_getitem_within; [done|]. intros t1 r1 Ht1 Hr1.
      by apply wlp_setitem_within. }
  intros [] w3 Hw3. by apply wp_ret.
Qed.

Lemma wlp_breed_within population_size mutation_rate fitnesses st w :
  within_heap self w ->
  wlp (GeneticAlgorithm.breed self population_size mutation_rate fitnesses st) w
      (fun _ w' => within_heap self w').
Proof.
  intros Hw. unfold GeneticAlgorithm.breed.
  apply wp_bind, wp_select_population; [done|]. intros selected w1 Hw1 _ _.
  apply wp_bind. eapply wp_mono.
  { apply (wp_foldM (fun (pre : list Z) (acc : list addr) w' => within_heap self w')).
    - by eapply within_heap_same.
    - intros pre x post acc w2 Hl Hw2.
      apply wp_bind, wp_list_getitem; [done|]. intros parent1 _.
      apply wp_bind, wp_list_getitem; [done|]. intros parent2 _.
      apply wp_bind. eapply wp_mono; [by apply wlp_crossover_within|].
      intros [child1 child2] w3 Hw3. by apply wp_ret. }
  intros next_generation w2 Hw2.
  apply wp_bind. eapply wp_mono.
  { apply (wp_mapM (fun (pre ys : list addr) w' => within_heap self w')); [done|].
    intros pre x post ys w3 Hl Hw3. by apply wlp_mutate_within. }
  intros population w3 Hw3. by apply wp_ret.
Qed.

Lemma wlp_init_within population_size w :
  within_heap self w ->
  wlp (GeneticAlgorithm.init self population_size) w
      (fun _ w' => within_heap self w').
Proof.
  intros Hw. unfold GeneticAlgorithm.init.
  apply wp_bind. eapply wp_mono.
  { apply (wp_timesM (fun (i : nat) (ys : list addr) w' => within_heap self w'));
      [done|].
    intros i ys w1 _ Hw1. by apply wlp_create_individual_within. }
  intros population w1 Hw1. by apply wp_ret.
Qed.

End Validity.

Lemma max_opt_snoc (l : list Z) (x : Z) :
  py_max_opt (l ++ [x])
  = Some (match py_max_opt l with Some b => Z.max b x | None => x end).
Proof.
  destruct l as [|y l]; [done|]. simpl. by rewrite fold_left_app.
Qed.

Lemma max_opt_bound (l : list Z) (b c : Z) :
  py_max_opt l = Some b -> Forall (fun f => f <= c) l -> b <= c.
Proof.
  destruct l as [|y l]; [done|]. intros [= <-] Hall.
  destruct (fold_max_upper l y) as [Hin _].
  rewrite Forall_forall in Hall. by apply Hall.
Qed.

Section GeneticRuns.

Variable self : data.
Variables (population_size : Z) (mutation_rate : float).

Local Abbreviation score := (GeneticScore.fitness self).

(** What [evaluate] does to the state when it returns. *)
Lemma evaluate_spec st w fs st1 w1 :
  GeneticAlgorithm.evaluate self st w = Ok ((fs, st1), w1) ->
  exists current_best,
    w1 = w
    /\ fs = fitness_at score w <$> GeneticAlgorithm.population st
    /\ GeneticAlgorithm.population st1 = GeneticAlgorithm.population st
    /\ GeneticAlgorithm.current_best_history st1
       = GeneticAlgorithm.current_best_history st ++ [current_best]
    /\ current_best ∈ fs
    /\ GeneticAlgorithm.best_fitness st1
       = Some (match GeneticAlgorithm.best_fitness st with
               | Some b => Z.max b current_best
               | None => current_best
               end)
    /\ (GeneticAlgorithm.best_individual st1 = GeneticAlgorithm.best_individual st
        \/ exists a, a ∈ GeneticAlgorithm.population st
                     /\ GeneticAlgorithm.best_individual st1 = Some a).
Proof.
  intros Hev. unfold GeneticAlgorithm.evaluate in Hev.
  apply bind_ok in Hev as (fs0 & w2 & Hfs & Hev).
  apply mapM_fitness_ok in Hfs as (-> & -> & Hvalid).
  apply bind_ok in Hev as (cb & w3 & Hmax & Hev).
  unfold py_max in Hmax.
  destruct (fitness_at score w <$> GeneticAlgorithm.population st)
    as [|f0 fs'] eqn:Hfs; [done|].
  injection Hmax as <- <-.
  destruct (fold_max_upper fs' f0) as [Hin Hle].
  set (cb := fold_left Z.max fs' f0) in *.
  cbv zeta in Hev. exists cb.
  destruct (GeneticAlgorithm.best_fitness st) as [b|] eqn:Hb.
  - destruct (Z.ltb_spec b cb).
    + apply bind_ok in Hev as (i & w4 & Hidx & Hev).
      apply index_from_ok in Hidx as (j & [= -> ->] & Hj).
      apply bind_ok in Hev as (ind & w5 & Hind & [= <- <- <-]).
      rewrite Z.add_0_l in Hind.
      apply list_getitem_ok in Hind as (ind' & [= <- <-] & Hind). simpl.
      repeat split; try done; [f_equal; lia|].
      right. exists ind. split; [|done]. apply list_elem_of_lookup. by eauto.
    + injection Hev as <- <- <-. simpl.
      repeat split; try done; [rewrite ?Hb; f_equal; lia|by left].
  - apply bind_ok in Hev as (i & w4 & Hidx & Hev).
    apply index_from_ok in Hidx as (j & [= -> ->] & Hj).
    apply bind_ok in Hev as (ind & w5 & Hind & [= <- <- <-]).
    rewrite Z.add_0_l in Hind.
    apply list_getitem_ok in Hind as (ind' & [= <- <-] & Hind). simpl.
    repeat split; try done.
    right. exists ind. split; [|done]. apply list_elem_of_lookup. by eauto.
Qed.

Lemma fitness_at_nonpos w a : fitness_at score w a <= 0.
Proof. apply fitness_nonpos. Qed.

(** The schedules of the population and the recorded best assign every course
    and stay within the instance. *)
Lemma wlp_run_loop_valid gens st w :
  within_heap self w ->
  Forall (has_courses self w) (GeneticAlgorithm.population st) ->
  (forall a, GeneticAlgorithm.best_individual st = Some a -> has_courses self w a) ->
  wlp (GeneticAlgorithm.run_loop self population_size mutation_rate gens st) w
      (fun st' w' =>
         within_heap self w'
         /\ Forall (has_courses self w') (GeneticAlgorithm.population st')
         /\ forall a, GeneticAlgorithm.best_individual st' = Some a ->
                      has_courses self w' a).
Proof.
  revert st w. induction gens as [|gens IH]; intros st w Hw Hpop Hbest; simpl.
  - by apply wp_ret.
  - apply wp_bind.
    destruct (GeneticAlgorithm.evaluate self st w) as [[[fs st1] w1]|e] eqn:Hev;
      [|by unfold triple; rewrite Hev].
    destruct (evaluate_spec st w fs st1 w1 Hev)
      as (cb & -> & Hfs & Hpop1 & _ & _ & _ & Hbest1).
    eapply wp_intro; [exact Hev|]. cbv beta iota.
    assert (forall a, GeneticAlgorithm.best_individual st1 = Some a ->
                      has_courses self w a) as Hbest1'.
    { intros a Ha. destruct Hbest1 as [Heq|(a' & Hin & Heq)].
      - apply Hbest. by rewrite <-Heq.
      - rewrite Forall_forall in Hpop. apply Hpop. congruence. }
    destruct (decide (GeneticAlgorithm.best_fitness st1 = Some 0)).
    + apply wp_ret. by rewrite Hpop1.
    + apply wp_bind. eapply wp_mono.
      { apply triple_conj.
        - apply (wp_breed (t := Partial) self population_size mutation_rate fs st1 w
                   (fun st2 w2 =>
                      preserved w w2
                      /\ Forall (has_courses self w2) (GeneticAlgorithm.population st2)
                      /\ GeneticAlgorithm.best_individual st2
                         = GeneticAlgorithm.best_individual st1)); [done|].
          by intros w2 population Hp Hall _.
        - by apply wlp_breed_within. }
      intros st2 w2 [(Hp & Hall & Hsame) Hw2]. cbv beta.
      apply IH; try done. intros a Ha. rewrite Hsame in Ha.
      eapply has_courses_preserved; [done|]. by apply Hbest1'.
Qed.

(** The recorded best fitness is the largest entry of the history; every
    entry but the last is negative; the loop stops short of [gens] rounds
    only with a best fitness of 0. *)
Lemma wlp_run_loop_history gens st w :
  GeneticAlgorithm.best_fitness st
  = py_max_opt (GeneticAlgorithm.current_best_history st) ->
  Forall (fun f => f <= 0) (GeneticAlgorithm.current_best_history st) ->
  wlp (GeneticAlgorithm.run_loop self population_size mutation_rate gens st) w
      (fun st' w' =>
         exists hist,
           GeneticAlgorithm.current_best_history st'
           = GeneticAlgorithm.current_best_history st ++ hist
           /\ (length hist <= gens)%nat
           /\ GeneticAlgorithm.best_fitness st'
              = py_max_opt (GeneticAlgorithm.current_best_history st')
           /\ Forall (fun f => f <= 0) hist
           /\ (forall h f, hist = h ++ [f] -> Forall (fun f => f < 0) h)
           /\ ((length hist < gens)%nat ->
               GeneticAlgorithm.best_fitness st' = Some 0)).
Proof.
  revert st w. induction gens as [|gens IH]; intros st w Hmax Hneg; simpl.
  - apply wp_ret. exists []. rewrite app_nil_r.
    repeat split; try done; [by intros [] ? ?|simpl; lia].
  - apply wp_bind.
    destruct (GeneticAlgorithm.evaluate self st w) as [[[fs st1] w1]|e] eqn:Hev;
      [|by unfold triple; rewrite Hev].
    destruct (evaluate_spec st w fs st1 w1 Hev)
      as (cb & -> & Hfs & Hpop1 & Hhist1 & Hcb & Hbest1 & _).
    eapply wp_intro; [exact Hev|]. cbv beta iota.
    assert (cb <= 0) as Hcb0.
    { rewrite Hfs in Hcb. apply list_elem_of_fmap in Hcb as (a & -> & _).
      apply fitness_at_nonpos. }
    assert (GeneticAlgorithm.best_fitness st1
            = py_max_opt (GeneticAlgorithm.current_best_history st1)) as Hmax1.
    { by rewrite Hhist1, max_opt_snoc, <-Hmax. }
    destruct (decide (GeneticAlgorithm.best_fitness st1 = Some 0)) as [Hzero|Hnonzero].
    + apply wp_ret. exists [cb]. repeat split; try done.
      * simpl. lia.
      * by repeat constructor.
      * intros h f Heq. by destruct h as [|? [|? ?]].
    + apply wp_bind.
      apply (wp_breed (t := Partial) self population_size mutation_rate fs st1 w);
        [done|].
      intros w2 population _ _ _.
      assert (cb < 0) as Hcbneg.
      { destruct (decide (cb = 0)) as [->|]; [|lia]. destruct Hnonzero.
        rewrite Hbest1. destruct (GeneticAlgorithm.best_fitness st) as [b|] eqn:Hb;
          [|done].
        symmetry in Hmax. pose proof (max_opt_bound _ _ _ Hmax Hneg). f_equal. lia. }
      eapply wp_mono.
      { apply IH; simpl; [done|]. rewrite Hhist1. apply Forall_app.
        split; [done|]. by repeat constructor. }
      intros st3 w3 (hist & Hhist3 & Hlen & Hmax3 & Hneg3 & Hlast & Hshort).
      simpl in Hhist3. exists (cb :: hist). repeat split.
      * by rewrite Hhist3, Hhist1, <-app_assoc.
      * simpl. lia.
      * done.
      * by constructor.
      * intros h f Heq. destruct h as [|x h].
        { destruct hist; [constructor|]. simpl in Heq. by destruct hist. }
        simpl in Heq. injection Heq as <- ->. constructor; [done|]. by eapply Hlast.
      * intros Hlt. apply Hshort. simpl in Hlt. lia.
Qed.

End GeneticRuns.

Section AnnealingRuns.

Context {t : mode}.
Variable self : data.
Variables (cooling_rate : float) (exp : float -> float).

Local Abbreviation score := (AnnealingScore.fitness self).

Lemma valid_at_within w a : valid_at self w a -> is_Some (heap w !! a).
Proof. intros (d & Hd & _). eauto. Qed.

Lemma valid_at_preserved w w' a :
  preserved w w' -> valid_at self w a -> valid_at self w' a.
Proof. intros Hp (d & Hd & Hvalid). exists d. split; [by apply Hp|done]. Qed.

Lemma valid_schedule_set c tm r d :
  valid_schedule self d -> c ∈ courses self -> tm ∈ times self -> r ∈ rooms self ->
  valid_schedule self (Py.set c (tm, r) d).
Proof.
  intros [Hin Hall] Hc Htm Hr. split; [by apply within_set|].
  intros c' Hc'. apply keys_set_elem. right. by apply Hall.
Qed.

(** The neighbour is a copy of the schedule with one course reassigned. *)
Lemma wp_neighbor_shape individual w (Q : addr -> world -> Prop) :
  (t = Total -> is_Some (heap w !! individual)
                /\ courses self <> [] /\ times self <> [] /\ rooms self <> []) ->
  (forall w' d c tm r,
      heap w !! individual = Some d ->
      c ∈ courses self -> tm ∈ times self -> r ∈ rooms self ->
      heap w' = heap w ++ [Py.set c (tm, r) d] ->
      Q (length (heap w)) w') ->
  triple t (SimulatedAnnealing.neighbor self individual) w Q.
Proof.
  intros Hpre HQ. unfold SimulatedAnnealing.neighbor.
  apply wp_bind, wp_copy; [intros Ht; by apply Hpre|]. intros d0 w1 Hd0 Hw1.
  apply wp_bind, wp_choice; [intros Ht; by apply Hpre|]. intros c w2 Hc Hw2.
  apply wp_bind, wp_choice; [intros Ht; by apply Hpre|]. intros tm w3 Htm Hw3.
  apply wp_bind, wp_choice; [intros Ht; by apply Hpre|]. intros r w4 Hr Hw4.
  assert (heap w4 = heap w ++ [d0]) as Hw4' by by rewrite Hw4, Hw3, Hw2.
  apply wp_bind, wp_setitem.
  { intros _. rewrite Hw4', lookup_last. by eauto. }
  intros d1 w5 Hd1 Hw5. apply wp_ret.
  rewrite Hw4', lookup_last in Hd1. injection Hd1 as <-.
  eapply HQ; try done. rewrite Hw5, Hw4'. apply insert_last.
Qed.

End AnnealingRuns.

Lemma wp_create_individual_valid {t} self w (Q : addr -> world -> Prop) :
  (t = Total -> times self <> [] /\ rooms self <> []) ->
  (forall w' d,
      heap w' = heap w ++ [d] -> valid_schedule self d -> Q (length (heap w)) w') ->
  triple t (GeneticAlgorithm.create_individual self) w Q.
Proof.
  intros Hne HQ. unfold GeneticAlgorithm.create_individual.
  apply wp_bind, wp_alloc. intros w1 Hw1.
  apply wp_bind. eapply wp_mono.
  { apply (wp_for_ (fun pre w' =>
             exists d, heap w' = heap w ++ [d] /\ within self d
                       /\ forall c, c ∈ pre -> c ∈ Py.keys d)).
    - exists []. split; [done|]. split; [apply within_nil|]. by intros c ?%elem_of_nil.
    - intros pre x post w2 Hl (d & Hw2 & Hin & Hd).
      assert (x ∈ courses self) as Hx.
      { rewrite Hl. apply elem_of_app. right. apply list_elem_of_here. }
      apply wp_bind, wp_choice; [intros Ht; by apply Hne|]. intros tm w3 Htm Hw3.
      apply wp_bind, wp_choice; [intros Ht; by apply Hne|]. intros r w4 Hr Hw4.
      assert (heap w4 !! length (heap w) = Some d) as Hlookup.
      { rewrite Hw4, Hw3, Hw2. apply lookup_last. }
      apply wp_setitem; [by eauto|].
      intros d' w5 Hd' Hw5. pose proof (eq_trans (eq_sym Hd') Hlookup) as [= ->].
      exists (Py.set x (tm, r) d). split; [|split].
      + rewrite Hw5, Hw4, Hw3, Hw2. apply insert_last.
      + by apply within_set.
      + intros c Hc. apply keys_set_elem.
        apply elem_of_app in Hc as [Hc|Hc].
        * right. by apply Hd.
        * left. by apply list_elem_of_singleton in Hc. }
  intros [] w2 (d & Hw2 & Hin & Hd). apply wp_ret. by eapply HQ.
Qed.

Lemma has_courses_valid_at self w a :
  within_heap self w -> has_courses self w a -> valid_at self w a.
Proof.
  intros Hw (d & Hd & Hall). exists d. split; [done|].
  split; [by eapply within_heap_lookup|]. intros c Hc. by apply get_is_Some, Hall.
Qed.

(** ** Binary64 arithmetic of the acceptance test *)

Section Binary64.

Import SpecFloat FloatOps FloatAxioms.

Lemma digits2_bound (p : positive) (k : Z) :
  Zpos p < 2 ^ k -> 0 <= k -> Zpos (digits2_pos p) <= k.
Proof.
  revert k. induction p as [p IH|p IH|]; intros k Hp Hk; simpl.
  - assert (k <> 0) by (intros ->; simpl in Hp; lia).
    replace k with (Z.succ (k - 1)) in Hp by lia.
    rewrite Z.pow_succ_r in Hp by lia.
    specialize (IH (k - 1)). lia.
  - assert (k <> 0) by (intros ->; simpl in Hp; lia).
    replace k with (Z.succ (k - 1)) in Hp by lia.
    rewrite Z.pow_succ_r in Hp by lia.
    specialize (IH (k - 1)). lia.
  - assert (k <> 0) by (intros ->; simpl in Hp; lia). lia.
Qed.

Lemma digits2_shift (p k : positive) :
  digits2_pos (Pos.iter xO p k) = (digits2_pos p + k)%positive.
Proof.
  induction k as [|k IH] using Pos.peano_ind; simpl.
  - lia.
  - rewrite Pos.iter_succ. simpl. rewrite IH. lia.
Qed.

Lemma shr_fexp_by (m e n : Z) (l : location) :
  fexp prec emax (Zdigits2 m + e) - e = n ->
  shr_fexp prec emax m e l = shr (shr_record_of_loc m l) e n.
Proof. unfold shr_fexp. by intros ->. Qed.

(** Rounding returns a mantissa of 53 digits with an exponent in range as
    it is. *)
Lemma binary_round_aux_exact (s : bool) (m : positive) (e : Z) :
  digits2_pos m = 53%positive -> -1074 <= e <= 971 ->
  binary_round_aux prec emax s (Zpos m) e loc_Exact = S754_finite s m e.
Proof.
  intros Hm He. unfold binary_round_aux.
  assert (fexp prec emax (Zdigits2 (Zpos m) + e) - e = 0) as Hshift.
  { simpl. rewrite Hm. unfold fexp, emin, prec, emax. lia. }
  rewrite (shr_fexp_by _ _ 0) by done. simpl.
  rewrite (shr_fexp_by _ _ 0) by done. simpl.
  replace (e <=? emax - prec) with true; [done|].
  symmetry. apply Z.leb_le. unfold prec, emax. lia.
Qed.

(** An integer of at most 53 bits is converted without rounding. *)
Lemma binary_round_small (s : bool) (m : positive) :
  Zpos m < 2 ^ 53 ->
  exists mz ez,
    binary_round prec emax s m 0 = S754_finite s mz ez
    /\ digits2_pos mz = 53%positive /\ -52 <= ez <= 0.
Proof.
  intros Hm. pose proof (digits2_bound m 53 Hm ltac:(lia)) as Hd.
  unfold binary_round, shl_align.
  destruct (fexp prec emax (Zpos (digits2_pos m) + 0) - 0) as [|k|k] eqn:Hk.
  - assert (Zpos (digits2_pos m) = 53) as Hd53.
    { unfold fexp, emin, prec, emax in Hk. lia. }
    exists m, 0. split; [|split; [congruence|lia]].
    apply binary_round_aux_exact; [congruence|lia].
  - unfold fexp, emin, prec, emax in Hk. lia.
  - assert (Zpos (digits2_pos m) + Zpos k = 53) as Hd53.
    { unfold fexp, emin, prec, emax in Hk. lia. }
    assert (digits2_pos (Pos.iter xO m k) = 53%positive) as Hdigits.
    { rewrite digits2_shift. lia. }
    exists (Pos.iter xO m k), (fexp prec emax (Zpos (digits2_pos m) + 0)).
    assert (-52 <= fexp prec emax (Zpos (digits2_pos m) + 0) <= 0).
    { unfold fexp, emin, prec, emax in *. lia. }
    split; [|done]. apply binary_round_aux_exact; [done|lia].
Qed.

Lemma digits2_lower (p : positive) : Zpos p < 2 ^ Zpos (digits2_pos p).
Proof.
  induction p as [p IH|p IH|]; simpl digits2_pos;
    rewrite ?Pos2Z.inj_succ, ?Z.pow_succ_r by lia; lia.
Qed.

Lemma Zdigits2_lower (m : Z) : 0 <= m -> m < 2 ^ Zdigits2 m.
Proof. destruct m as [|p|p]; simpl; [lia| |lia]. intros _. apply digits2_lower. Qed.

Lemma Zdigits2_bound (m k : Z) : 0 <= m < 2 ^ k -> 0 <= k -> 0 <= Zdigits2 m <= k.
Proof.
  destruct m as [|p|p]; simpl; [lia| |lia]. intros Hp Hk.
  split; [lia|]. apply digits2_bound; lia.
Qed.

Lemma shr_1_bound (r : shr_record) (k : Z) :
  0 <= k -> 0 <= shr_m r < 2 ^ (k + 1) -> 0 <= shr_m (shr_1 r) < 2 ^ k.
Proof.
  intros Hk. rewrite Z.pow_add_r by lia. change (2 ^ 1) with 2.
  destruct r as [m b s]. destruct m as [|[p|p|]|p]; simpl; lia.
Qed.

Lemma iter_shr_bound (p : positive) (r : shr_record) (k : Z) :
  0 <= k -> 0 <= shr_m r < 2 ^ (k + Zpos p) ->
  0 <= shr_m (iter_pos shr_1 p r) < 2 ^ k.
Proof.
  revert r k. induction p as [p IH|p IH|]; intros r k Hk Hr; simpl iter_pos.
  - apply IH; [done|]. apply IH; [lia|]. apply shr_1_bound; [lia|].
    by replace (k + Zpos p + Zpos p + 1) with (k + Zpos p~1) by lia.
  - apply IH; [done|]. apply IH; [lia|].
    by replace (k + Zpos p + Zpos p) with (k + Zpos p~0) by lia.
  - by apply shr_1_bound.
Qed.

Lemma shr_fexp_exponent (m e : Z) (l : location) :
  (shr_fexp prec emax m e l).2 = Z.max e (fexp prec emax (Zdigits2 m + e)).
Proof.
  unfold shr_fexp, shr.
  destruct (fexp prec emax (Zdigits2 m + e) - e) eqn:Hn; simpl; lia.
Qed.

(** What rounding keeps of a mantissa has at most 53 digits. *)
Lemma shr_fexp_mantissa (m e : Z) (l : location) :
  0 <= m -> 0 <= shr_m (shr_fexp prec emax m e l).1 < 2 ^ 53.
Proof.
  intros Hm. pose proof (Zdigits2_lower m Hm) as Hlt.
  assert (0 <= Zdigits2 m) as Hd by (destruct m; simpl; lia).
  assert (shr_m (shr_record_of_loc m l) = m) as Hrec by by destruct l as [|[]].
  unfold shr_fexp, shr.
  destruct (fexp prec emax (Zdigits2 m + e) - e) as [|p|p] eqn:Hn; simpl.
  - rewrite Hrec. split; [done|]. eapply Z.lt_le_trans; [done|].
    apply Z.pow_le_mono_r; [lia|]. unfold fexp, emin, prec, emax in Hn. lia.
  - apply iter_shr_bound; [lia|]. rewrite Hrec. split; [done|].
    eapply Z.lt_le_trans; [done|].
    apply Z.pow_le_mono_r; [lia|]. unfold fexp, emin, prec, emax in Hn. lia.
  - rewrite Hrec. split; [done|]. eapply Z.lt_le_trans; [done|].
    apply Z.pow_le_mono_r; [lia|]. unfold fexp, emin, prec, emax in Hn. lia.
Qed.

Lemma round_nearest_even_bound (m : Z) (l : location) :
  m <= round_nearest_even m l <= m + 1.
Proof. destruct l as [|[]]; simpl; try lia. destruct (Z.even m); lia. Qed.

(** Rounding does not reach infinity from an exponent of at most 970. *)
Lemma binary_round_aux_finite (s : bool) (m e : Z) (l : location) :
  0 <= m -> Z.max e (fexp prec emax (Zdigits2 m + e)) <= 970 ->
  forall s', binary_round_aux prec emax s m e l <> S754_infinity s'.
Proof.
  intros Hm He s'. unfold binary_round_aux.
  pose proof (shr_fexp_exponent m e l) as He'.
  pose proof (shr_fexp_mantissa m e l Hm) as Hm'.
  destruct (shr_fexp prec emax m e l) as [mrs' e']. simpl in He', Hm'.
  pose proof (round_nearest_even_bound (shr_m mrs') (loc_of_shr_record mrs')) as Hr.
  set (m1 := round_nearest_even (shr_m mrs') (loc_of_shr_record mrs')) in *.
  pose proof (shr_fexp_exponent m1 e' loc_Exact) as He''.
  destruct (shr_fexp prec emax m1 e' loc_Exact) as [mrs'' e'']. simpl in He''.
  destruct (Zdigits2_bound m1 54) as [_ Hd1]; [|lia|].
  { change (2 ^ 54) with (2 ^ 53 + 2 ^ 53). lia. }
  destruct (shr_m mrs''); [done| |done].
  replace (e'' <=? emax - prec) with true; [done|].
  symmetry. apply Z.leb_le. unfold fexp, emin, prec, emax in *. lia.
Qed.

(** An integer below [2^1023] in absolute value has a float. *)
Lemma binary_round_finite (s : bool) (m : positive) :
  Zpos m < 2 ^ 1023 ->
  forall s', binary_round prec emax s m 0 <> S754_infinity s'.
Proof.
  intros Hm s'. pose proof (digits2_bound m 1023 Hm ltac:(lia)) as Hd.
  unfold binary_round, shl_align.
  destruct (fexp prec emax (Zpos (digits2_pos m) + 0) - 0) as [|k|k] eqn:Hk.
  - apply binary_round_aux_finite; [lia|]. simpl Zdigits2.
    unfold fexp, emin, prec, emax in *. lia.
  - apply binary_round_aux_finite; [lia|]. simpl Zdigits2.
    unfold fexp, emin, prec, emax in *. lia.
  - apply binary_round_aux_finite; [lia|]. simpl Zdigits2.
    rewrite digits2_shift. unfold fexp, emin, prec, emax in *. lia.
Qed.

Lemma float_of_int_bounded (n : Z) :
  - 2 ^ 1023 < n < 2 ^ 1023 -> is_Some (Py.float_of_int n).
Proof.
  intros Hn. unfold Py.float_of_int.
  destruct n as [|m|m]; unfold binary_normalize; cbv beta iota.
  - by eauto.
  - pose proof (binary_round_finite false m ltac:(lia)) as Hfinite.
    destruct (binary_round prec emax false m 0) as [s'|s'| |s' m' e'];
      try by eauto. by destruct (Hfinite s').
  - pose proof (binary_round_finite true m ltac:(lia)) as Hfinite.
    destruct (binary_round prec emax true m 0) as [s'|s'| |s' m' e'];
      try by eauto. by destruct (Hfinite s').
Qed.

Lemma binary_round_aux_sign (s : bool) (m e : Z) (l : location) :
  SFsigned s (binary_round_aux prec emax s m e l).
Proof.
  unfold binary_round_aux.
  destruct (shr_fexp prec emax m e l) as [mrs' e'].
  destruct (shr_fexp prec emax _ e' loc_Exact) as [mrs'' e''].
  destruct (shr_m mrs''); [done| |done]. by destruct (e'' <=? emax - prec).
Qed.

Lemma binary_round_sign (s : bool) (m : positive) (e : Z) :
  SFsigned s (binary_round prec emax s m e).
Proof.
  unfold binary_round. destruct (shl_align m e _) as [mz ez].
  apply binary_round_aux_sign.
Qed.

(** The float of a negative mantissa is not positive. *)
Lemma SF2Prim_negative (m : positive) (e : Z) :
  SFnonpos (Prim2SF (SF2Prim (S754_finite true m e))).
Proof.
  unfold SF2Prim. cbv zeta. rewrite opp_spec, Z_ldexp_spec, of_uint63_spec.
  pose proof (Uint63.to_Z_bounded (Uint63.of_Z (Zpos m))) as [Hpos _].
  destruct (Uint63.to_Z (Uint63.of_Z (Zpos m))) as [|p|p]; [done| |lia].
  unfold binary_normalize.
  pose proof (binary_round_sign false p 0) as Hsign.
  destruct (binary_round prec emax false p 0) as [s'|s'| |s' m' e']; simpl in *;
    try subst s'; try done.
  pose proof (binary_round_sign false m' (e' + e)) as Hsign'.
  destruct (binary_round prec emax false m' (e' + e)) as [s'|s'| |s' m'' e''];
    simpl in *; try subst s'; done.
Qed.

(** [float(n)] is not positive when [n] is not. *)
Lemma float_of_int_sign (n : Z) (x : float) :
  n <= 0 -> Py.float_of_int n = Some x -> SFnonpos (Prim2SF x).
Proof.
  intros Hn. unfold Py.float_of_int.
  destruct n as [|m|m]; [|lia|]; unfold binary_normalize; cbv beta iota.
  - by intros [= <-].
  - pose proof (binary_round_sign true m 0) as Hsign.
    destruct (binary_round prec emax true m 0) as [s'|s'| |s' m' e'];
      simpl in Hsign; try subst s'; intros [= <-]; try done.
    apply SF2Prim_negative.
Qed.

(** A temperature that the loop does not stop at is positive or not a
    number; it is not zero. *)
Lemma above_floor (temperature : float) :
  PrimFloat.leb temperature SimulatedAnnealing.freeze_floor = false ->
  SFabove (Prim2SF temperature) /\ PrimFloat.eqb temperature 0 = false.
Proof.
  rewrite leb_spec, eqb_spec.
  change (Prim2SF SimulatedAnnealing.freeze_floor)
    with (S754_finite false 7737125245533627 (-86)).
  change (Prim2SF 0) with (S754_zero false).
  destruct (Prim2SF temperature) as [[]|[]| |[] m e]; simpl; try done.
Qed.

(** A number that is not positive, divided by such a temperature, is not
    positive. *)
Lemma quotient_not_positive (x temperature : float) :
  SFnonpos (Prim2SF x) -> SFabove (Prim2SF temperature) ->
  PrimFloat.ltb 0 (PrimFloat.div x temperature) = false.
Proof.
  rewrite ltb_spec, div_spec.
  change (Prim2SF 0) with (S754_zero false).
  destruct (Prim2SF x) as [[]|[]| |[] mx ex]; try done;
    destruct (Prim2SF temperature) as [[]|[]| |[] my ey]; try done.
  intros _ _. unfold SF64div, SFdiv.
  destruct (SFdiv_core_binary prec emax (Zpos mx) ex (Zpos my) ey) as [[mz ez] lz].
  pose proof (binary_round_aux_sign (xorb true false) mz ez lz) as Hsign.
  destruct (binary_round_aux prec emax (xorb true false) mz ez lz) as [s|s| |s m e];
    try done; simpl in Hsign; by subst s.
Qed.

(** Zero divided by a temperature that is a number above the floor is zero. *)
Lemma zero_quotient (temperature : float) :
  PrimFloat.ltb SimulatedAnnealing.freeze_floor temperature = true ->
  PrimFloat.div 0 temperature = 0%float.
Proof.
  intros Hlt. apply Prim2SF_inj. revert Hlt. rewrite ltb_spec, div_spec.
  change (Prim2SF SimulatedAnnealing.freeze_floor)
    with (S754_finite false 7737125245533627 (-86)).
  change (Prim2SF 0) with (S754_zero false).
  destruct (Prim2SF temperature) as [[]|[]| |[] m e]; simpl; try done.
Qed.

Lemma above_floor_strict (temperature : float) :
  PrimFloat.ltb SimulatedAnnealing.freeze_floor temperature = true ->
  PrimFloat.leb temperature SimulatedAnnealing.freeze_floor = false.
Proof.
  rewrite ltb_spec, leb_spec.
  change (Prim2SF SimulatedAnnealing.freeze_floor)
    with (S754_finite false 7737125245533627 (-86)).
  destruct (Prim2SF temperature) as [[]|[]| |[] m e]; try done.
  unfold SFltb, SFleb, SFcompare. rewrite (Z.compare_antisym (-86) e).
  destruct (-86 ?= e); cbn [CompOpp]; try done.
  pose proof (Pos.compare_cont_antisym 7737125245533627 m Eq) as Hanti.
  cbn [CompOpp] in Hanti. rewrite <-Hanti.
  by destruct (Pos.compare_cont Eq 7737125245533627 m).
Qed.

Lemma div_eucl_shift (m : positive) :
  Z.div_eucl (Z.shiftl (Zpos m) 53) 4503599627370496 = (Zpos m~0, 0).
Proof.
  rewrite Z.shiftl_mul_pow2 by lia.
  pose proof (Z.div_eucl_eq (Zpos m * 2 ^ 53) 4503599627370496 ltac:(lia)) as Heq.
  pose proof (Z.mod_pos_bound (Zpos m * 2 ^ 53) 4503599627370496 ltac:(lia)) as Hlt.
  unfold Z.modulo in Hlt.
  destruct (Z.div_eucl (Zpos m * 2 ^ 53) 4503599627370496) as [q r].
  change (2 ^ 53) with (2 * 4503599627370496) in Heq.
  assert (q = Zpos m~0) by nia. assert (r = 0) by nia. congruence.
Qed.

(** Division by [2^53] lowers the exponent and keeps the mantissa. *)
Lemma div_by_two53 (m : positive) (e : Z) :
  digits2_pos m = 53%positive -> -52 <= e <= 0 ->
  SFdiv prec emax (S754_finite false m e) (S754_finite false 4503599627370496 1)
  = S754_finite false m (e - 53).
Proof.
  intros Hm He. unfold SFdiv, SFdiv_core_binary.
  change (Zdigits2 (Zpos m)) with (Zpos (digits2_pos m)). rewrite Hm.
  change (Zdigits2 4503599627370496) with 53.
  replace (Z.min (fexp prec emax (53 + e - (53 + 1))) (e - 1)) with (e - 54)
    by (unfold fexp, emin, prec, emax; lia).
  replace (e - 1 - (e - 54)) with 53 by lia. cbv beta iota zeta.
  rewrite div_eucl_shift.
  change (new_location 4503599627370496 0) with loc_Exact.
  change (xorb false false) with false.
  unfold binary_round_aux.
  rewrite (shr_fexp_by _ _ 1).
  2:{ change (Zdigits2 (Zpos m~0)) with (Zpos (Pos.succ (digits2_pos m))).
      rewrite Hm. unfold fexp, emin, prec, emax. lia. }
  unfold shr. cbn [iter_pos shr_record_of_loc shr_1 orb loc_of_shr_record shr_m
                   round_nearest_even].
  rewrite (shr_fexp_by _ _ 0).
  2:{ change (Zdigits2 (Zpos m)) with (Zpos (digits2_pos m)).
      rewrite Hm. unfold fexp, emin, prec, emax. lia. }
  cbn [shr shr_record_of_loc shr_m].
  replace (e - 54 + 1 <=? emax - prec) with true
    by (symmetry; apply Z.leb_le; unfold prec, emax; lia).
  f_equal. lia.
Qed.

(** [random.random()] is below 1. *)
Lemma unit_float_below_one (k : Z) : PrimFloat.ltb (Random.unit_float k) 1 = true.
Proof.
  unfold Random.unit_float. rewrite ltb_spec, div_spec, !of_uint63_spec.
  change (Prim2SF 1) with (S754_finite false 4503599627370496 (-52)).
  change (binary_normalize prec emax (Uint63.to_Z (Uint63.of_Z Random.two53)) 0 false)
    with (S754_finite false 4503599627370496 1).
  pose proof (Z.mod_pos_bound k Random.two53 ltac:(done)) as Hk.
  rewrite Uint63.of_Z_spec, Z.mod_small
    by (change Random.two53 with 9007199254740992 in *;
        change Uint63.wB with 9223372036854775808; lia).
  destruct (k mod Random.two53) as [|m|m]; [done| |lia].
  unfold binary_normalize.
  destruct (binary_round_small false m) as (mz & ez & -> & Hmz & Hez); [apply Hk|].
  unfold SF64div. rewrite div_by_two53 by done.
  unfold SFltb, SFcompare.
  by replace (ez - 53 ?= -52) with Lt by (symmetry; apply Z.compare_lt_iff; lia).
Qed.

End Binary64.

(** ** A bound on the cost of a schedule *)

Lemma total_add {B} (f g : B -> Z) (l : list B) :
  total (fun x => f x + g x) l = total f l + total g l.
Proof. unfold total. induction l as [|x l IH]; simpl; lia. Qed.

Lemma total_zeros {B} (l : list B) : total (fun _ => 0) l = 0.
Proof. unfold total. induction l as [|x l IH]; simpl; lia. Qed.

Lemma total_elem_le {B} (f : B -> Z) (l : list B) (x : B) :
  (forall y, 0 <= f y) -> x ∈ l -> f x <= total f l.
Proof.
  intros Hf Hx. apply list_elem_of_split in Hx as (l1 & l2 & ->).
  rewrite total_app. simpl.
  pose proof (total_nonneg f l1 (fun y _ => Hf y)).
  pose proof (total_nonneg f l2 (fun y _ => Hf y)). lia.
Qed.

Lemma total_subseteq {B} (f : B -> Z) (l l' : list B) :
  (forall y, 0 <= f y) -> NoDup l -> l ⊆ l' -> total f l <= total f l'.
Proof.
  intros Hf Hl Hsub.
  destruct (submseteq_Permutation l l') as [k Hk]; [by apply NoDup_submseteq|].
  rewrite (total_perm f _ _ Hk), total_app.
  pose proof (total_nonneg f k (fun y _ => Hf y)). lia.
Qed.

Lemma clashes_le_len {A} `{EqDecision A} (l : list A) : clashes l <= Py.len l.
Proof. unfold clashes, Py.len. lia. Qed.

Lemma scheduled_times_len (individual : schedule) (group : list course) :
  Py.len (scheduled_times individual group) <= Py.len group.
Proof.
  unfold scheduled_times, Py.len.
  induction group as [|c group IH]; csimpl; [done|].
  destruct (fst <$> Py.get c individual); simpl; lia.
Qed.

(** The lists of courses by attribute value share no entry of the table. *)
Lemma members_len (attr : details -> option string) (cd : Py.dict course details)
    (keys : list string) :
  NoDup keys -> total (fun key => Py.len (members attr key cd)) keys <= Py.len cd.
Proof.
  intros Hkeys. unfold members, Py.len.
  rewrite (total_ext_in _
             (fun key => Z.of_nat (length (filter
                (fun e : course * details => Py.truthy (attr e.2) = Some key) cd))))
    by (intros key _; by rewrite length_fmap).
  induction cd as [|e cd IH].
  - rewrite (total_ext_in _ (fun _ => 0)) by done. by rewrite total_zeros.
  - rewrite (total_ext_in _
               (fun key => (if decide (Py.truthy (attr e.2) = Some key) then 1 else 0)
                           + Z.of_nat (length (filter
                               (fun e : course * details =>
                                  Py.truthy (attr e.2) = Some key) cd)))).
    2:{ intros key _. rewrite filter_cons.
        destruct (decide (Py.truthy (attr e.2) = Some key)); simpl; lia. }
    rewrite total_add.
    assert (total (fun key => if decide (Py.truthy (attr e.2) = Some key)
                              then 1 else 0) keys <= 1) as Hone.
    { clear IH. induction Hkeys as [|k keys Hk _ IH]; simpl; [lia|].
      destruct (decide (Py.truthy (attr e.2) = Some k)) as [He|He]; [|lia].
      rewrite (total_ext_in _ (fun _ => 0)); [rewrite total_zeros; lia|].
      intros k' Hk'. destruct (decide _) as [He'|]; [|done]. congruence. }
    simpl length. lia.
Qed.

Lemma attribute_bound (attr : details -> option string) (individual : schedule)
    (cd : Py.dict course details) :
  total (fun key => clashes (scheduled_times individual (members attr key cd)))
        (attribute_values attr cd)
  <= Py.len cd.
Proof.
  etrans; [|apply (members_len attr cd (attribute_values attr cd))].
  - apply total_le. intros key _.
    etrans; [apply clashes_le_len|apply scheduled_times_len].
  - apply NoDup_remove_dups.
Qed.

Lemma within_len (self : data) (d : schedule) :
  within self d -> Py.len d <= Py.len (courses self).
Proof.
  intros [Hkeys Hdom]. unfold Py.len.
  assert (Py.keys d ⊆+ courses self) as Hsub.
  { apply NoDup_submseteq; [done|]. intros c Hc.
    apply (proj2 (get_is_Some _ _)) in Hc as [[tm r] Hget].
    by destruct (Hdom c tm r (get_elem _ _ _ Hget)). }
  apply submseteq_length in Hsub. unfold Py.keys in Hsub.
  rewrite length_fmap in Hsub. lia.
Qed.

Lemma within_missing_seats (self : data) (d : schedule) :
  within self d ->
  total (fun e => Z.max 0 (enrollment (course_details self) e.1
                           - capacity (room_capacities self) e.2.2)) d
  <= missing_seats self.
Proof.
  intros [Hkeys Hdom]. unfold missing_seats.
  set (seats c r := Z.max 0 (enrollment (course_details self) c
                             - capacity (room_capacities self) r)).
  set (row c := total (seats c) (rooms self)).
  etrans; [apply (total_le _ (fun e => row e.1))|].
  - intros [c [tm r]] Hin. simpl. destruct (Hdom c tm r Hin) as (_ & _ & Hr).
    apply (total_elem_le (seats c)); [|done]. intros r'. unfold seats. lia.
  - assert (total (fun e : course * (time * room) => row e.1) d
            = total row (Py.keys d)) as ->.
    { unfold Py.keys, total. clear. induction d as [|e d IH]; simpl; [done|].
      by rewrite IH. }
    apply total_subseteq; [|done|].
    + intros c. apply total_nonneg. intros r _. lia.
    + intros c Hc. apply (proj2 (get_is_Some _ _)) in Hc as [[tm r] Hget].
      by destruct (Hdom c tm r (get_elem _ _ _ Hget)).
Qed.

(** No schedule of the instance costs more than [cost_bound]. *)
Lemma fitness_lower_bound (self : data) (d : schedule) :
  within self d -> - cost_bound self <= AnnealingScore.fitness self d.
Proof.
  intros Hd. rewrite annealing_fitness_genetic, genetic_fitness_sum.
  rewrite constraint1_clashes, constraint2_overflow, constraint3_clashes,
    constraint4_clashes, constraint5_clashes.
  pose proof (clashes_le_len (Py.values d)) as H1.
  assert (Py.len (Py.values d) = Py.len d) as Hlen.
  { unfold Py.len, Py.values. by rewrite length_fmap. }
  pose proof (within_len self d Hd) as Hcourses.
  pose proof (within_missing_seats self d Hd) as H2.
  pose proof (attribute_bound department d (course_details self)) as H3.
  pose proof (attribute_bound instructor d (course_details self)) as H4.
  assert (total (fun group => clashes (scheduled_times d group)) (course_conflicts self)
          <= total Py.len (course_conflicts self)) as H5.
  { apply total_le. intros group _.
    etrans; [apply clashes_le_len|apply scheduled_times_len]. }
  unfold cost_bound. lia.
Qed.

Lemma annealing_fitness_nonpos (self : data) (d : schedule) :
  AnnealingScore.fitness self d <= 0.
Proof. rewrite annealing_fitness_genetic. apply fitness_nonpos. Qed.

(** ** The acceptance test *)

Lemma wp_truediv {t} (n : Z) (y : float) w (Q : float -> world -> Prop) :
  (t = Total -> is_Some (Py.float_of_int n) /\ PrimFloat.eqb y 0 = false) ->
  (forall x, Py.float_of_int n = Some x -> Q (PrimFloat.div x y) w) ->
  triple t (truediv n y) w Q.
Proof.
  intros Hpre HQ. unfold truediv.
  destruct (Py.float_of_int n) as [x|] eqn:Hx.
  - destruct (PrimFloat.eqb y 0) eqn:Hy.
    + unfold triple, raise. destruct t; [|done].
      destruct (Hpre eq_refl) as [_ ?]. congruence.
    + apply wp_ret. by apply HQ.
  - unfold triple, raise. destruct t; [|done].
    destruct (Hpre eq_refl) as [[? ?] _]. congruence.
Qed.

Lemma wp_math_exp {t} (libm_exp : float -> float) (x : float) w
    (Q : float -> world -> Prop) :
  (t = Total ->
   (PrimFloat.is_nan (libm_exp x) = true -> PrimFloat.is_nan x = true)
   /\ PrimFloat.is_infinity (libm_exp x) = false) ->
  Q (libm_exp x) w ->
  triple t (Math.exp libm_exp x) w Q.
Proof.
  intros Hpre HQ. unfold Math.exp. cbv zeta.
  destruct (PrimFloat.is_nan (libm_exp x) && negb (PrimFloat.is_nan x)) eqn:Hnan.
  { unfold triple, raise. destruct t; [|done].
    destruct (Hpre eq_refl) as [Hx _].
    apply andb_prop in Hnan as [Hr Hnot]. rewrite (Hx Hr) in Hnot. done. }
  destruct (PrimFloat.is_infinity (libm_exp x) && PrimFloat.is_finite x) eqn:Hinf.
  { unfold triple, raise. destruct t; [|done].
    destruct (Hpre eq_refl) as [_ Hr]. by rewrite Hr in Hinf. }
  by apply wp_ret.
Qed.

(** The test draws one number and leaves the heap as it is.  It returns when
    the move improves, and otherwise when [delta] is above [-2^1023], the
    temperature is not at or below the floor, and [exp] is regular. *)
Lemma wp_accept {t} (exp : float -> float) (delta : Z) (temperature : float) w
    (Q : bool -> world -> Prop) :
  (t = Total ->
   - 2 ^ 1023 < delta
   /\ PrimFloat.leb temperature SimulatedAnnealing.freeze_floor = false
   /\ exp_regular exp) ->
  (forall b w', heap w' = heap w -> Q b w') ->
  triple t (SimulatedAnnealing.accept exp delta temperature) w Q.
Proof.
  intros Hpre HQ. unfold SimulatedAnnealing.accept.
  destruct (Z.ltb_spec 0 delta) as [Hpos|Hneg]; [by apply wp_ret, HQ|].
  apply wp_bind, wp_random. intros u w1 Hw1.
  apply wp_bind, wp_truediv.
  { intros Ht. destruct (Hpre Ht) as (Hdelta & Hfloor & _).
    split; [|by apply above_floor].
    apply float_of_int_bounded. pose proof (Z.pow_pos_nonneg 2 1023). lia. }
  intros x Hx. apply wp_bind, wp_math_exp.
  { intros Ht. destruct (Hpre Ht) as (Hdelta & Hfloor & Hexp).
    apply Hexp, quotient_not_positive; [|by apply above_floor].
    by apply (float_of_int_sign delta). }
  apply wp_ret. by apply HQ.
Qed.

(** What the test computes when the move does not improve. *)
Lemma accept_worse (exp : float -> float) (delta : Z) (temperature x : float) w :
  delta <= 0 ->
  Py.float_of_int delta = Some x ->
  PrimFloat.eqb temperature 0 = false ->
  PrimFloat.is_nan (exp (PrimFloat.div x temperature))
  && negb (PrimFloat.is_nan (PrimFloat.div x temperature)) = false ->
  PrimFloat.is_infinity (exp (PrimFloat.div x temperature))
  && PrimFloat.is_finite (PrimFloat.div x temperature) = false ->
  SimulatedAnnealing.accept exp delta temperature w
  = Ok (PrimFloat.ltb (Random.unit_float (oracle w (cursor w)))
                      (exp (PrimFloat.div x temperature)),
        World (heap w) (oracle w) (S (cursor w))).
Proof.
  intros Hdelta Hx Hy Hnan Hinf. unfold SimulatedAnnealing.accept.
  replace (0 <? delta) with false by (symmetry; apply Z.ltb_ge; lia).
  unfold bind, Random.random, Random.draw, bind, ret, truediv. simpl.
  rewrite Hx, Hy. unfold Math.exp, ret. cbv zeta. by rewrite Hnan, Hinf.
Qed.

(** The test raises when [delta] has no float. *)
Lemma accept_overflow (exp : float -> float) (delta : Z) (temperature : float) w :
  delta <= 0 -> Py.float_of_int delta = None ->
  SimulatedAnnealing.accept exp delta temperature w = Raise Py.OverflowError.
Proof.
  intros Hdelta Hx. unfold SimulatedAnnealing.accept.
  replace (0 <? delta) with false by (symmetry; apply Z.ltb_ge; lia).
  unfold bind, Random.random, Random.draw, bind, ret, truediv. simpl.
  by rewrite Hx.
Qed.

Lemma coin_regular : exp_regular SampleState.coin.
Proof. intros x _. split; [|reflexivity]. intros Hnan. vm_compute in Hnan. done. Qed.

Lemma step_regular : exp_regular SampleState.step.
Proof.
  intros x _. unfold SampleState.step.
  destruct (PrimFloat.ltb x 0); (split; [|reflexivity]);
    intros Hnan; vm_compute in Hnan; done.
Qed.

Lemma uni_ready :
  courses Sample.uni <> [] /\ times Sample.uni <> [] /\ rooms Sample.uni <> []
  /\ cost_bound Sample.uni < 2 ^ 1023 /\ exp_regular SampleState.coin.
Proof. do 4 (split; [done|]). apply coin_regular. Qed.


(** ** The annealing loop *)

Section Annealing.

Context {t : mode}.
Variable self : data.
Variables (initial_temperature cooling_rate : float) (max_iter : Z).
Variable exp : float -> float.
Hypothesis ready :
  t = Total ->
  courses self <> [] /\ times self <> [] /\ rooms self <> []
  /\ cost_bound self < 2 ^ 1023 /\ exp_regular exp.

Local Abbreviation score := (AnnealingScore.fitness self).

Lemma wp_annealing_fitness a d w (Q : Z -> world -> Prop) :
  heap w !! a = Some d -> Q (score d) w ->
  triple t (SimulatedAnnealing.fitness self a) w Q.
Proof.
  intros Ha HQ. unfold SimulatedAnnealing.fitness.
  apply wp_bind, wp_load; [by eauto|]. intros d' Hd'.
  apply wp_ret. by replace d' with d by congruence.
Qed.

Lemma wp_neighbor individual w (Q : addr -> world -> Prop) :
  (t = Total -> is_Some (heap w !! individual)) ->
  (forall w' d d',
      heap w !! individual = Some d -> heap w' = heap w ++ [d'] ->
      Q (length (heap w)) w') ->
  triple t (SimulatedAnnealing.neighbor self individual) w Q.
Proof.
  intros Hd HQ. apply wp_neighbor_shape.
  - intros Ht. split; [by apply Hd|]. destruct (ready Ht) as (? & ? & ? & _). done.
  - intros w' d c tm r Hind _ _ _ Hw'. by eapply HQ.
Qed.

Lemma wp_annealing_run_loop iters current current_fitness temperature st w
    d h0 f0 hist :
  heap w !! current = Some d ->
  score d = current_fitness ->
  (t = Total -> valid_schedule self d) ->
  best_recorded score w (SimulatedAnnealing.best_individual st)
                (SimulatedAnnealing.best_fitness st) ->
  SimulatedAnnealing.best_fitness st = Some (fold_left Z.max hist f0) ->
  SimulatedAnnealing.fitness_history st = h0 ++ hist ->
  triple t (SimulatedAnnealing.run_loop self cooling_rate exp iters
        current current_fitness temperature st) w
     (fun st' w' =>
        preserved w w'
        /\ SimulatedAnnealing.current st' = SimulatedAnnealing.current st
        /\ best_recorded score w' (SimulatedAnnealing.best_individual st')
                         (SimulatedAnnealing.best_fitness st')
        /\ exists hist',
            SimulatedAnnealing.fitness_history st' = h0 ++ hist'
            /\ SimulatedAnnealing.best_fitness st'
               = Some (fold_left Z.max hist' f0)).
Proof.
  revert current current_fitness temperature st w d hist.
  induction iters as [|iters IH];
    intros current current_fitness temperature st w d hist
           Hd Hcf Hvalid Hbest Hbf Hhist;
    simpl.
  { apply wp_ret. split; [apply preserved_refl|]. by eauto. }
  destruct (PrimFloat.leb (PrimFloat.mul temperature cooling_rate)
                          SimulatedAnnealing.freeze_floor) eqn:Hfloor.
  { apply wp_ret. split; [apply preserved_refl|]. by eauto. }
  apply wp_bind, wp_neighbor_shape.
  { intros Ht. split; [by eauto|]. destruct (ready Ht) as (? & ? & ? & _). done. }
  intros w1 d0 c tm r Hd0 Hc Htm Hr Hw1.
  replace d0 with d in * by congruence. clear Hd0.
  set (d' := Py.set c (tm, r) d) in *.
  assert (heap w1 !! length (heap w) = Some d') as Hcand.
  { rewrite Hw1. apply lookup_last. }
  assert (t = Total -> valid_schedule self d') as Hvalid'.
  { intros Ht. apply valid_schedule_set; auto. }
  eapply wp_bind, wp_annealing_fitness; [done|].
  apply wp_bind, wp_accept.
  { intros Ht. destruct (ready Ht) as (_ & _ & _ & Hbound & Hexp).
    split; [|done].
    pose proof (fitness_lower_bound self d' (proj1 (Hvalid' Ht))).
    pose proof (annealing_fitness_nonpos self d).
    fold score in *. lia. }
  intros accept w2 Hw2.
  assert (preserved w w2) as Hp.
  { eapply preserved_trans; [by eapply preserved_app|by apply preserved_same]. }
  set (current' := if accept then length (heap w) else current).
  set (fitness' := if accept then score d' else current_fitness).
  assert (exists d2, heap w2 !! current' = Some d2 /\ score d2 = fitness'
                     /\ (t = Total -> valid_schedule self d2))
    as (d2 & Hd2 & Hf2 & Hvalid2).
  { subst current' fitness'. destruct accept.
    - exists d'. by rewrite Hw2.
    - exists d. split; [by apply Hp|done]. }
  rewrite Hbf. cbv zeta.
  eapply wp_mono.
  { eapply (IH current' fitness' _ _ w2 d2 (hist ++ [fitness'])); [done|done|done|..].
    - destruct (fold_left Z.max hist f0 <? fitness'); simpl.
      + by exists d2.
      + by eapply best_recorded_preserved.
    - rewrite fold_left_app. simpl.
      destruct (Z.ltb_spec (fold_left Z.max hist f0) fitness'); simpl.
      + f_equal. lia.
      + rewrite Hbf. f_equal. lia.
    - destruct (fold_left Z.max hist f0 <? fitness'); simpl;
        by rewrite Hhist, <-app_assoc. }
  intros st' w3 (Hp3 & Hcur & Hbest3 & hist' & Hhist' & Hbf').
  split; [by eapply preserved_trans|]. split.
  { rewrite Hcur. by destruct (fold_left Z.max hist f0 <? fitness'). }
  split; [done|]. by exists hist'.
Qed.

Lemma fold_max_bounds (l : list Z) (x : Z) :
  x <= fold_left Z.max l x /\ Forall (fun h => h <= fold_left Z.max l x) l.
Proof.
  destruct (fold_max_upper l x) as [_ Hle]. split.
  - apply Hle, list_elem_of_here.
  - apply Forall_forall. intros h Hh. by apply Hle, list_elem_of_further.
Qed.

(** [run] from an engine whose [current] is a schedule; [hist] is what this
    run appends to the history. *)
Lemma wp_annealing_run st w :
  (t = Total -> valid_at self w (SimulatedAnnealing.current st)) ->
  triple t (SimulatedAnnealing.run self initial_temperature cooling_rate max_iter
        exp st) w
     (fun r w' =>
        r.1 = SimulatedAnnealing.best_individual r.2
        /\ preserved w w'
        /\ SimulatedAnnealing.current r.2 = SimulatedAnnealing.current st
        /\ exists best d d0 hist,
            heap w !! SimulatedAnnealing.current st = Some d0
            /\ SimulatedAnnealing.best_individual r.2 = Some best
            /\ SimulatedAnnealing.best_fitness r.2 = Some (score d)
            /\ heap w' !! best = Some d
            /\ SimulatedAnnealing.fitness_history r.2
               = SimulatedAnnealing.fitness_history st ++ hist
            /\ score d = fold_left Z.max hist (score d0)).
Proof.
  intros Hcur. unfold SimulatedAnnealing.run. cbv zeta.
  unfold SimulatedAnnealing.fitness at 1.
  apply wp_bind, wp_bind, wp_load.
  { intros Ht. by eapply valid_at_within, Hcur. }
  intros d0 Hd0. apply wp_ret.
  apply wp_bind. eapply wp_mono.
  { eapply (wp_annealing_run_loop _ _ _ _ _ w d0
              (SimulatedAnnealing.fitness_history st) (score d0) []);
      simpl; try done.
    - intros Ht. destruct (Hcur Ht) as (d & Hd & Hvalid). congruence.
    - by exists d0.
    - by rewrite app_nil_r. }
  intros st' w' (Hp & Hcur' & Hbest & hist' & Hhist & Hbf). apply wp_ret. simpl.
  split; [done|]. split; [done|]. split; [done|].
  unfold best_recorded in Hbest. rewrite Hbf in Hbest.
  destruct (SimulatedAnnealing.best_individual st') as [best|]; [|done].
  destruct Hbest as (d & Hd & Hscore). exists best, d, d0, hist'.
  by rewrite Hbf, Hscore.
Qed.

Lemma wp_annealing_init w (Q : SimulatedAnnealing.state -> world -> Prop) :
  (forall w' d,
      heap w' = heap w ++ [d] -> valid_schedule self d ->
      Q (SimulatedAnnealing.State (length (heap w)) None None []) w') ->
  triple t (SimulatedAnnealing.init self) w Q.
Proof.
  intros HQ. unfold SimulatedAnnealing.init.
  apply wp_bind.
  change (SimulatedAnnealing.create_individual self)
    with (GeneticAlgorithm.create_individual self).
  apply wp_create_individual_valid.
  { intros Ht. destruct (ready Ht) as (_ & ? & ? & _). done. }
  intros w1 d Hw1 Hvalid. apply wp_ret. by eapply HQ.
Qed.

(** A freshly built engine, then [run]. *)
Lemma wp_annealing_init_run w :
  triple t (let* st := SimulatedAnnealing.init self in
            SimulatedAnnealing.run self initial_temperature cooling_rate max_iter
              exp st) w
     (fun r w' =>
        r.1 = SimulatedAnnealing.best_individual r.2
        /\ exists best d d0,
            SimulatedAnnealing.best_individual r.2 = Some best
            /\ SimulatedAnnealing.best_fitness r.2 = Some (score d)
            /\ heap w' !! best = Some d
            /\ heap w' !! SimulatedAnnealing.current r.2 = Some d0
            /\ score d = fold_left Z.max (SimulatedAnnealing.fitness_history r.2)
                                   (score d0)).
Proof.
  apply wp_bind, wp_annealing_init. intros w1 d1 Hw1 Hvalid1.
  eapply wp_mono.
  { apply wp_annealing_run. intros _. exists d1. simpl.
    split; [|done]. rewrite Hw1. apply lookup_last. }
  intros [r st'] w2
         (Hret & Hp & Hcur & best & d & d0 & hist & Hd0 & Hbi & Hbf & Hd & Hhist & Hmax).
  simpl in *. split; [done|]. exists best, d, d0.
  repeat split; try done.
  - rewrite Hcur. by apply Hp.
  - by rewrite Hhist.
Qed.

End Annealing.

Section AnnealingInvariants.

Variable self : data.
Variables (cooling_rate : float) (exp : float -> float).

Local Abbreviation score := (AnnealingScore.fitness self).

(** Every round that is not cut short by the temperature floor allocates one
    schedule and appends one entry to the history; the current and the best
    schedule stay complete schedules of the instance. *)
Lemma wlp_annealing_run_loop_valid iters current current_fitness temperature st w :
  valid_at self w current ->
  (forall a, SimulatedAnnealing.best_individual st = Some a -> valid_at self w a) ->
  wlp (SimulatedAnnealing.run_loop self cooling_rate exp iters
         current current_fitness temperature st) w
      (fun st' w' =>
         preserved w w'
         /\ SimulatedAnnealing.current st' = SimulatedAnnealing.current st
         /\ (is_Some (SimulatedAnnealing.best_individual st) ->
             is_Some (SimulatedAnnealing.best_individual st'))
         /\ (forall a, SimulatedAnnealing.best_individual st' = Some a ->
                       valid_at self w' a)
         /\ exists hist,
             SimulatedAnnealing.fitness_history st'
             = SimulatedAnnealing.fitness_history st ++ hist
             /\ length hist = steps_before_freeze temperature cooling_rate iters
             /\ length (heap w') = (length (heap w) + length hist)%nat).
Proof.
  revert current current_fitness temperature st w.
  induction iters as [|iters IH];
    intros current current_fitness temperature st w Hcur Hbest; simpl.
  { apply wp_ret. split; [apply preserved_refl|]. do 3 (split; [done|]).
    exists []. by rewrite app_nil_r, Nat.add_0_r. }
  destruct (PrimFloat.leb (PrimFloat.mul temperature cooling_rate)
                          SimulatedAnnealing.freeze_floor).
  { apply wp_ret. split; [apply preserved_refl|]. do 3 (split; [done|]).
    exists []. by rewrite app_nil_r, Nat.add_0_r. }
  apply wp_bind, wp_neighbor_shape; [done|].
  intros w1 d c tm r Hd Hc Htm Hr Hw1.
  assert (heap w1 !! length (heap w) = Some (Py.set c (tm, r) d)) as Hcand.
  { rewrite Hw1. apply lookup_last. }
  eapply wp_bind, wp_annealing_fitness; [done|].
  apply wp_bind, wp_accept; [done|]. intros accept w2 Hw2.
  assert (preserved w w2) as Hp.
  { eapply preserved_trans; [by eapply preserved_app|by apply preserved_same]. }
  assert (valid_at self w2 (length (heap w))) as Hnew.
  { exists (Py.set c (tm, r) d). split; [by rewrite Hw2|].
    destruct Hcur as (d0 & Hd0 & Hvalid). rewrite Hd in Hd0. injection Hd0 as <-.
    by apply valid_schedule_set. }
  set (current' := if accept then length (heap w) else current).
  set (fitness' := if accept then score (Py.set c (tm, r) d) else current_fitness).
  assert (valid_at self w2 current') as Hcur'.
  { subst current'. destruct accept; [done|]. by eapply valid_at_preserved. }
  cbv zeta. eapply wp_mono.
  { apply (IH current' fitness'); [done|].
    intros a Ha.
    destruct (match SimulatedAnnealing.best_fitness st with
              | Some b => b <? fitness'
              | None => true
              end); simpl in Ha.
    - by injection Ha as <-.
    - eapply valid_at_preserved; [done|]. by apply Hbest. }
  intros st' w3 (Hp3 & Hcur3 & Hsome3 & Hbest3 & hist & Hhist & Hlen & Hheap).
  split; [by eapply preserved_trans|]. split.
  { rewrite Hcur3.
    by destruct (match SimulatedAnnealing.best_fitness st with
                 | Some b => b <? fitness'
                 | None => true
                 end). }
  split.
  { intros Hsome. apply Hsome3.
    by destruct (match SimulatedAnnealing.best_fitness st with
                 | Some b => b <? fitness'
                 | None => true
                 end). }
  split; [done|].
  exists (fitness' :: hist). split; [|split].
  - rewrite Hhist.
    destruct (match SimulatedAnnealing.best_fitness st with
              | Some b => b <? fitness'
              | None => true
              end); simpl; by rewrite <-app_assoc.
  - simpl. by rewrite Hlen.
  - rewrite Hheap, Hw2, Hw1, length_app. simpl. lia.
Qed.

End AnnealingInvariants.

(** ** The claims about the annealing engine and about whole runs *)

(** C5 (as stated, refuted): [Sample.crowded] has a room and a time slot, yet
    with [population_size = 2] the tournament asks for 3 competitors out of 2
    and [run] raises [ValueError]; and on an instance without courses the
    annealing run raises [IndexError] when it picks the course to move; and
    on [Sample.huge], which has a course, rooms and a time slot, the annealing
    run raises [OverflowError] when it divides a cost difference of about
    [-10^403] by the temperature. *)
Lemma small_population_raises :
  rooms Sample.crowded <> [] /\ times Sample.crowded <> []
  /\ (let* st := GeneticAlgorithm.init Sample.crowded 2 in
      GeneticAlgorithm.run Sample.crowded 2 0.5%float 1 st) Sample.fresh
     = Raise Py.ValueError
  /\ rooms Sample.no_courses <> [] /\ times Sample.no_courses <> []
  /\ (let* st := SimulatedAnnealing.init Sample.no_courses in
      SimulatedAnnealing.run Sample.no_courses 1000%float 0.5%float 1
        SampleState.coin st) Sample.fresh
     = Raise Py.IndexError
  /\ rooms Sample.huge <> [] /\ times Sample.huge <> []
  /\ courses Sample.huge <> []
  /\ (let* st := SimulatedAnnealing.init Sample.huge in
      SimulatedAnnealing.run Sample.huge 1000%float 0.5%float 20
        SampleState.coin st) Sample.fresh
     = Raise Py.OverflowError.
Proof. repeat split; try done; vm_compute; reflexivity. Qed.

(** C5 (amended): the engines raise where a random draw meets an empty
    collection, and where the annealing engine converts a cost difference
    that has no float.  With a course to schedule but no room or no time
    slot, the constructor raises [IndexError] (for the genetic engine when
    [population_size >= 1]).  With at least one room and one time slot, the
    genetic engine is built and [run] returns for every [mutation_rate] and
    [generations] whenever [population_size >= 3]; the annealing engine is
    built and [run] returns for every temperature, cooling rate and
    [max_iter] whenever there is a course, no schedule of the instance can
    cost [2^1023] or more, and the C library's [exp] returns a finite number
    for every argument that is not positive. *)
Theorem failures_come_from_empty_draws (self : data) (w : world) :
  (courses self <> [] -> times self = [] \/ rooms self = [] ->
   SimulatedAnnealing.init self w = Raise Py.IndexError
   /\ forall n, 1 <= n -> GeneticAlgorithm.init self n w = Raise Py.IndexError)
  /\ (times self <> [] -> rooms self <> [] ->
      (forall n rate gens, 3 <= n ->
         exists r w',
           (let* st := GeneticAlgorithm.init self n in
            GeneticAlgorithm.run self n rate gens st) w = Ok (r, w'))
      /\ (courses self <> [] -> cost_bound self < 2 ^ 1023 ->
          forall temperature rate max_iter exp, exp_regular exp ->
          exists r w',
            (let* st := SimulatedAnnealing.init self in
             SimulatedAnnealing.run self temperature rate max_iter exp st) w
            = Ok (r, w'))).
Proof.
  split.
  - intros Hc Hempty. split; [by apply annealing_init_raises|].
    intros n Hn. by apply genetic_init_raises.
  - intros Ht Hr. split.
    + intros n rate gens Hn.
      destruct (wp_elim _ _ _
                  (wp_genetic_init_run (t := Total) self n rate gens w
                     (fun _ => conj Ht (conj Hr Hn))))
        as (r & w' & Hrun & _).
      by exists r, w'.
    + intros Hc Hbound temperature rate max_iter exp Hexp.
      destruct (wp_elim _ _ _
                  (wp_annealing_init_run (t := Total) self temperature rate
                     max_iter exp
                     (fun _ => conj Hc (conj Ht (conj Hr (conj Hbound Hexp)))) w))
        as (r & w' & Hrun & _).
      by exists r, w'.
Qed.

Lemma failures_come_from_empty_draws_witness :
  (SimulatedAnnealing.init Sample.no_rooms Sample.fresh = Raise Py.IndexError
   /\ GeneticAlgorithm.init Sample.no_rooms 3 Sample.fresh = Raise Py.IndexError)
  /\ (exists r w',
        (let* st := GeneticAlgorithm.init Sample.uni 3 in
         GeneticAlgorithm.run Sample.uni 3 0.5%float 4 st) Sample.fresh = Ok (r, w'))
  /\ (exists r w',
        (let* st := SimulatedAnnealing.init Sample.uni in
         SimulatedAnnealing.run Sample.uni 1000%float 0.5%float 20
           SampleState.coin st) Sample.fresh = Ok (r, w')).
Proof.
  split; [|split].
  - destruct (failures_come_from_empty_draws Sample.no_rooms Sample.fresh)
      as [Hraise _].
    destruct Hraise as [Hannealing Hgenetic]; [discriminate|by right|].
    split; [exact Hannealing|]. apply Hgenetic. lia.
  - destruct (failures_come_from_empty_draws Sample.uni Sample.fresh) as [_ Hruns].
    destruct Hruns as [Hgenetic _]; [discriminate|discriminate|].
    apply Hgenetic. lia.
  - destruct (failures_come_from_empty_draws Sample.uni Sample.fresh) as [_ Hruns].
    destruct Hruns as [_ Hannealing]; [discriminate|discriminate|].
    apply Hannealing; [discriminate|vm_compute; reflexivity|apply coin_regular].
Defined.

(** C6: whenever the annealing engine is built and [run] returns, the result
    is the address of a schedule [d] whose fitness is the maximum of the
    fitness of the initial schedule [d0] and of all entries of
    [fitness_history]; so it is at least the initial fitness and at least
    every entry of the history.  The engine is built and [run] does return on
    an instance with a course, a room and a time slot on which no schedule
    can cost [2^1023] or more, given a C library whose [exp] returns a finite
    number for every argument that is not positive. *)
Theorem annealing_returns_best (self : data)
    (initial_temperature cooling_rate : float) (max_iter : Z)
    (exp : float -> float) (w : world) :
  (forall st0 w0 r st' w',
      SimulatedAnnealing.init self w = Ok (st0, w0) ->
      SimulatedAnnealing.run self initial_temperature cooling_rate max_iter
        exp st0 w0 = Ok ((r, st'), w') ->
      exists best d d0,
        heap w0 !! SimulatedAnnealing.current st0 = Some d0
        /\ r = Some best
        /\ SimulatedAnnealing.best_individual st' = Some best
        /\ heap w' !! best = Some d
        /\ SimulatedAnnealing.best_fitness st' = Some (AnnealingScore.fitness self d)
        /\ AnnealingScore.fitness self d
           = fold_left Z.max (SimulatedAnnealing.fitness_history st')
                       (AnnealingScore.fitness self d0)
        /\ AnnealingScore.fitness self d0 <= AnnealingScore.fitness self d
        /\ Forall (fun h => h <= AnnealingScore.fitness self d)
                  (SimulatedAnnealing.fitness_history st'))
  /\ (courses self <> [] -> times self <> [] -> rooms self <> [] ->
      cost_bound self < 2 ^ 1023 -> exp_regular exp ->
      exists st0 w0 r st' w',
        SimulatedAnnealing.init self w = Ok (st0, w0)
        /\ SimulatedAnnealing.run self initial_temperature cooling_rate max_iter
             exp st0 w0 = Ok ((r, st'), w')).
Proof.
  split.
  - intros st0 w0 r st' w' Hinit Hrun.
    assert (wlp (SimulatedAnnealing.init self) w
              (fun st _ => SimulatedAnnealing.fitness_history st = [])) as Hfresh.
    { apply (wp_annealing_init self exp unconditional). by intros w1 d _ _. }
    pose proof (wlp_elim _ _ _ _ _ Hfresh Hinit) as Hhist0. simpl in Hhist0.
    pose proof (wlp_elim (t := Partial) _ _ _ _ _
                  (wp_annealing_run self initial_temperature cooling_rate max_iter
                     exp unconditional st0 w0 unconditional) Hrun)
      as (Hret & _ & _ & best & d & d0 & hist & Hd0 & Hbi & Hbf & Hd & Hhist & Hmax).
    simpl in *. rewrite Hhist0 in Hhist. simpl in Hhist. subst hist.
    exists best, d, d0.
    destruct (fold_max_bounds (SimulatedAnnealing.fitness_history st')
                (AnnealingScore.fitness self d0)) as [Hlow Hall].
    rewrite <-Hmax in Hlow, Hall. repeat split; try done. congruence.
  - intros Hc Ht Hr Hbound Hexp.
    destruct (wp_elim _ _ _
                (wp_annealing_init_run (t := Total) self initial_temperature
                   cooling_rate max_iter exp
                   (fun _ => conj Hc (conj Ht (conj Hr (conj Hbound Hexp)))) w))
      as ([r st'] & w' & Hrun & _).
    apply bind_ok in Hrun as (st0 & w0 & Hinit & Hrun).
    by exists st0, w0, r, st', w'.
Qed.

Lemma annealing_returns_best_witness :
  exists st0 w0 r st' w',
    SimulatedAnnealing.init Sample.uni Sample.fresh = Ok (st0, w0)
    /\ SimulatedAnnealing.run Sample.uni 1000%float 0.5%float 20
         SampleState.coin st0 w0 = Ok ((r, st'), w').
Proof.
  apply (annealing_returns_best Sample.uni 1000%float 0.5%float 20
           SampleState.coin Sample.fresh);
    [discriminate|discriminate|discriminate|vm_compute; reflexivity
    |apply coin_regular].
Defined.

(** C7 (as stated, refuted): the acceptance test does fault.  A cost
    difference of [-10^403] has no float ([-(2^1024 - 2^970)] has none
    either, the integer next to it has one), so [delta / temperature] raises
    [OverflowError], at a temperature just above the floor as at any other;
    and a run on [Sample.huge], where moving the course into the small room
    costs that much, raises it. *)
Lemma worsening_move_overflows :
  Py.float_of_int (- (10 ^ 403)) = None
  /\ Py.float_of_int (- (2 ^ 1024 - 2 ^ 970)) = None
  /\ is_Some (Py.float_of_int (- (2 ^ 1024 - 2 ^ 970 - 1)))
  /\ SimulatedAnnealing.accept SampleState.step (- (10 ^ 403)) 0x1p-33%float
       Sample.fresh
     = Raise Py.OverflowError
  /\ (let* st := SimulatedAnnealing.init Sample.huge in
      SimulatedAnnealing.run Sample.huge 1000%float 0.5%float 20
        SampleState.step st) Sample.fresh
     = Raise Py.OverflowError.
Proof. repeat split; vm_compute; by eauto. Qed.

(** C7 (amended): the acceptance test
    [delta > 0 or random.random() < math.exp(delta / temperature)].
    An improving move is accepted without a draw.  Otherwise one number [u]
    is drawn, and [u < 1].  A move with [delta = 0] is accepted whenever the
    temperature is a number above the floor and [exp(0) = 1].  For
    [-2^1023 < delta <= 0], a temperature that is not at or below the floor and
    an [exp] that returns a finite number for every argument that is not
    positive, the test does not raise: [delta] converts to a float [x], the
    quotient [x / temperature] is not positive, and the move is accepted
    exactly when [u < exp(x / temperature)].  When [delta <= 0] has no float,
    the test raises [OverflowError]. *)
Theorem acceptance_test (exp : float -> float) (delta : Z) (temperature : float)
    (w : world) :
  (0 < delta ->
   SimulatedAnnealing.accept exp delta temperature w = Ok (true, w))
  /\ PrimFloat.ltb (Random.unit_float (oracle w (cursor w))) 1 = true
  /\ (delta = 0 ->
      PrimFloat.ltb SimulatedAnnealing.freeze_floor temperature = true ->
      exp 0%float = 1%float ->
      SimulatedAnnealing.accept exp delta temperature w
      = Ok (true, World (heap w) (oracle w) (S (cursor w))))
  /\ (- 2 ^ 1023 < delta <= 0 ->
      PrimFloat.leb temperature SimulatedAnnealing.freeze_floor = false ->
      exp_regular exp ->
      exists x,
        Py.float_of_int delta = Some x
        /\ PrimFloat.ltb 0 (PrimFloat.div x temperature) = false
        /\ SimulatedAnnealing.accept exp delta temperature w
           = Ok (PrimFloat.ltb (Random.unit_float (oracle w (cursor w)))
                               (exp (PrimFloat.div x temperature)),
                 World (heap w) (oracle w) (S (cursor w))))
  /\ (delta <= 0 -> Py.float_of_int delta = None ->
      SimulatedAnnealing.accept exp delta temperature w = Raise Py.OverflowError).
Proof.
  split; [|split; [|split; [|split]]].
  - intros Hdelta. unfold SimulatedAnnealing.accept.
    by replace (0 <? delta) with true by (symmetry; apply Z.ltb_lt; lia).
  - apply unit_float_below_one.
  - intros -> Hfloor Hexp.
    rewrite (accept_worse exp 0 temperature 0%float); try done.
    + by rewrite (zero_quotient _ Hfloor), Hexp, unit_float_below_one.
    + by apply above_floor, above_floor_strict.
    + by rewrite (zero_quotient _ Hfloor), Hexp.
    + by rewrite (zero_quotient _ Hfloor), Hexp.
  - intros Hdelta Hfloor Hexp.
    destruct (float_of_int_bounded delta) as [x Hx].
    { pose proof (Z.pow_pos_nonneg 2 1023). lia. }
    destruct (above_floor _ Hfloor) as [Habove Hzero].
    pose proof (quotient_not_positive x temperature
                  (float_of_int_sign delta x (proj2 Hdelta) Hx) Habove)
      as Hquotient.
    destruct (Hexp _ Hquotient) as [Hnan Hinf].
    exists x. split; [done|]. split; [done|].
    apply accept_worse; try done; [lia| |by rewrite Hinf].
    destruct (PrimFloat.is_nan (exp (PrimFloat.div x temperature))) eqn:Hr; [|done].
    by rewrite (Hnan eq_refl).
  - apply accept_overflow.
Qed.

Lemma acceptance_test_witness :
  SimulatedAnnealing.accept SampleState.step 0 0.5%float Sample.fresh
  = Ok (true, World [] Sample.numbers 1)
  /\ exists x,
      Py.float_of_int (-500) = Some x
      /\ SimulatedAnnealing.accept SampleState.step (-500) 0.5%float Sample.fresh
         = Ok (PrimFloat.ltb (Random.unit_float (Sample.numbers 0))
                             (SampleState.step (PrimFloat.div x 0.5)),
               World [] Sample.numbers 1).
Proof.
  split.
  - destruct (acceptance_test SampleState.step 0 0.5%float Sample.fresh)
      as (_ & _ & Hzero & _).
    apply Hzero; reflexivity.
  - destruct (acceptance_test SampleState.step (-500) 0.5%float Sample.fresh)
      as (_ & _ & _ & Hworse & _).
    destruct Hworse as (x & Hx & _ & Hrun); [lia|reflexivity|apply step_regular|].
    by exists x.
Defined.

(** C10: the recorded best schedule is not written to after it is recorded.
    The operators do not write to a schedule that exists when they are called:
    crossover and the annealing neighbour return new dictionaries and leave
    every existing one as it is, and mutation writes to the one dictionary it
    is given, which in [run] is a new child.  So whenever the rest of a run
    returns, from any generation of the genetic engine or any iteration of the
    annealing engine on, every schedule that exists at that moment is left as
    it is, and [best_fitness] is the fitness of the schedule [best_individual]
    refers to at the end; likewise for a whole run of a freshly built engine,
    whose result is [best_individual].  With a room and a time slot these runs
    do return: those of the genetic engine with [population_size >= 3], those
    of the annealing engine with a course, on an instance on which no
    schedule can cost [2^1023] or more, given a C library whose [exp] returns a
    finite number for every argument that is not positive. *)
Theorem best_individual_is_stable (self : data) :
  (forall parent1 parent2 w child1 child2 w',
      GeneticAlgorithm.crossover self parent1 parent2 w = Ok ((child1, child2), w') ->
      heap w !! child1 = None /\ heap w !! child2 = None /\ preserved w w')
  /\ (forall mutation_rate individual w r w',
        GeneticAlgorithm.mutate self mutation_rate individual w = Ok (r, w') ->
        r = individual
        /\ forall a, a <> individual -> heap w' !! a = heap w !! a)
  /\ (forall individual w neighbor w',
        SimulatedAnnealing.neighbor self individual w = Ok (neighbor, w') ->
        heap w !! neighbor = None /\ preserved w w')
  /\ (forall population_size mutation_rate gens st w st' w',
        best_recorded (GeneticScore.fitness self) w
          (GeneticAlgorithm.best_individual st) (GeneticAlgorithm.best_fitness st) ->
        GeneticAlgorithm.run_loop self population_size mutation_rate gens st w
        = Ok (st', w') ->
        preserved w w'
        /\ best_recorded (GeneticScore.fitness self) w'
             (GeneticAlgorithm.best_individual st')
             (GeneticAlgorithm.best_fitness st'))
  /\ (forall population_size mutation_rate generations w r st' w',
        (let* st := GeneticAlgorithm.init self population_size in
         GeneticAlgorithm.run self population_size mutation_rate generations st) w
        = Ok ((r, st'), w') ->
        r = GeneticAlgorithm.best_individual st'
        /\ best_recorded (GeneticScore.fitness self) w'
             (GeneticAlgorithm.best_individual st')
             (GeneticAlgorithm.best_fitness st'))
  /\ (forall cooling_rate exp iters current temperature st w d best_fitness
             st' w',
        heap w !! current = Some d ->
        SimulatedAnnealing.best_fitness st = Some best_fitness ->
        best_recorded (AnnealingScore.fitness self) w
          (SimulatedAnnealing.best_individual st) (Some best_fitness) ->
        SimulatedAnnealing.run_loop self cooling_rate exp iters
          current (AnnealingScore.fitness self d) temperature st w
        = Ok (st', w') ->
        preserved w w'
        /\ best_recorded (AnnealingScore.fitness self) w'
             (SimulatedAnnealing.best_individual st')
             (SimulatedAnnealing.best_fitness st'))
  /\ (forall initial_temperature cooling_rate max_iter exp w r st' w',
        (let* st := SimulatedAnnealing.init self in
         SimulatedAnnealing.run self initial_temperature cooling_rate
           max_iter exp st) w
        = Ok ((r, st'), w') ->
        r = SimulatedAnnealing.best_individual st'
        /\ is_Some r
        /\ best_recorded (AnnealingScore.fitness self) w'
             (SimulatedAnnealing.best_individual st')
             (SimulatedAnnealing.best_fitness st'))
  /\ (times self <> [] -> rooms self <> [] ->
      (forall population_size mutation_rate generations w,
          3 <= population_size ->
          exists r st' w',
            (let* st := GeneticAlgorithm.init self population_size in
             GeneticAlgorithm.run self population_size mutation_rate generations st) w
            = Ok ((r, st'), w'))
      /\ (courses self <> [] -> cost_bound self < 2 ^ 1023 ->
          forall initial_temperature cooling_rate max_iter exp w,
          exp_regular exp ->
          exists r st' w',
            (let* st := SimulatedAnnealing.init self in
             SimulatedAnnealing.run self initial_temperature cooling_rate
               max_iter exp st) w
            = Ok ((r, st'), w'))).
Proof.
  repeat apply conj.
  - intros parent1 parent2 w child1 child2 w' Hrun.
    assert (wlp (GeneticAlgorithm.crossover self parent1 parent2) w
              (fun r w' => heap w !! r.1 = None /\ heap w !! r.2 = None
                           /\ preserved w w')) as Hwp.
    { apply wp_crossover; [apply unconditional|]. intros w1 e1 e2 Hw1 _ _. simpl.
      split; [apply lookup_ge_None; lia|]. split; [apply lookup_ge_None; lia|].
      by eapply preserved_app. }
    exact (wlp_elim _ _ _ _ _ Hwp Hrun).
  - intros rate individual w r w' Hrun.
    assert (wlp (GeneticAlgorithm.mutate self rate individual) w
              (fun r w' => r = individual
                           /\ forall a, a <> individual ->
                                        heap w' !! a = heap w !! a)) as Hwp.
    { apply wp_mutate; [apply unconditional|]. intros w1 d d' _ Hw1 _.
      split; [done|]. intros a Ha. by rewrite Hw1, list_lookup_insert_ne. }
    exact (wlp_elim _ _ _ _ _ Hwp Hrun).
  - intros individual w neighbor w' Hrun.
    assert (wlp (SimulatedAnnealing.neighbor self individual) w
              (fun r w' => heap w !! r = None /\ preserved w w')) as Hwp.
    { apply wp_neighbor_shape; [apply unconditional|].
      intros w1 d c tm r _ _ _ _ Hw1. split; [apply lookup_ge_None; lia|].
      by eapply preserved_app. }
    exact (wlp_elim _ _ _ _ _ Hwp Hrun).
  - intros n rate gens st w st' w' Hbest Hrun.
    exact (wlp_elim (t := Partial) _ _ _ _ _
             (wp_run_loop self n rate gens st w unconditional Hbest) Hrun).
  - intros n rate gens w r st' w' Hrun.
    by destruct (wlp_elim (t := Partial) _ _ _ _ _
                   (wp_genetic_init_run self n rate gens w unconditional) Hrun)
      as (Hret & _ & Hbest).
  - intros rate exp iters current temperature st w d bf st' w'
           Hd Hbf Hbest Hrun.
    rewrite <-Hbf in Hbest.
    by destruct (wlp_elim (t := Partial) _ _ _ _ _
                (wp_annealing_run_loop self rate exp unconditional iters current
                   (AnnealingScore.fitness self d) temperature st w d
                   (SimulatedAnnealing.fitness_history st) bf []
                   Hd eq_refl unconditional Hbest Hbf (eq_sym (app_nil_r _))) Hrun)
      as (Hp & _ & Hbest' & _).
  - intros temperature rate max_iter exp w r st' w' Hrun.
    destruct (wlp_elim (t := Partial) _ _ _ _ _
                (wp_annealing_init_run self temperature rate max_iter exp
                   unconditional w) Hrun)
      as (Hret & best & d & d0 & Hbi & Hbf & Hd & _).
    simpl in *. split; [done|]. split; [rewrite Hret, Hbi; by eauto|].
    rewrite Hbi, Hbf. by exists d.
  - intros Ht Hr. split.
    + intros n rate gens w Hn.
      destruct (wp_elim _ _ _
                  (wp_genetic_init_run (t := Total) self n rate gens w
                     (fun _ => conj Ht (conj Hr Hn))))
        as ([r st'] & w' & Hrun & _).
      by exists r, st', w'.
    + intros Hc Hbound temperature rate max_iter exp w Hexp.
      destruct (wp_elim _ _ _
                  (wp_annealing_init_run (t := Total) self temperature rate
                     max_iter exp
                     (fun _ => conj Hc (conj Ht (conj Hr (conj Hbound Hexp)))) w))
        as ([r st'] & w' & Hrun & _).
      by exists r, st', w'.
Qed.

(** On [Sample.crowded] no schedule has fitness 0, so the genetic run breeds
    after the best is recorded; the annealing run on [Sample.uni] makes 20
    moves. *)
Lemma best_individual_is_stable_witness :
  (exists r st' w',
      (let* st := GeneticAlgorithm.init Sample.crowded 3 in
       GeneticAlgorithm.run Sample.crowded 3 0.5%float 2 st) Sample.fresh
      = Ok ((r, st'), w')
      /\ r = GeneticAlgorithm.best_individual st'
      /\ best_recorded (GeneticScore.fitness Sample.crowded) w'
           (GeneticAlgorithm.best_individual st')
           (GeneticAlgorithm.best_fitness st'))
  /\ (exists r st' w',
        (let* st := SimulatedAnnealing.init Sample.uni in
         SimulatedAnnealing.run Sample.uni 1000%float 0.5%float 20
           SampleState.coin st) Sample.fresh
        = Ok ((r, st'), w')
        /\ r = SimulatedAnnealing.best_individual st'
        /\ is_Some r
        /\ best_recorded (AnnealingScore.fitness Sample.uni) w'
             (SimulatedAnnealing.best_individual st')
             (SimulatedAnnealing.best_fitness st')).
Proof.
  split.
  - destruct (best_individual_is_stable Sample.crowded)
      as (_ & _ & _ & _ & Hgenetic & _ & _ & Hreturns).
    destruct Hreturns as [Hrun _]; [discriminate|discriminate|].
    destruct (Hrun 3 0.5%float 2 Sample.fresh) as (r & st' & w' & Hok); [lia|].
    exists r, st', w'. split; [exact Hok|]. exact (Hgenetic _ _ _ _ _ _ _ Hok).
  - destruct (best_individual_is_stable Sample.uni)
      as (_ & _ & _ & _ & _ & _ & Hannealing & Hreturns).
    destruct Hreturns as [_ Hrun]; [discriminate|discriminate|].
    destruct (Hrun ltac:(discriminate) ltac:(vm_compute; reflexivity)
                   1000%float 0.5%float 20 SampleState.coin Sample.fresh
                   coin_regular)
      as (r & st' & w' & Hok).
    exists r, st', w'. split; [exact Hok|]. exact (Hannealing _ _ _ _ _ _ _ _ Hok).
Defined.

Lemma genetic_init_run_valid (self : data) (population_size : Z)
    (mutation_rate : float) (generations : Z) (w : world)
    (r : option addr) (st' : GeneticAlgorithm.state) (w' : world) :
  within_heap self w ->
  (let* st := GeneticAlgorithm.init self population_size in
   GeneticAlgorithm.run self population_size mutation_rate generations st) w
  = Ok ((r, st'), w') ->
  within_heap self w'
  /\ Forall (valid_at self w') (GeneticAlgorithm.population st')
  /\ forall a, r = Some a -> valid_at self w' a.
Proof.
  intros Hw Hrun.
  assert (wlp (let* st := GeneticAlgorithm.init self population_size in
               GeneticAlgorithm.run self population_size mutation_rate generations st)
              w (fun r w' =>
                   within_heap self w'
                   /\ Forall (valid_at self w') (GeneticAlgorithm.population r.2)
                   /\ forall a, r.1 = Some a -> valid_at self w' a)) as Hspec.
  { apply wp_bind. eapply wp_mono.
    { apply triple_conj.
      - apply (wp_init (t := Partial) self population_size w
                 (fun st w1 =>
                    Forall (has_courses self w1) (GeneticAlgorithm.population st)
                    /\ GeneticAlgorithm.best_individual st = None)); [done|].
        by intros w1 population _ Hall _.
      - by apply wlp_init_within. }
    intros st w1 [[Hall Hnone] Hw1]. cbv beta. unfold GeneticAlgorithm.run.
    apply wp_bind. eapply wp_mono.
    { apply wlp_run_loop_valid; try done. intros a Ha. congruence. }
    intros st2 w2 (Hw2 & Hall2 & Hbest2). apply wp_ret. simpl.
    split; [done|]. split.
    - eapply Forall_impl; [exact Hall2|]. intros a. by apply has_courses_valid_at.
    - intros a Ha. by apply has_courses_valid_at, Hbest2. }
  exact (wlp_elim _ _ _ _ _ Hspec Hrun).
Qed.


(** X12.  The genetic engine keeps the heap made of schedules of the
    instance.  Started where every dictionary is one, whenever the constructor
    and [run] return, every member of the final population and the schedule
    that [run] returns assign each course of the instance exactly once, to a
    time slot and a room of the instance. *)
Theorem genetic_schedules_are_valid (self : data) (population_size : Z)
    (mutation_rate : float) (generations : Z) (w : world)
    (r : option addr) (st' : GeneticAlgorithm.state) (w' : world) :
  within_heap self w ->
  (let* st := GeneticAlgorithm.init self population_size in
   GeneticAlgorithm.run self population_size mutation_rate generations st) w
  = Ok ((r, st'), w') ->
  within_heap self w'
  /\ Forall (valid_at self w') (GeneticAlgorithm.population st')
  /\ forall a, r = Some a -> valid_at self w' a.
Proof. apply genetic_init_run_valid. Qed.

Lemma genetic_schedules_are_valid_witness :
  exists r st' w',
    (let* st := GeneticAlgorithm.init Sample.uni 3 in
     GeneticAlgorithm.run Sample.uni 3 0.5%float 4 st) Sample.fresh
    = Ok ((r, st'), w')
    /\ within_heap Sample.uni w'
    /\ Forall (valid_at Sample.uni w') (GeneticAlgorithm.population st')
    /\ forall a, r = Some a -> valid_at Sample.uni w' a.
Proof.
  destruct (wp_elim _ _ _
              (wp_genetic_init_run (t := Total) Sample.uni 3 0.5%float 4 Sample.fresh
                 ltac:(intros _; repeat split; [discriminate|discriminate|lia])))
    as ([r st'] & w' & Hrun & _).
  exists r, st', w'. split; [exact Hrun|].
  apply (genetic_schedules_are_valid Sample.uni 3 0.5%float 4 Sample.fresh r st' w');
    [constructor|exact Hrun].
Defined.

Lemma genetic_init_run_history (self : data) (population_size : Z)
    (mutation_rate : float) (generations : Z) (w : world)
    (r : option addr) (st' : GeneticAlgorithm.state) (w' : world) :
  (let* st := GeneticAlgorithm.init self population_size in
   GeneticAlgorithm.run self population_size mutation_rate generations st) w
  = Ok ((r, st'), w') ->
  GeneticAlgorithm.best_fitness st'
  = py_max_opt (GeneticAlgorithm.current_best_history st')
  /\ (length (GeneticAlgorithm.current_best_history st') <= Z.to_nat generations)%nat
  /\ Forall (fun f => f <= 0) (GeneticAlgorithm.current_best_history st')
  /\ (forall h f, GeneticAlgorithm.current_best_history st' = h ++ [f] ->
                  Forall (fun f => f < 0) h)
  /\ ((length (GeneticAlgorithm.current_best_history st') < Z.to_nat generations)%nat ->
      GeneticAlgorithm.best_fitness st' = Some 0)
  /\ (r = None <-> generations <= 0).
Proof.
  intros Hrun.
  assert (wlp (let* st := GeneticAlgorithm.init self population_size in
               GeneticAlgorithm.run self population_size mutation_rate generations st)
              w (fun r w' =>
                   r.1 = GeneticAlgorithm.best_individual r.2
                   /\ best_recorded (GeneticScore.fitness self) w'
                        (GeneticAlgorithm.best_individual r.2)
                        (GeneticAlgorithm.best_fitness r.2)
                   /\ exists hist,
                       GeneticAlgorithm.current_best_history r.2 = [] ++ hist
                       /\ (length hist <= Z.to_nat generations)%nat
                       /\ GeneticAlgorithm.best_fitness r.2
                          = py_max_opt (GeneticAlgorithm.current_best_history r.2)
                       /\ Forall (fun f => f <= 0) hist
                       /\ (forall h f, hist = h ++ [f] -> Forall (fun f => f < 0) h)
                       /\ ((length hist < Z.to_nat generations)%nat ->
                           GeneticAlgorithm.best_fitness r.2 = Some 0))) as Hspec.
  { apply wp_bind, wp_init; [done|]. intros w1 population _ _ _.
    unfold GeneticAlgorithm.run. apply wp_bind. eapply wp_mono.
    { apply triple_conj.
      - apply (wp_run_loop (t := Partial)); [done|]. done.
      - apply wlp_run_loop_history; [done|constructor]. }
    intros st2 w2 [[_ Hbest] Hhist]. apply wp_ret. simpl. by split. }
  pose proof (wlp_elim _ _ _ _ _ Hspec Hrun)
    as (Hr & Hbest & hist & Hhist & Hlen & Hmax & Hneg & Hlast & Hshort).
  simpl in *. subst hist. repeat split; try done.
  - intros ->. symmetry in Hr. unfold best_recorded in Hbest. rewrite Hr in Hbest.
    destruct (GeneticAlgorithm.best_fitness st') as [b|] eqn:Hb; [done|].
    destruct (decide (generations <= 0)) as [|Hpos]; [done|].
    destruct (GeneticAlgorithm.current_best_history st'); [|done].
    simpl in Hshort. discriminate Hshort. lia.
  - intros Hgen. assert (Z.to_nat generations = 0%nat) as Hzero by lia.
    rewrite Hzero in Hlen.
    destruct (GeneticAlgorithm.current_best_history st'); [|simpl in Hlen; lia].
    simpl in Hmax. unfold best_recorded in Hbest. rewrite Hmax in Hbest.
    rewrite Hr. by destruct (GeneticAlgorithm.best_individual st').
Qed.


(** X13.  Whenever the genetic constructor and [run] return, the best fitness
    on record is the largest entry of the history ([None], that is minus
    infinity, for an empty history); the history has at most [generations]
    entries, none positive and all but the last negative; it is shorter than
    [generations] only if the best fitness is 0; and [run] returns [None]
    exactly when no generation was evaluated. *)
Theorem genetic_history_records_best (self : data) (population_size : Z)
    (mutation_rate : float) (generations : Z) (w : world)
    (r : option addr) (st' : GeneticAlgorithm.state) (w' : world) :
  (let* st := GeneticAlgorithm.init self population_size in
   GeneticAlgorithm.run self population_size mutation_rate generations st) w
  = Ok ((r, st'), w') ->
  GeneticAlgorithm.best_fitness st'
  = py_max_opt (GeneticAlgorithm.current_best_history st')
  /\ (length (GeneticAlgorithm.current_best_history st') <= Z.to_nat generations)%nat
  /\ Forall (fun f => f <= 0) (GeneticAlgorithm.current_best_history st')
  /\ (forall h f, GeneticAlgorithm.current_best_history st' = h ++ [f] ->
                  Forall (fun f => f < 0) h)
  /\ ((length (GeneticAlgorithm.current_best_history st') < Z.to_nat generations)%nat ->
      GeneticAlgorithm.best_fitness st' = Some 0)
  /\ (r = None <-> generations <= 0).
Proof. apply genetic_init_run_history. Qed.

Lemma genetic_history_records_best_witness :
  exists r st' w',
    (let* st := GeneticAlgorithm.init Sample.uni 3 in
     GeneticAlgorithm.run Sample.uni 3 0.5%float 4 st) Sample.fresh
    = Ok ((r, st'), w')
    /\ GeneticAlgorithm.best_fitness st'
       = py_max_opt (GeneticAlgorithm.current_best_history st')
    /\ (r = None <-> 4 <= 0).
Proof.
  destruct (wp_elim _ _ _
              (wp_genetic_init_run (t := Total) Sample.uni 3 0.5%float 4 Sample.fresh
                 ltac:(intros _; repeat split; [discriminate|discriminate|lia])))
    as ([r st'] & w' & Hrun & _).
  exists r, st', w'. split; [exact Hrun|].
  destruct (genetic_history_records_best Sample.uni 3 0.5%float 4 Sample.fresh
              r st' w' Hrun) as (Hmax & _ & _ & _ & _ & Hnone).
  by split.
Defined.

(** X14.  Whenever [neighbor] returns, its result is a new dictionary: a copy
    of the given schedule in which one course of the instance has been set to
    a time slot and a room of the instance.  The given schedule and every
    other dictionary are as before. *)
Theorem neighbor_reassigns_one_course (self : data) (individual : addr) (w : world)
    (neighbor : addr) (w' : world) :
  SimulatedAnnealing.neighbor self individual w = Ok (neighbor, w') ->
  exists d c t r,
    heap w !! individual = Some d
    /\ c ∈ courses self /\ t ∈ times self /\ r ∈ rooms self
    /\ neighbor = length (heap w)
    /\ heap w' = heap w ++ [Py.set c (t, r) d]
    /\ Py.get c (Py.set c (t, r) d) = Some (t, r)
    /\ forall c', c' <> c -> Py.get c' (Py.set c (t, r) d) = Py.get c' d.
Proof.
  intros Hrun.
  refine (wlp_elim (t := Partial) _ _ _ _
            (fun nb w' =>
               exists d c t r,
                 heap w !! individual = Some d
                 /\ c ∈ courses self /\ t ∈ times self /\ r ∈ rooms self
                 /\ nb = length (heap w)
                 /\ heap w' = heap w ++ [Py.set c (t, r) d]
                 /\ Py.get c (Py.set c (t, r) d) = Some (t, r)
                 /\ forall c', c' <> c -> Py.get c' (Py.set c (t, r) d) = Py.get c' d)
            _ Hrun).
  apply wp_neighbor_shape; [done|]. intros w1 d c t r Hd Hc Ht Hr Hw1.
  exists d, c, t, r. repeat split; try done; [apply get_set_eq|].
  intros c' Hne. by apply get_set_ne.
Qed.

Lemma neighbor_reassigns_one_course_witness :
  exists neighbor w' d c t r,
    SimulatedAnnealing.neighbor Sample.uni 0%nat SampleState.uni_world
    = Ok (neighbor, w')
    /\ heap SampleState.uni_world !! 0%nat = Some d
    /\ heap w' = heap SampleState.uni_world ++ [Py.set c (t, r) d].
Proof.
  destruct (wp_elim _ _ _
              (wp_neighbor_shape (t := Total) Sample.uni 0%nat SampleState.uni_world
                 (fun _ _ => True)
                 ltac:(intros _; repeat split; [by eexists|discriminate..])
                 ltac:(done)))
    as (neighbor & w' & Hrun & _).
  destruct (neighbor_reassigns_one_course Sample.uni 0%nat SampleState.uni_world
              neighbor w' Hrun) as (d & c & t & r & Hd & _ & _ & _ & _ & Hw' & _).
  by exists neighbor, w', d, c, t, r.
Defined.

Lemma annealing_init_run_valid (self : data)
    (initial_temperature cooling_rate : float) (max_iter : Z)
    (exp : float -> float) (w : world)
    (r : option addr) (st' : SimulatedAnnealing.state) (w' : world) :
  (let* st := SimulatedAnnealing.init self in
   SimulatedAnnealing.run self initial_temperature cooling_rate max_iter
     exp st) w
  = Ok ((r, st'), w') ->
  (exists a, r = Some a /\ valid_at self w' a)
  /\ SimulatedAnnealing.current st' = length (heap w)
  /\ valid_at self w' (SimulatedAnnealing.current st').
Proof.
  intros Hrun.
  refine (wlp_elim (t := Partial) _ _ _ _
            (fun r w' =>
               (exists a, r.1 = Some a /\ valid_at self w' a)
               /\ SimulatedAnnealing.current r.2 = length (heap w)
               /\ valid_at self w' (SimulatedAnnealing.current r.2))
            _ Hrun).
  unfold SimulatedAnnealing.init.
  change (SimulatedAnnealing.create_individual self)
    with (GeneticAlgorithm.create_individual self).
  apply wp_bind, wp_bind, wp_create_individual_valid; [done|].
  intros w1 d Hw1 Hvalid. apply wp_ret.
  assert (valid_at self w1 (length (heap w))) as Hcur.
  { exists d. split; [|done]. rewrite Hw1. apply lookup_last. }
  unfold SimulatedAnnealing.run. cbv zeta. simpl.
  eapply wp_bind, wp_annealing_fitness; [rewrite Hw1; apply lookup_last|].
  apply wp_bind. eapply wp_mono.
  { apply (wlp_annealing_run_loop_valid self cooling_rate exp); [done|].
    simpl. by intros a [= <-]. }
  intros st2 w2 (Hp & Hcur2 & Hsome & Hbest & _). apply wp_ret. simpl in *.
  split; [|split; [done|]].
  - destruct Hsome as [a Ha]; [by eauto|]. exists a. split; [done|]. by apply Hbest.
  - rewrite Hcur2. by eapply valid_at_preserved.
Qed.


(** X15.  Whenever the annealing constructor and [run] return, [run] returns a
    schedule, and it assigns each course of the instance exactly once, to a
    time slot and a room of the instance; so does the schedule the engine
    started from, which [run] leaves in [self.current]. *)
Theorem annealing_schedules_are_valid (self : data)
    (initial_temperature cooling_rate : float) (max_iter : Z)
    (exp : float -> float) (w : world)
    (r : option addr) (st' : SimulatedAnnealing.state) (w' : world) :
  (let* st := SimulatedAnnealing.init self in
   SimulatedAnnealing.run self initial_temperature cooling_rate max_iter
     exp st) w
  = Ok ((r, st'), w') ->
  (exists a, r = Some a /\ valid_at self w' a)
  /\ SimulatedAnnealing.current st' = length (heap w)
  /\ valid_at self w' (SimulatedAnnealing.current st').
Proof. apply annealing_init_run_valid. Qed.

Lemma annealing_schedules_are_valid_witness :
  exists r st' w',
    (let* st := SimulatedAnnealing.init Sample.uni in
     SimulatedAnnealing.run Sample.uni 1000%float 0.5%float 20
       SampleState.coin st) Sample.fresh
    = Ok ((r, st'), w')
    /\ exists a, r = Some a /\ valid_at Sample.uni w' a.
Proof.
  destruct (wp_elim _ _ _
              (wp_annealing_init_run (t := Total) Sample.uni 1000%float 0.5%float 20
                 SampleState.coin (fun _ => uni_ready) Sample.fresh))
    as ([r st'] & w' & Hrun & _).
  exists r, st', w'. split; [done|].
  apply (annealing_schedules_are_valid Sample.uni 1000%float 0.5%float 20
           SampleState.coin Sample.fresh r st' w' Hrun).
Defined.

(** X16.  The number of rounds the annealing loop completes is fixed by the
    cooling schedule alone: whenever the constructor and [run] return, the
    history has one entry for every round before the temperature, multiplied
    by the cooling rate at the start of each round, first is at or below
    [1e-10], and at most [max_iter]; the heap has grown by the initial
    schedule and one candidate per round. *)
Theorem annealing_rounds_follow_cooling (self : data)
    (initial_temperature cooling_rate : float) (max_iter : Z)
    (exp : float -> float) (w : world)
    (r : option addr) (st' : SimulatedAnnealing.state) (w' : world) :
  (let* st := SimulatedAnnealing.init self in
   SimulatedAnnealing.run self initial_temperature cooling_rate max_iter
     exp st) w
  = Ok ((r, st'), w') ->
  length (SimulatedAnnealing.fitness_history st')
  = steps_before_freeze initial_temperature cooling_rate (Z.to_nat max_iter)
  /\ (length (SimulatedAnnealing.fitness_history st') <= Z.to_nat max_iter)%nat
  /\ length (heap w')
     = (length (heap w) + 1 + length (SimulatedAnnealing.fitness_history st'))%nat.
Proof.
  intros Hrun.
  assert (forall T n, (steps_before_freeze T cooling_rate n <= n)%nat) as Hle.
  { intros T n. revert T. induction n as [|n IH]; intros T; simpl; [done|].
    destruct (PrimFloat.leb _ _); [lia|]. specialize (IH (PrimFloat.mul T cooling_rate)).
    lia. }
  refine (wlp_elim (t := Partial) _ _ _ _
            (fun r w' =>
               length (SimulatedAnnealing.fitness_history r.2)
               = steps_before_freeze initial_temperature cooling_rate
                   (Z.to_nat max_iter)
               /\ (length (SimulatedAnnealing.fitness_history r.2)
                   <= Z.to_nat max_iter)%nat
               /\ length (heap w')
                  = (length (heap w) + 1
                     + length (SimulatedAnnealing.fitness_history r.2))%nat)
            _ Hrun).
  unfold SimulatedAnnealing.init.
  change (SimulatedAnnealing.create_individual self)
    with (GeneticAlgorithm.create_individual self).
  apply wp_bind, wp_bind, wp_create_individual_valid; [done|].
  intros w1 d Hw1 Hvalid. apply wp_ret.
  assert (valid_at self w1 (length (heap w))) as Hcur.
  { exists d. split; [|done]. rewrite Hw1. apply lookup_last. }
  unfold SimulatedAnnealing.run. cbv zeta. simpl.
  eapply wp_bind, wp_annealing_fitness; [rewrite Hw1; apply lookup_last|].
  apply wp_bind. eapply wp_mono.
  { apply (wlp_annealing_run_loop_valid self cooling_rate exp); [done|].
    simpl. by intros a [= <-]. }
  intros st2 w2 (_ & _ & _ & _ & hist & Hhist & Hlen & Hheap). apply wp_ret.
  simpl in *. subst hist. rewrite Hlen. split; [done|]. split; [apply Hle|].
  rewrite Hheap, Hw1, length_app, Hlen. simpl. lia.
Qed.

(** With the defaults of the constructor (temperature 1000, cooling rate
    0.995, that is the binary64 value [0x1.fd70a3d70a3d7p-1], and 10000
    iterations) the loop completes 5971 rounds. *)
Lemma annealing_rounds_follow_cooling_witness :
  steps_before_freeze 1000%float 0x1.fd70a3d70a3d7p-1%float (Z.to_nat 10000)
  = Z.to_nat 5971
  /\ exists r st' w',
      (let* st := SimulatedAnnealing.init Sample.uni in
       SimulatedAnnealing.run Sample.uni 1000%float 0.5%float 100
         SampleState.coin st) Sample.fresh
      = Ok ((r, st'), w')
      /\ length (SimulatedAnnealing.fitness_history st') = 43%nat.
Proof.
  split; [vm_compute; reflexivity|].
  destruct (wp_elim _ _ _
              (wp_annealing_init_run (t := Total) Sample.uni 1000%float 0.5%float 100
                 SampleState.coin (fun _ => uni_ready) Sample.fresh))
    as ([r st'] & w' & Hrun & _).
  exists r, st', w'. split; [done|].
  destruct (annealing_rounds_follow_cooling Sample.uni 1000%float 0.5%float 100
              SampleState.coin Sample.fresh r st' w' Hrun) as (-> & _).
  vm_compute. reflexivity.
Defined.

(** ** Populations that are too small *)

Lemma bind_eq {A B} (m : M A) (k : A -> M B) w a w' :
  m w = Ok (a, w') -> bind m k w = k a w'.
Proof. unfold bind. by intros ->. Qed.

Lemma select_population_raises (population : list addr) (fitness : list Z)
    (num_selected : Z) w :
  (length population < 3)%nat -> 1 <= num_selected ->
  GeneticAlgorithm.select_population population fitness num_selected w
  = Raise Py.ValueError.
Proof.
  intros Hpop Hn. unfold GeneticAlgorithm.select_population, timesM, Py.range_len.
  destruct (Z.to_nat num_selected) as [|k] eqn:Hk; [lia|]. cbv zeta. simpl.
  apply bind_raise, bind_raise. unfold Random.sample.
  destruct (Z.ltb_spec (Py.len (zip population fitness)) (Z.of_nat 3)); [done|].
  unfold Py.len in *. rewrite length_zip in *. lia.
Qed.

Lemma genetic_run_unfold self n rate gens st w :
  0 < gens ->
  GeneticAlgorithm.run self n rate gens st w
  = (let* st1 := (let* (fitnesses, st) := GeneticAlgorithm.evaluate self st in
                  if decide (GeneticAlgorithm.best_fitness st = Some 0) then ret st
                  else
                    let* st := GeneticAlgorithm.breed self n rate fitnesses st in
                    GeneticAlgorithm.run_loop self n rate (Nat.pred (Z.to_nat gens)) st) in
     ret (GeneticAlgorithm.best_individual st1, st1)) w.
Proof.
  intros Hgens. unfold GeneticAlgorithm.run, Py.range_len.
  destruct (Z.to_nat gens) as [|g] eqn:Hg; [lia|]. reflexivity.
Qed.

(** X17.  With [population_size <= 0] the constructor builds an empty
    population, whatever the instance, and [run] with at least one generation
    raises [ValueError] at [max(fitnesses)]. *)
Theorem empty_population_raises (self : data) (population_size : Z)
    (mutation_rate : float) (generations : Z) (w : world) :
  population_size <= 0 -> 0 < generations ->
  GeneticAlgorithm.init self population_size w
  = Ok (GeneticAlgorithm.State [] None None [], w)
  /\ (let* st := GeneticAlgorithm.init self population_size in
      GeneticAlgorithm.run self population_size mutation_rate generations st) w
     = Raise Py.ValueError.
Proof.
  intros Hn Hgens.
  assert (GeneticAlgorithm.init self population_size w
          = Ok (GeneticAlgorithm.State [] None None [], w)) as Hinit.
  { unfold GeneticAlgorithm.init, timesM, Py.range_len.
    by replace (Z.to_nat population_size) with 0%nat by lia. }
  split; [done|]. rewrite (bind_eq _ _ _ _ _ Hinit).
  by rewrite genetic_run_unfold.
Qed.

Lemma empty_population_raises_witness :
  (let* st := GeneticAlgorithm.init Sample.uni 0 in
   GeneticAlgorithm.run Sample.uni 0 0.5%float 1 st) Sample.fresh
  = Raise Py.ValueError.
Proof.
  apply (empty_population_raises Sample.uni 0 0.5%float 1 Sample.fresh); lia.
Defined.

(** X18.  With one or two individuals, on an instance with a room and a time
    slot, [run] with at least one generation either raises [ValueError], when
    the tournament asks for 3 competitors, or it returns because generation 0
    already holds a schedule of fitness 0. *)
Theorem small_population_needs_luck (self : data) (population_size : Z)
    (mutation_rate : float) (generations : Z) (w : world) :
  times self <> [] -> rooms self <> [] ->
  1 <= population_size <= 2 -> 0 < generations ->
  (let* st := GeneticAlgorithm.init self population_size in
   GeneticAlgorithm.run self population_size mutation_rate generations st) w
  = Raise Py.ValueError
  \/ exists a st' w',
      (let* st := GeneticAlgorithm.init self population_size in
       GeneticAlgorithm.run self population_size mutation_rate generations st) w
      = Ok ((Some a, st'), w')
      /\ GeneticAlgorithm.best_fitness st' = Some 0
      /\ GeneticAlgorithm.current_best_history st' = [0]
      /\ GeneticScore.fitness self (default [] (heap w' !! a)) = 0.
Proof.
  intros Htimes Hrooms Hn Hgens.
  destruct (wp_elim _ _ _
              (wp_init (t := Total) self population_size w
                 (fun st w' =>
                    Forall (has_courses self w') (GeneticAlgorithm.population st)
                    /\ length (GeneticAlgorithm.population st) = Z.to_nat population_size
                    /\ GeneticAlgorithm.best_individual st = None
                    /\ GeneticAlgorithm.best_fitness st = None
                    /\ GeneticAlgorithm.current_best_history st = [])
                 (fun _ => conj Htimes Hrooms)
                 ltac:(by intros w' population _ Hall Hlen)))
    as (st0 & w0 & Hinit & Hall & Hlen & Hbi & Hbf & Hhist).
  rewrite (bind_eq _ _ _ _ _ Hinit), genetic_run_unfold by done.
  destruct (evaluate_total self st0 w0) as (fs & st1 & Hev).
  { intros Hnil. rewrite Hnil in Hlen. simpl in Hlen. lia. }
  { eapply Forall_impl; [exact Hall|]. apply has_courses_valid. }
  destruct (evaluate_spec self st0 w0 fs st1 w0 Hev)
    as (cb & _ & Hfs & Hpop1 & Hhist1 & Hcb & Hbest1 & Hind1).
  rewrite Hbf in Hbest1. rewrite Hhist in Hhist1. simpl in Hhist1.
  destruct (decide (GeneticAlgorithm.best_fitness st1 = Some 0)) as [Hzero|Hnonzero].
  - right. rewrite Hzero in Hbest1. injection Hbest1 as <-.
    pose proof (evaluate_ok self st0 w0 fs st1 w0 Hev) as Hok.
    rewrite Hbi, Hbf in Hok. destruct (Hok I) as (_ & _ & _ & Hrec & _).
    unfold best_recorded in Hrec. rewrite Hzero in Hrec.
    destruct (GeneticAlgorithm.best_individual st1) as [a|] eqn:Hind; [|done].
    destruct Hrec as (d & Hd & Hscore).
    exists a, st1, w0. split; [|by rewrite Hd].
    erewrite bind_eq.
    2:{ rewrite (bind_eq _ _ _ _ _ Hev). cbv beta iota.
        rewrite decide_True by done. reflexivity. }
    unfold ret. by rewrite Hind.
  - left. apply bind_raise. rewrite (bind_eq _ _ _ _ _ Hev). cbv beta iota.
    rewrite decide_False by done. apply bind_raise.
    unfold GeneticAlgorithm.breed.
    apply bind_raise, select_population_raises; [|lia].
    rewrite Hpop1, Hlen. lia.
Qed.

Lemma small_population_needs_luck_witness :
  (let* st := GeneticAlgorithm.init Sample.crowded 2 in
   GeneticAlgorithm.run Sample.crowded 2 0.5%float 1 st) Sample.fresh
  = Raise Py.ValueError
  \/ exists a st' w',
      (let* st := GeneticAlgorithm.init Sample.crowded 2 in
       GeneticAlgorithm.run Sample.crowded 2 0.5%float 1 st) Sample.fresh
      = Ok ((Some a, st'), w')
      /\ GeneticAlgorithm.best_fitness st' = Some 0
      /\ GeneticAlgorithm.current_best_history st' = [0]
      /\ GeneticScore.fitness Sample.crowded (default [] (heap w' !! a)) = 0.
Proof.
  apply (small_population_needs_luck Sample.crowded 2 0.5%float 1 Sample.fresh);
    [discriminate|discriminate|lia|lia].
Defined.

(** ** Instances without courses *)

Lemma feasible_empty self : feasible self [].
Proof.
  assert (forall group, scheduled_times [] group = []) as Hnone.
  { intros group. unfold scheduled_times. by induction group. }
  unfold feasible.
  split; [constructor|]. split; [by intros c t r ?%elem_of_nil|].
  split; [intros dept; rewrite Hnone; constructor|].
  split; [intros teacher; rewrite Hnone; constructor|].
  intros group _. rewrite Hnone. constructor.
Qed.

Lemma fitness_empty self : GeneticScore.fitness self [] = 0.
Proof. apply genetic_fitness_feasible, feasible_empty. Qed.

Lemma create_individual_no_courses self w :
  courses self = [] ->
  GeneticAlgorithm.create_individual self w
  = Ok (length (heap w), World (heap w ++ [[]]) (oracle w) (cursor w)).
Proof. intros Hc. unfold GeneticAlgorithm.create_individual. by rewrite Hc. Qed.

(** X19.  On an instance without courses the annealing constructor builds the
    empty schedule; [run] returns it unchanged, with fitness 0 and an empty
    history, if it performs no round ([max_iter <= 0], or the first cooled
    temperature is at or below [1e-10]), and otherwise raises [IndexError]
    when [neighbor] picks a course. *)
Theorem annealing_without_courses (self : data)
    (initial_temperature cooling_rate : float) (max_iter : Z)
    (exp : float -> float) (w : world) :
  courses self = [] ->
  (let* st := SimulatedAnnealing.init self in
   SimulatedAnnealing.run self initial_temperature cooling_rate max_iter
     exp st) w
  = if (0 <? max_iter)
       && negb (PrimFloat.leb (PrimFloat.mul initial_temperature cooling_rate)
                              SimulatedAnnealing.freeze_floor)
    then Raise Py.IndexError
    else Ok ((Some (length (heap w)),
              SimulatedAnnealing.State (length (heap w)) (Some (length (heap w)))
                                       (Some 0) []),
             World (heap w ++ [[]]) (oracle w) (cursor w)).
Proof.
  intros Hc.
  assert (SimulatedAnnealing.init self w
          = Ok (SimulatedAnnealing.State (length (heap w)) None None [],
                World (heap w ++ [[]]) (oracle w) (cursor w))) as Hinit.
  { unfold SimulatedAnnealing.init.
    change (SimulatedAnnealing.create_individual self)
      with (GeneticAlgorithm.create_individual self).
    by rewrite (bind_eq _ _ _ _ _ (create_individual_no_courses self w Hc)). }
  rewrite (bind_eq _ _ _ _ _ Hinit). unfold SimulatedAnnealing.run. cbv zeta. simpl.
  erewrite bind_eq.
  2:{ unfold SimulatedAnnealing.fitness, Heap.load, bind. simpl.
      rewrite lookup_last. unfold ret. by rewrite annealing_fitness_genetic, fitness_empty. }
  unfold Py.range_len. destruct (Z.ltb_spec 0 max_iter) as [Hpos|Hneg]; simpl.
  - destruct (Z.to_nat max_iter) as [|n] eqn:Hn; [lia|]. simpl.
    destruct (PrimFloat.leb (PrimFloat.mul initial_temperature cooling_rate)
                            SimulatedAnnealing.freeze_floor); simpl; [done|].
    apply bind_raise, bind_raise. unfold SimulatedAnnealing.neighbor.
    erewrite bind_eq.
    2:{ unfold Heap.copy, Heap.load, bind. simpl. rewrite lookup_last. reflexivity. }
    apply bind_raise. by rewrite Hc.
  - by replace (Z.to_nat max_iter) with 0%nat by lia.
Qed.

Lemma annealing_without_courses_witness :
  (let* st := SimulatedAnnealing.init Sample.no_courses in
   SimulatedAnnealing.run Sample.no_courses 1000%float 0.5%float 1
     SampleState.coin st) Sample.fresh
  = Raise Py.IndexError.
Proof.
  exact (annealing_without_courses Sample.no_courses 1000%float 0.5%float 1
           SampleState.coin Sample.fresh eq_refl).
Defined.

(** X20.  On an instance without courses the genetic engine with at least one
    individual and one generation always returns: every schedule is empty and
    scores 0, so [run] stops in generation 0, before the tournament, also
    with fewer than 3 individuals. *)
Theorem genetic_without_courses (self : data) (population_size : Z)
    (mutation_rate : float) (generations : Z) (w : world) :
  courses self = [] -> 1 <= population_size -> 0 < generations ->
  exists a st' w',
    (let* st := GeneticAlgorithm.init self population_size in
     GeneticAlgorithm.run self population_size mutation_rate generations st) w
    = Ok ((Some a, st'), w')
    /\ heap w' !! a = Some []
    /\ GeneticAlgorithm.best_fitness st' = Some 0
    /\ GeneticAlgorithm.current_best_history st' = [0]
    /\ Py.len (GeneticAlgorithm.population st') = population_size.
Proof.
  intros Hc Hn Hgens.
  assert (wp (GeneticAlgorithm.init self population_size) w
             (fun st w' =>
                Forall (fun a => heap w' !! a = Some [])
                       (GeneticAlgorithm.population st)
                /\ length (GeneticAlgorithm.population st) = Z.to_nat population_size
                /\ GeneticAlgorithm.best_individual st = None
                /\ GeneticAlgorithm.best_fitness st = None
                /\ GeneticAlgorithm.current_best_history st = [])) as Hinit.
  { unfold GeneticAlgorithm.init. apply wp_bind. eapply wp_mono.
    { apply (wp_timesM (fun i (ys : list addr) w' =>
               Forall (fun a => heap w' !! a = Some []) ys /\ length ys = i)).
      - split; [constructor|done].
      - intros i ys w1 _ [Hys Hlen].
        eapply wp_intro; [by apply create_individual_no_courses|]. simpl. split.
        + apply Forall_app. split.
          * eapply Forall_impl; [exact Hys|]. intros a Ha. simpl in Ha.
            rewrite lookup_app_l; [done|]. by eapply lookup_lt_Some.
          * apply Forall_singleton. apply lookup_last.
        + rewrite length_app. simpl. lia. }
    intros population w1 [Hall Hlen]. by apply wp_ret. }
  apply wp_elim in Hinit as (st0 & w0 & Hinit & Hall & Hlen & Hbi & Hbf & Hhist).
  rewrite (bind_eq _ _ _ _ _ Hinit), genetic_run_unfold by done.
  destruct (evaluate_total self st0 w0) as (fs & st1 & Hev).
  { intros Hnil. rewrite Hnil in Hlen. simpl in Hlen. lia. }
  { eapply Forall_impl; [exact Hall|]. intros a Ha. simpl in Ha. by rewrite Ha. }
  destruct (evaluate_spec self st0 w0 fs st1 w0 Hev)
    as (cb & _ & Hfs & Hpop1 & Hhist1 & Hcb & Hbest1 & Hind1).
  rewrite Hbf in Hbest1. rewrite Hhist in Hhist1. simpl in Hhist1.
  assert (cb = 0) as ->.
  { rewrite Hfs in Hcb. apply list_elem_of_fmap in Hcb as (a & -> & Ha).
    rewrite Forall_forall in Hall. unfold fitness_at. rewrite (Hall a Ha). simpl.
    apply fitness_empty. }
  destruct Hind1 as [Hsame|(a & Ha & Hind)].
  { pose proof (evaluate_ok self st0 w0 fs st1 w0 Hev) as Hok.
    rewrite Hbi, Hbf in Hok. destruct (Hok I) as (_ & _ & _ & Hrec & _).
    unfold best_recorded in Hrec. by rewrite Hsame, Hbi, Hbest1 in Hrec. }
  exists a, st1, w0. split; [|split; [|split; [done|split; [done|]]]].
  - erewrite bind_eq.
    2:{ rewrite (bind_eq _ _ _ _ _ Hev). cbv beta iota.
        rewrite decide_True by done. reflexivity. }
    unfold ret. by rewrite Hind.
  - rewrite Forall_forall in Hall. by apply Hall.
  - unfold Py.len. rewrite Hpop1, Hlen. lia.
Qed.

Lemma genetic_without_courses_witness :
  exists a st' w',
    (let* st := GeneticAlgorithm.init Sample.no_courses 1 in
     GeneticAlgorithm.run Sample.no_courses 1 0.5%float 3 st) Sample.fresh
    = Ok ((Some a, st'), w')
    /\ heap w' !! a = Some []
    /\ GeneticAlgorithm.best_fitness st' = Some 0
    /\ GeneticAlgorithm.current_best_history st' = [0]
    /\ Py.len (GeneticAlgorithm.population st') = 1.
Proof.
  apply (genetic_without_courses Sample.no_courses 1 0.5%float 3 Sample.fresh);
    [reflexivity|lia|lia].
Defined.

(** ** Tournament selection *)

Lemma swap_remove_perm {A} (pool : list A) (j : nat) (x y : A) :
  pool !! j = Some x -> pool !! (length pool - 1)%nat = Some y ->
  x :: take (length pool - 1) (<[j:=y]> pool) ≡ₚ pool.
Proof.
  intros Hx Hy. apply list_elem_of_split_length in Hx as (l1 & l2 & -> & ->).
  destruct l2 as [|z l2 _] using rev_ind.
  - rewrite length_app in *. simpl in *.
    replace (length l1 + 1 - 1)%nat with (length l1) in * by lia.
    rewrite list_lookup_middle in Hy by done. injection Hy as <-.
    rewrite list_insert_id by by apply list_lookup_middle.
    rewrite take_app_length. apply Permutation_cons_append.
  - assert (length (l1 ++ x :: l2 ++ [z]) - 1 = length (l1 ++ x :: l2))%nat as Hlen.
    { rewrite !length_app. simpl. rewrite length_app. simpl. lia. }
    rewrite Hlen in *.
    replace (l1 ++ x :: l2 ++ [z]) with ((l1 ++ x :: l2) ++ [z]) in *
      by by rewrite <-app_assoc.
    rewrite list_lookup_middle in Hy by done. injection Hy as <-.
    rewrite insert_app_l by (rewrite length_app; simpl; lia).
    rewrite take_app_le by (rewrite length_insert; lia).
    rewrite take_ge by (rewrite length_insert; lia).
    rewrite insert_app_r_alt, Nat.sub_diag by done. simpl.
    rewrite <-app_assoc. simpl.
    rewrite <-(Permutation_middle l1 (l2 ++ [z]) x). apply perm_skip.
    apply Permutation_app_head, Permutation_cons_append.
Qed.

Lemma max_by_snd_upper {A} (l : list (A * Z)) (x y : A * Z) :
  y ∈ x :: l ->
  y.2 <= (fold_left (fun best y => if best.2 <? y.2 then y else best) l x).2.
Proof.
  revert x y. induction l as [|z l IH]; intros x y Hy; simpl.
  - apply list_elem_of_singleton in Hy as ->. lia.
  - assert (x.2 <= (if x.2 <? z.2 then z else x).2
            /\ z.2 <= (if x.2 <? z.2 then z else x).2) as [Hx Hz]
        by (destruct (Z.ltb_spec x.2 z.2); lia).
    assert ((if x.2 <? z.2 then z else x).2
            <= (fold_left (fun best y => if best.2 <? y.2 then y else best) l
                  (if x.2 <? z.2 then z else x)).2) as Hacc
        by apply IH, list_elem_of_here.
    apply elem_of_cons in Hy as [->|Hy]; [lia|].
    apply elem_of_cons in Hy as [->|Hy]; [lia|].
    by apply IH, list_elem_of_further.
Qed.

Section Sampling.

Context {t : mode}.

Lemma wp_list_getitem_nonneg {A} (l : list A) i w (Q : A -> world -> Prop) :
  0 <= i -> (t = Total -> i < Py.len l) ->
  (forall x, l !! Z.to_nat i = Some x -> Q x w) ->
  triple t (list_getitem l i) w Q.
Proof.
  intros Hi Hlen HQ. unfold list_getitem. cbv zeta.
  destruct (Z.ltb_spec i 0); [lia|]. destruct (Z.ltb_spec i 0); [lia|].
  destruct (l !! Z.to_nat i) as [x|] eqn:Hx; [by apply wp_ret, HQ|].
  destruct t; [|done]. specialize (Hlen eq_refl).
  apply lookup_ge_None in Hx. unfold Py.len in Hlen. lia.
Qed.

(** The sample is drawn from distinct positions of the pool. *)
Lemma wp_sample_pool_sub {A} (k : nat) (pool : list A) w
    (Q : list A -> world -> Prop) :
  (t = Total -> (k <= length pool)%nat) ->
  (forall xs w', heap w' = heap w -> length xs = k -> xs ⊆+ pool -> Q xs w') ->
  triple t (Random.sample_pool pool k) w Q.
Proof.
  revert pool w Q. induction k as [|k IH]; intros pool w Q Hk HQ; simpl.
  - apply wp_ret. apply HQ; [done|done|]. apply submseteq_nil_l.
  - apply wp_bind, wp_randbelow. intros j w1 Hj Hw1.
    destruct (decide (pool = [])) as [->|Hne].
    { apply wp_bind, wp_list_getitem.
      - intros Ht. specialize (Hk Ht). simpl in Hk. lia.
      - by intros x ?%elem_of_nil. }
    assert (0 < Py.len pool) as Hpos by by apply len_pos.
    specialize (Hj Hpos).
    apply wp_bind, wp_list_getitem_nonneg; [lia|intros _; lia|]. intros x Hx.
    apply wp_bind, wp_list_getitem_nonneg; [lia|intros _; lia|]. intros y Hy.
    replace (Z.to_nat (Py.len pool - 1)) with (length pool - 1)%nat in Hy
      by (unfold Py.len; lia).
    apply wp_bind. apply IH.
    { intros Ht. specialize (Hk Ht). rewrite length_take, length_insert. lia. }
    intros xs w2 Hw2 Hlen Hxs. apply wp_ret. apply HQ.
    + by rewrite Hw2.
    + simpl. by rewrite Hlen.
    + rewrite <-(swap_remove_perm pool (Z.to_nat j) x y Hx Hy).
      by apply submseteq_skip.
Qed.

Lemma wp_sample_sub {A} (k : nat) (population : list A) w
    (Q : list A -> world -> Prop) :
  (t = Total -> (k <= length population)%nat) ->
  (forall xs w', heap w' = heap w -> length xs = k -> xs ⊆+ population -> Q xs w') ->
  triple t (Random.sample population k) w Q.
Proof.
  intros Hk HQ. unfold Random.sample.
  destruct (Z.ltb_spec (Py.len population) (Z.of_nat k)).
  - destruct t; [|done]. specialize (Hk eq_refl). unfold Py.len in *. lia.
  - by apply wp_sample_pool_sub.
Qed.

(** Every winner comes with two other entries of the population that score
    no better. *)
Lemma wp_select_population_tournament (population : list addr) (fitness : list Z)
    (num_selected : Z) w (Q : list addr -> world -> Prop) :
  (t = Total ->
   (3 <= length population)%nat /\ length fitness = length population) ->
  (forall selected w',
      heap w' = heap w ->
      length selected = Z.to_nat num_selected ->
      (forall a, a ∈ selected ->
         exists f x1 x2,
           [(a, f); x1; x2] ⊆+ zip population fitness /\ x1.2 <= f /\ x2.2 <= f) ->
      Q selected w') ->
  triple t (GeneticAlgorithm.select_population population fitness num_selected) w Q.
Proof.
  intros Hpre HQ. unfold GeneticAlgorithm.select_population. cbv zeta.
  eapply wp_mono.
  { apply (wp_timesM (fun i (ys : list addr) w' =>
             heap w' = heap w /\ length ys = i
             /\ forall a, a ∈ ys ->
                  exists f x1 x2,
                    [(a, f); x1; x2] ⊆+ zip population fitness
                    /\ x1.2 <= f /\ x2.2 <= f)).
    - split; [done|]. split; [done|]. by intros a ?%elem_of_nil.
    - intros i ys w1 Hi (Hw1 & Hlen & Hys).
      apply wp_bind, wp_sample_sub.
      { intros Ht. destruct (Hpre Ht) as [Hpop Hfit]. rewrite length_zip. lia. }
      intros xs w2 Hw2 Hxs Hsub.
      destruct xs as [|c1 [|c2 [|c3 [|? ?]]]]; try done.
      unfold bind, py_max_by_snd, ret. simpl.
      split; [by rewrite Hw2|]. split; [rewrite length_app; simpl; lia|].
      intros a Ha. apply elem_of_app in Ha as [Ha|Ha]; [by apply Hys|].
      apply list_elem_of_singleton in Ha as ->.
      pose proof (max_by_snd_upper [c2; c3] c1) as Hmax. simpl in Hmax.
      pose proof (Hmax c1 ltac:(apply list_elem_of_here)) as H1.
      pose proof (Hmax c2 ltac:(apply list_elem_of_further, list_elem_of_here)) as H2.
      pose proof (Hmax c3 ltac:(do 2 apply list_elem_of_further;
                                apply list_elem_of_here)) as H3.
      clear Hmax.
      destruct (c1.2 <? c2.2) eqn:H12.
      + destruct (c2.2 <? c3.2) eqn:H23.
        * exists c3.2, c1, c2. split; [|done].
          destruct c3 as [a3 f3]. simpl. by rewrite <-Hsub, (Permutation_cons_append [_; _]).
        * exists c2.2, c1, c3. split; [|done].
          destruct c2 as [a2 f2]. simpl. rewrite <-Hsub. apply Permutation_submseteq, perm_swap.
      + destruct (c1.2 <? c3.2) eqn:H13.
        * exists c3.2, c1, c2. split; [|done].
          destruct c3 as [a3 f3]. simpl. by rewrite <-Hsub, (Permutation_cons_append [_; _]).
        * exists c1.2, c2, c3. split; [|done]. by destruct c1 as [a1 f1]. }
  intros selected w1 (Hw1 & Hlen & Hsub). by apply HQ.
Qed.

End Sampling.

(** X21.  Whenever [select_population] returns, it has left the heap alone
    and returns [num_selected] winners (none for a negative number); every
    winner is an entry of the population that was drawn together with two
    entries at other positions, neither of which has a larger fitness. *)
Theorem tournament_winner_outscores_two (population : list addr) (fitness : list Z)
    (num_selected : Z) (w : world) (selected : list addr) (w' : world) :
  GeneticAlgorithm.select_population population fitness num_selected w
  = Ok (selected, w') ->
  heap w' = heap w
  /\ length selected = Z.to_nat num_selected
  /\ forall a, a ∈ selected ->
       exists f x1 x2,
         [(a, f); x1; x2] ⊆+ zip population fitness /\ x1.2 <= f /\ x2.2 <= f.
Proof.
  intros Hrun.
  refine (wlp_elim (t := Partial) _ _ _ _
            (fun selected w' =>
               heap w' = heap w
               /\ length selected = Z.to_nat num_selected
               /\ forall a, a ∈ selected ->
                    exists f x1 x2,
                      [(a, f); x1; x2] ⊆+ zip population fitness
                      /\ x1.2 <= f /\ x2.2 <= f)
            _ Hrun).
  by apply wp_select_population_tournament.
Qed.

Lemma tournament_winner_outscores_two_witness :
  exists selected w',
    GeneticAlgorithm.select_population [0; 1; 2; 3]%nat [-1000; 0; -500; -2000] 4
      Sample.fresh = Ok (selected, w')
    /\ forall a, a ∈ selected ->
         exists f x1 x2,
           [(a, f); x1; x2] ⊆+ zip [0; 1; 2; 3]%nat [-1000; 0; -500; -2000]
           /\ x1.2 <= f /\ x2.2 <= f.
Proof.
  destruct (wp_elim _ _ _
              (wp_select_population_tournament (t := Total)
                 [0; 1; 2; 3]%nat [-1000; 0; -500; -2000] 4 Sample.fresh
                 (fun _ _ => True)
                 ltac:(intros _; split; [simpl; lia|reflexivity])
                 ltac:(done)))
    as (selected & w' & Hrun & _).
  exists selected, w'. split; [exact Hrun|].
  apply (tournament_winner_outscores_two _ _ _ _ _ _ Hrun).
Defined.

(** ** Construction and breeding *)

(** X22.  [create_individual], the same in both engines, allocates one new
    dictionary and returns it: a schedule that assigns each course of the
    instance exactly once, to a time slot and a room of the instance.  It
    returns whenever the instance has a time slot and a room. *)
Theorem create_individual_is_valid (self : data) (w : world) :
  SimulatedAnnealing.create_individual self w
  = GeneticAlgorithm.create_individual self w
  /\ (forall a w',
        GeneticAlgorithm.create_individual self w = Ok (a, w') ->
        a = length (heap w)
        /\ exists d, heap w' = heap w ++ [d] /\ valid_schedule self d)
  /\ (times self <> [] -> rooms self <> [] ->
      exists a w', GeneticAlgorithm.create_individual self w = Ok (a, w')).
Proof.
  split; [reflexivity|]. split.
  - intros a w' Hrun.
    refine (wlp_elim (t := Partial) _ _ _ _
              (fun a w' =>
                 a = length (heap w)
                 /\ exists d, heap w' = heap w ++ [d] /\ valid_schedule self d)
              _ Hrun).
    apply wp_create_individual_valid; [done|]. intros w1 d Hw1 Hvalid.
    split; [done|]. by exists d.
  - intros Htimes Hrooms.
    destruct (wp_elim _ _ _
                (wp_create_individual_valid (t := Total) self w (fun _ _ => True)
                   (fun _ => conj Htimes Hrooms) ltac:(done)))
      as (a & w' & Hrun & _).
    by exists a, w'.
Qed.

(** X23.  One round of selection, crossover and mutation on a population
    that is ready for it returns a population of [population_size]
    individuals when [population_size] is even and of [population_size + 1]
    when it is odd. *)
Theorem breeding_rounds_up_to_even (self : data) (population_size : Z)
    (mutation_rate : float) (fitnesses : list Z) (st : GeneticAlgorithm.state)
    (w : world) :
  0 <= population_size -> breed_ready self fitnesses st w ->
  exists st' w',
    GeneticAlgorithm.breed self population_size mutation_rate fitnesses st w
    = Ok (st', w')
    /\ Py.len (GeneticAlgorithm.population st')
       = (if Z.odd population_size then population_size + 1 else population_size).
Proof. apply child_generation_size. Qed.

Lemma breeding_rounds_up_to_even_witness :
  exists st' w',
    GeneticAlgorithm.breed Sample.trivial 5 0.5%float [0; 0; 0]
      SampleState.trivial_state SampleState.trivial_world
    = Ok (st', w')
    /\ Py.len (GeneticAlgorithm.population st') = 6.
Proof.
  apply (breeding_rounds_up_to_even Sample.trivial 5 0.5%float [0; 0; 0]
           SampleState.trivial_state SampleState.trivial_world); [lia|].
  unfold breed_ready. simpl. repeat split; try discriminate; try lia.
  repeat constructor; eexists; (split; [reflexivity|courses_listed]).
Defined.

(** ** Printing the best schedule *)

Section Printing.

Variable self : data.











End Printing.









(** ** The operators on complete schedules *)

(** X27.  On a heap of schedules of the instance, whenever crossover of two
    parents that assign every course returns, the children are two new,
    different dictionaries, each assigning every course of the instance
    exactly once, to a time slot and a room of the instance, and every other
    dictionary is as before. *)
Theorem crossover_children_are_valid (self : data) (parent1 parent2 : addr)
    (w : world) (child1 child2 : addr) (w' : world) :
  within_heap self w ->
  has_courses self w parent1 -> has_courses self w parent2 ->
  GeneticAlgorithm.crossover self parent1 parent2 w = Ok ((child1, child2), w') ->
  child1 = length (heap w) /\ child2 = S (length (heap w))
  /\ length (heap w') = S (S (length (heap w)))
  /\ preserved w w'
  /\ valid_at self w' child1 /\ valid_at self w' child2.
Proof.
  intros Hw Hp1 Hp2 Hrun.
  assert (wlp (GeneticAlgorithm.crossover self parent1 parent2) w
              (fun r w' =>
                 (r = (length (heap w), S (length (heap w)))
                  /\ length (heap w') = S (S (length (heap w)))
                  /\ preserved w w'
                  /\ has_courses self w' (length (heap w))
                  /\ has_courses self w' (S (length (heap w))))
                 /\ within_heap self w')) as Hspec.
  { apply triple_conj; [|by apply wlp_crossover_within].
    apply wp_crossover; [done|]. intros w1 e1 e2 Hw1 Hsome _.
    split; [done|]. split; [rewrite Hw1, length_app; simpl; lia|].
    split; [by eapply preserved_app|]. split.
    - exists e1. split; [rewrite Hw1; apply lookup_first_of_two|].
      intros c Hc. by apply Hsome.
    - exists e2. split; [rewrite Hw1; apply lookup_second_of_two|].
      intros c Hc. by apply Hsome. }
  destruct (wlp_elim _ _ _ _ _ Hspec Hrun)
    as (([= -> ->] & Hlen & Hp & Hc1 & Hc2) & Hw').
  repeat split; try done; by apply has_courses_valid_at.
Qed.

Lemma crossover_children_are_valid_witness :
  exists child1 child2 w',
    GeneticAlgorithm.crossover Sample.uni 0%nat 1%nat SampleState.uni_world
    = Ok ((child1, child2), w')
    /\ valid_at Sample.uni w' child1 /\ valid_at Sample.uni w' child2.
Proof.
  assert (has_courses Sample.uni SampleState.uni_world 0%nat) as H0
      by (eexists; split; [reflexivity|courses_listed]).
  assert (has_courses Sample.uni SampleState.uni_world 1%nat) as H1
      by (eexists; split; [reflexivity|courses_listed]).
  destruct (wp_elim _ _ _
              (wp_crossover (t := Total) Sample.uni 0%nat 1%nat SampleState.uni_world
                 (fun _ _ => True) (fun _ => conj H0 H1) ltac:(done)))
    as ([child1 child2] & w' & Hrun & _).
  exists child1, child2, w'. split; [exact Hrun|].
  refine (proj2 (proj2 (proj2 (proj2
            (crossover_children_are_valid Sample.uni 0%nat 1%nat SampleState.uni_world
               child1 child2 w' _ H0 H1 Hrun))))).
  apply Forall_forall. intros d Hd. simpl in Hd.
  rewrite !elem_of_cons, elem_of_nil in Hd. split.
  - destruct Hd as [->|[->|[]]]; apply (bool_decide_unpack _); vm_compute; exact I.
  - intros c t r Hin.
    destruct Hd as [->|[->|[]]];
      unfold SampleState.first, SampleState.second in Hin;
      rewrite !elem_of_cons, elem_of_nil in Hin;
      destruct Hin as [[= -> -> ->]|[[= -> -> ->]|[[= -> -> ->]|[]]]];
      simpl; rewrite !elem_of_cons; tauto.
Defined.

(** X28.  On a heap of schedules of the instance, whenever mutation of a
    schedule that assigns every course returns, it returns the same
    dictionary, changed in place, which still assigns every course of the
    instance exactly once, to a time slot and a room of the instance; no
    dictionary is allocated and no other one changes. *)
Theorem mutation_keeps_schedules_valid (self : data) (mutation_rate : float)
    (individual : addr) (w : world) (r : addr) (w' : world) :
  within_heap self w -> has_courses self w individual ->
  GeneticAlgorithm.mutate self mutation_rate individual w = Ok (r, w') ->
  r = individual
  /\ valid_at self w' individual
  /\ length (heap w') = length (heap w)
  /\ forall a, a <> individual -> heap w' !! a = heap w !! a.
Proof.
  intros Hw Hind Hrun.
  assert (wlp (GeneticAlgorithm.mutate self mutation_rate individual) w
              (fun r w' =>
                 (r = individual
                  /\ has_courses self w' individual
                  /\ length (heap w') = length (heap w)
                  /\ forall a, a <> individual -> heap w' !! a = heap w !! a)
                 /\ within_heap self w')) as Hspec.
  { apply triple_conj; [|by apply wlp_mutate_within].
    apply wp_mutate; [done|]. intros w1 d d' Hd Hw1 Hkeys.
    split; [done|]. split; [|split].
    - destruct Hind as (d0 & Hd0 & Hall). rewrite Hd in Hd0. injection Hd0 as <-.
      exists d'. split.
      + rewrite Hw1. apply list_lookup_insert_eq. by eapply lookup_lt_Some.
      + intros c Hc. apply get_is_Some. rewrite Hkeys. by apply get_is_Some, Hall.
    - by rewrite Hw1, length_insert.
    - intros a Ha. by rewrite Hw1, list_lookup_insert_ne. }
  destruct (wlp_elim _ _ _ _ _ Hspec Hrun) as ((-> & Hc & Hlen & Hrest) & Hw').
  repeat split; try done. by apply has_courses_valid_at.
Qed.

Lemma mutation_keeps_schedules_valid_witness :
  exists r w',
    GeneticAlgorithm.mutate Sample.trivial 0.5%float 0%nat SampleState.trivial_world
    = Ok (r, w')
    /\ r = 0%nat /\ valid_at Sample.trivial w' 0%nat.
Proof.
  assert (has_courses Sample.trivial SampleState.trivial_world 0%nat) as H0
      by (eexists; split; [reflexivity|courses_listed]).
  destruct (wp_elim _ _ _
              (wp_mutate (t := Total) Sample.trivial 0.5%float 0%nat
                 SampleState.trivial_world (fun _ _ => True)
                 ltac:(intros _; repeat split; [by eexists|discriminate..])
                 ltac:(done)))
    as (r & w' & Hrun & _).
  exists r, w'. split; [exact Hrun|].
  destruct (mutation_keeps_schedules_valid Sample.trivial 0.5%float 0%nat
              SampleState.trivial_world r w') as (Hr & Hvalid & _); try done.
  apply Forall_forall. intros d Hd. simpl in Hd.
  rewrite !elem_of_cons, elem_of_nil in Hd.
  assert (d = SampleState.lone) as -> by (destruct Hd as [->|[->|[->|[]]]]; done).
  split; [apply (bool_decide_unpack _); vm_compute; exact I|].
  intros c t r0 Hin. apply list_elem_of_singleton in Hin as [= -> -> ->].
  repeat split; apply list_elem_of_here.
Defined.

(** X29.  Whenever the genetic constructor returns, the population consists
    of [population_size] new dictionaries at consecutive addresses (none for
    [population_size <= 0]), each assigning every course of the instance
    exactly once, to a time slot and a room of the instance; nothing is
    recorded as best, the history is empty, and every dictionary that existed
    is unchanged.  It returns whenever the instance has a time slot and a
    room. *)
Theorem constructor_builds_distinct_schedules (self : data) (population_size : Z)
    (w : world) :
  (forall st w',
      GeneticAlgorithm.init self population_size w = Ok (st, w') ->
      st = GeneticAlgorithm.State (seq (length (heap w)) (Z.to_nat population_size))
                                  None None []
      /\ length (heap w') = (length (heap w) + Z.to_nat population_size)%nat
      /\ preserved w w'
      /\ Forall (valid_at self w') (GeneticAlgorithm.population st))
  /\ (times self <> [] -> rooms self <> [] ->
      exists st w', GeneticAlgorithm.init self population_size w = Ok (st, w')).
Proof.
  assert (forall t : mode,
             (t = Total -> times self <> [] /\ rooms self <> []) ->
             triple t (GeneticAlgorithm.init self population_size) w
               (fun st w' =>
                  st = GeneticAlgorithm.State
                         (seq (length (heap w)) (Z.to_nat population_size))
                         None None []
                  /\ length (heap w') = (length (heap w) + Z.to_nat population_size)%nat
                  /\ preserved w w'
                  /\ Forall (valid_at self w') (GeneticAlgorithm.population st)))
    as Hspec.
  { intros t Hne. unfold GeneticAlgorithm.init, Py.range_len.
    apply wp_bind. eapply wp_mono.
    { apply (wp_timesM (fun i (ys : list addr) w' =>
               ys = seq (length (heap w)) i
               /\ length (heap w') = (length (heap w) + i)%nat
               /\ preserved w w'
               /\ Forall (valid_at self w') ys)).
      - rewrite Nat.add_0_r. repeat split; [apply preserved_refl|constructor].
      - intros i ys w1 Hi (-> & Hlen & Hp & Hys).
        apply wp_create_individual_valid; [done|]. intros w2 d Hw2 Hvalid.
        assert (preserved w1 w2) as Hp12 by by eapply preserved_app.
        split; [by rewrite seq_S, Hlen|].
        split; [rewrite Hw2, length_app, Hlen; simpl; lia|].
        split; [by eapply preserved_trans|].
        apply Forall_app. split.
        + eapply Forall_impl; [exact Hys|]. intros a Ha.
          by eapply valid_at_preserved.
        + apply Forall_singleton. exists d. split; [|done].
          rewrite Hw2. apply lookup_last. }
    intros population w1 (-> & Hlen & Hp & Hall). by apply wp_ret. }
  split.
  - intros st w' Hrun. exact (wlp_elim _ _ _ _ _ (Hspec Partial unconditional) Hrun).
  - intros Htimes Hrooms.
    destruct (wp_elim _ _ _ (Hspec Total (fun _ => conj Htimes Hrooms)))
      as (st & w' & Hrun & _).
    by exists st, w'.
Qed.
